(** * duckdb_spatial: geometry model, WKT reader, spheroid area and
      GDAL copy function

    A shallow embedding of
      - [WKTReader] (spatial/core/geometry/wkt_reader, appended to
        src/spatial/src/spatial/gdal/functions/st_write.cpp),
      - the GDAL copy function of that file ([Bind], [InitGlobal],
        [OGRFieldTypeFromLogicalType], [SetOgrFieldFromValue], [Sink]),
      - [TileEnvelopeFunction], and the area functions
        [GeodesicPolygon2DFunction], [PolygonArea] and [GeometryArea]
        (src/spatial/src/spatial/core/functions/scalar/st_tileenvelope.cpp),
    together with the geometry tree they build and the binary codec and
    bounding box the specification describes. *)

From Stdlib Require Import ZArith List Ascii String DecimalString Bool Lia Arith.
Import ListNotations.

Local Open Scope Z_scope.

(* ================================================================== *)
(** * Characters (the C locale predicates the reader uses)             *)
(* ================================================================== *)

Module Ctype.

Definition code (c : ascii) : Z := Z.of_nat (nat_of_ascii c).

Definition between (lo hi : Z) (c : ascii) : bool :=
  (lo <=? code c) && (code c <=? hi).

(** [std::isspace]: space, \t, \n, \v, \f, \r. *)
Definition isspace (c : ascii) : bool :=
  (code c =? 32) || between 9 13 c.

Definition isdigit (c : ascii) : bool := between 48 57 c.
Definition isupper (c : ascii) : bool := between 65 90 c.
Definition islower (c : ascii) : bool := between 97 122 c.
Definition isalpha (c : ascii) : bool := isupper c || islower c.

(** [std::isalnum]. *)
Definition isalnum (c : ascii) : bool := isalpha c || isdigit c.

(** [std::tolower]. *)
Definition tolower (c : ascii) : ascii :=
  if isupper c then ascii_of_nat (nat_of_ascii c + 32) else c.

End Ctype.

(* ================================================================== *)
(** * Doubles                                                          *)
(* ================================================================== *)

(** A [double] is its IEEE-754 binary64 bit pattern, an integer in
    [0, 2^64): sign bit 63, exponent bits 62..52, fraction bits 51..0. *)
Definition double := Z.

Module Double.

Definition is_double (d : double) : Prop := 0 <= d < 2 ^ 64.

Definition sign_bit : Z := 2 ^ 63.
Definition infinity : double := 2047 * 2 ^ 52.
Definition quiet_nan : double := 2047 * 2 ^ 52 + 2 ^ 51.

(** The literal [0] converted to [double]. *)
Definition zero : double := 0.

Definition with_sign (neg : bool) (d : double) : double :=
  if neg then d + sign_bit else d.

Definition magnitude (d : double) : Z := d mod sign_bit.
Definition is_nan (d : double) : bool := infinity <? magnitude d.

(** The real order on non-NaN doubles, read off the bit pattern
    (sign and magnitude); -0 and +0 compare equal. *)
Definition key (d : double) : Z :=
  if d <? sign_bit then magnitude d else - magnitude d.

(** [a < b] on doubles; false when either side is a NaN. *)
Definition ltb (a b : double) : bool :=
  negb (is_nan a) && negb (is_nan b) && (key a <? key b).

(** [std::min] and [std::max]. *)
Definition min (a b : double) : double := if ltb b a then b else a.
Definition max (a b : double) : double := if ltb a b then b else a.

(** ** Correctly rounded conversion of a decimal to binary64 *)

Definition round_half_even (n d : Z) : Z :=
  let q := n / d in
  let r := n mod d in
  if (d <? 2 * r) || ((d =? 2 * r) && Z.odd q) then q + 1 else q.

(** [n * 2^k / d], rounded to nearest, ties to even. *)
Definition scaled_round (n d k : Z) : Z :=
  if 0 <=? k then round_half_even (n * 2 ^ k) d
  else round_half_even n (d * 2 ^ (- k)).

(** [2^e * d <= n]. *)
Definition pow2_le (n d e : Z) : bool :=
  if 0 <=? e then d * 2 ^ e <=? n else d <=? n * 2 ^ (- e).

(** The binary64 nearest to the positive rational [n / d]. *)
Definition of_ratio (n d : Z) : double :=
  let e0 := Z.log2 n - Z.log2 d in
  let e := if pow2_le n d e0 then e0 else e0 - 1 in
  let bits :=
    if e <? -1022 then scaled_round n d 1074
    else (e + 1022) * 2 ^ 52 + scaled_round n d (52 - e) in
  Z.min bits infinity.

(** The binary64 nearest to [(-1)^neg * m * 10^e].  Values far outside
    the binary64 range are settled without building the power of ten. *)
Definition of_decimal (neg : bool) (m e : Z) : double :=
  with_sign neg
    (if m <=? 0 then 0
     else if 400 <? e then infinity
     else if e + (Z.log2 m + 1) / 3 + 1 <? -400 then 0
     else if 0 <=? e then of_ratio (m * 10 ^ e) 1
     else of_ratio m (10 ^ (- e))).

End Double.

(* ================================================================== *)
(** * fast_float::from_chars                                           *)
(* ================================================================== *)

(** The reader calls [duckdb_fast_float::from_chars<double>(cursor, end,
    data)], a vendored third-party routine that is not part of the
    repository's sources.  It is modelled from its contract: it reads the
    longest prefix of [cursor, end) that is a decimal floating literal
    (optional '-', digits with an optional '.', optional exponent), or
    "nan", "inf" and "infinity" in any letter case, stores the correctly
    rounded binary64 and returns the position after that prefix; when no
    such prefix exists it reports an error and the cursor is not moved.
    The result is [Some (value, rest)] or [None]. *)
Module fast_float.

Fixpoint span_digits (s : list ascii) : list ascii * list ascii :=
  match s with
  | c :: t =>
      if Ctype.isdigit c
      then let (ds, r) := span_digits t in (c :: ds, r)
      else ([], s)
  | [] => ([], [])
  end.

Definition digits_value (ds : list ascii) : Z :=
  fold_left (fun a c => 10 * a + (Ctype.code c - 48)) ds 0.

Definition strip_minus (s : list ascii) : bool * list ascii :=
  match s with
  | "-"%char :: t => (true, t)
  | _ => (false, s)
  end.

(** The sign of an exponent, if one is written. *)
Definition exponent_sign (s : list ascii) : bool * list ascii :=
  match s with
  | "-"%char :: u => (true, u)
  | "+"%char :: u => (false, u)
  | _ => (false, s)
  end.

(** The exponent part: [e] or [E], an optional sign and at least one
    digit; anything else leaves the position before the [e]. *)
Definition parse_exponent (s : list ascii) : Z * list ascii :=
  match s with
  | c :: t =>
      if Ascii.eqb (Ctype.tolower c) "e"%char then
        let (eneg, t1) := exponent_sign t in
        let (ed, t2) := span_digits t1 in
        match ed with
        | [] => (0, s)
        | _ => ((if eneg then - digits_value ed else digits_value ed), t2)
        end
      else (0, s)
  | [] => (0, s)
  end.

(** The digits after a decimal point, if there is one. *)
Definition fraction (s : list ascii) : list ascii * list ascii :=
  match s with
  | "."%char :: t => span_digits t
  | _ => ([], s)
  end.

Definition parse_number_string (s : list ascii) : option (double * list ascii) :=
  let (neg, s1) := strip_minus s in
  let (ip, s2) := span_digits s1 in
  let (fp, s3) := fraction s2 in
  match ip ++ fp with
  | [] => None
  | ds =>
      let (e, s4) := parse_exponent s3 in
      Some (Double.of_decimal neg (digits_value ds) (e - Z.of_nat (List.length fp)), s4)
  end.

(** [fastfloat_strncasecmp] against a lower-case word. *)
Fixpoint strncasecmp (s : list ascii) (word : list ascii) {struct word}
  : option (list ascii) :=
  match word with
  | [] => Some s
  | w :: word' =>
      match s with
      | c :: t => if Ascii.eqb (Ctype.tolower c) w then strncasecmp t word' else None
      | [] => None
      end
  end.

Definition is_nchar (c : ascii) : bool :=
  Ctype.isalnum c || Ascii.eqb c "_"%char.

(** The optional [(n-char-sequence)] after "nan": the position after the
    closing parenthesis if there is one. *)
Fixpoint nan_payload (s : list ascii) : option (list ascii) :=
  match s with
  | c :: t =>
      if Ascii.eqb c ")"%char then Some t
      else if is_nchar c then nan_payload t
      else None
  | [] => None
  end.

(** After "nan": past a well-formed [(n-char-sequence)], if any. *)
Definition after_nan (r : list ascii) : list ascii :=
  match r with
  | "("%char :: t => match nan_payload t with Some u => u | None => r end
  | _ => r
  end.

(** After "inf": past "inity", if that follows. *)
Definition after_inf (r : list ascii) : list ascii :=
  match strncasecmp r (list_ascii_of_string "inity") with
  | Some u => u
  | None => r
  end.

Definition parse_infnan (s : list ascii) : option (double * list ascii) :=
  let (neg, s1) := strip_minus s in
  match strncasecmp s1 (list_ascii_of_string "nan") with
  | Some r => Some (Double.with_sign neg Double.quiet_nan, after_nan r)
  | None =>
      match strncasecmp s1 (list_ascii_of_string "inf") with
      | Some r => Some (Double.with_sign neg Double.infinity, after_inf r)
      | None => None
      end
  end.

Definition from_chars (s : list ascii) : option (double * list ascii) :=
  match parse_number_string s with
  | Some r => Some r
  | None => parse_infnan s
  end.

End fast_float.

(* ================================================================== *)
(** * The geometry tree                                                *)
(* ================================================================== *)

(** [uint32_t] arithmetic. *)
Definition uint32 (n : Z) : Z := n mod 2 ^ 32.

(** A flat buffer of doubles with its vertex count and dimension flags. *)
Record VertexArray : Type := mkVertexArray {
  va_has_z : bool;
  va_has_m : bool;
  va_count : Z;
  va_data : list double
}.

Module VertexArray.

(** Doubles per vertex: 2 for XY, 3 for XYZ and XYM, 4 for XYZM. *)
Definition dimension (has_z has_m : bool) : nat :=
  (2 + (if has_z then 1 else 0) + (if has_m then 1 else 0))%nat.

Definition Empty (has_z has_m : bool) : VertexArray :=
  mkVertexArray has_z has_m 0 [].

(** [VertexArray::Copy(arena, data, count, has_z, has_m)]: the first
    [count] vertices of [data]. *)
Definition Copy (data : list double) (count : Z) (has_z has_m : bool) : VertexArray :=
  mkVertexArray has_z has_m count
    (firstn (Z.to_nat count * dimension has_z has_m) data).

Definition Count (v : VertexArray) : Z := va_count v.

(** The coordinates of vertex [i]. *)
Definition vertex_at (v : VertexArray) (i : nat) : list double :=
  let d := dimension (va_has_z v) (va_has_m v) in
  firstn d (skipn (i * d) (va_data v)).


(** A vertex array is well formed when its buffer holds exactly [count]
    vertices of binary64 values and the count fits [uint32_t]. *)
Definition well_formed (v : VertexArray) : Prop :=
  0 <= va_count v < 2 ^ 32 /\
  List.length (va_data v)
    = (Z.to_nat (va_count v) * dimension (va_has_z v) (va_has_m v))%nat /\
  Forall Double.is_double (va_data v).

End VertexArray.

Record Point : Type := mkPoint { point_vertices : VertexArray }.
Record LineString : Type := mkLineString { line_vertices : VertexArray }.
Record Polygon : Type := mkPolygon {
  polygon_has_z : bool;
  polygon_has_m : bool;
  polygon_rings : list VertexArray
}.
Record MultiPoint : Type := mkMultiPoint {
  multipoint_has_z : bool;
  multipoint_has_m : bool;
  multipoint_points : list Point
}.
Record MultiLineString : Type := mkMultiLineString {
  multilinestring_has_z : bool;
  multilinestring_has_m : bool;
  multilinestring_lines : list LineString
}.
Record MultiPolygon : Type := mkMultiPolygon {
  multipolygon_has_z : bool;
  multipolygon_has_m : bool;
  multipolygon_polygons : list Polygon
}.

(** The tagged union over the seven kinds.  A collection holds its flags
    and its items, which are geometries of any kind. *)
#[warnings="-register-all"]
Inductive Geometry : Type :=
| GeomPoint (p : Point)
| GeomLineString (l : LineString)
| GeomPolygon (p : Polygon)
| GeomMultiPoint (mp : MultiPoint)
| GeomMultiLineString (ml : MultiLineString)
| GeomMultiPolygon (mp : MultiPolygon)
| GeomCollection (has_z has_m : bool) (items : list Geometry).

(** ** Pre-sized children filled by indexed assignment *)

(** [dst[i] = x]; an index out of range leaves [dst] as it is. *)
Fixpoint assign {A : Type} (i : nat) (x : A) (dst : list A) : list A :=
  match dst, i with
  | [], _ => []
  | _ :: t, O => x :: t
  | y :: t, S i' => y :: assign i' x t
  end.

(** [for (i = from; i < src.size(); i++) dst[i] = src[i];] with [src]
    the elements from index [from] on. *)
Fixpoint assign_all {A : Type} (from : nat) (src : list A) (dst : list A) : list A :=
  match src with
  | [] => dst
  | x :: src' => assign_all (S from) src' (assign from x dst)
  end.

Module Ctor.

(** [Point(has_z, has_m)]: the empty point. *)
Definition EmptyPoint (has_z has_m : bool) : Point :=
  mkPoint (VertexArray.Empty has_z has_m).

(** [Polygon(has_z, has_m)]: no rings. *)
Definition EmptyPolygon (has_z has_m : bool) : Polygon :=
  mkPolygon has_z has_m [].

(** [Polygon(arena, count, has_z, has_m)]: [count] empty rings. *)
Definition SizedPolygon (count : nat) (has_z has_m : bool) : Polygon :=
  mkPolygon has_z has_m (repeat (VertexArray.Empty has_z has_m) count).

Definition SizedMultiPoint (count : nat) (has_z has_m : bool) : MultiPoint :=
  mkMultiPoint has_z has_m (repeat (EmptyPoint has_z has_m) count).

Definition SizedMultiLineString (count : nat) (has_z has_m : bool) : MultiLineString :=
  mkMultiLineString has_z has_m
    (repeat (mkLineString (VertexArray.Empty has_z has_m)) count).

Definition SizedMultiPolygon (count : nat) (has_z has_m : bool) : MultiPolygon :=
  mkMultiPolygon has_z has_m (repeat (EmptyPolygon has_z has_m) count).

(** [GeometryCollection(arena, count, has_z, has_m)]; a slot not yet
    assigned holds an empty point. *)
Definition SizedCollection (count : nat) (has_z has_m : bool) : list Geometry :=
  repeat (GeomPoint (EmptyPoint has_z has_m)) count.

(** [T result(arena, xs.size(), has_z, has_m);
     for (uint32_t i = 0; i < xs.size(); i++) result[i] = xs[i];] *)
Definition FilledPolygon (rings : list VertexArray) (has_z has_m : bool) : Polygon :=
  let result := SizedPolygon (List.length rings) has_z has_m in
  mkPolygon (polygon_has_z result) (polygon_has_m result)
    (assign_all 0 rings (polygon_rings result)).

Definition FilledMultiPoint (points : list Point) (has_z has_m : bool) : MultiPoint :=
  let result := SizedMultiPoint (List.length points) has_z has_m in
  mkMultiPoint (multipoint_has_z result) (multipoint_has_m result)
    (assign_all 0 points (multipoint_points result)).

Definition FilledMultiLineString (lines : list LineString) (has_z has_m : bool)
  : MultiLineString :=
  let result := SizedMultiLineString (List.length lines) has_z has_m in
  mkMultiLineString (multilinestring_has_z result) (multilinestring_has_m result)
    (assign_all 0 lines (multilinestring_lines result)).

Definition FilledMultiPolygon (polygons : list Polygon) (has_z has_m : bool)
  : MultiPolygon :=
  let result := SizedMultiPolygon (List.length polygons) has_z has_m in
  mkMultiPolygon (multipolygon_has_z result) (multipolygon_has_m result)
    (assign_all 0 polygons (multipolygon_polygons result)).

Definition FilledCollection (geometries : list Geometry) (has_z has_m : bool) : Geometry :=
  GeomCollection has_z has_m
    (assign_all 0 geometries (SizedCollection (List.length geometries) has_z has_m)).

End Ctor.

(* ================================================================== *)
(** * WKTReader                                                        *)
(* ================================================================== *)

Module WKTReader.

(** The reader's fields.  [start] is index 0 of [input], [end] is
    [length input], [cursor] is an index into [input]. *)
Record reader : Type := mkReader {
  input : list ascii;
  cursor : nat;
  has_z : bool;
  has_m : bool;
  zm_set : bool
}.

Definition end_ (r : reader) : nat := List.length (input r).

(** The bytes of [cursor, end). *)
Definition remaining (r : reader) : list ascii := skipn (cursor r) (input r).

Definition set_cursor (n : nat) (r : reader) : reader :=
  mkReader (input r) n (has_z r) (has_m r) (zm_set r).

(** Outcomes of a reader operation.  [InvalidInputException] is the
    exception the reader throws.  [OutOfBoundsRead pos] records that
    [*cursor] was evaluated with [cursor = pos >= end]: the byte read is
    not part of the input and C++ leaves the behaviour undefined, so the
    model stops there.  [OutOfFuel] belongs to the model only (a loop
    bound that was too small). *)
Inductive result (A : Type) : Type :=
| Ok (a : A)
| InvalidInputException (msg : string)
| OutOfBoundsRead (pos : nat)
| OutOfFuel.

Arguments Ok {A} a.
Arguments InvalidInputException {A} msg.
Arguments OutOfBoundsRead {A} pos.
Arguments OutOfFuel {A}.

Definition M (A : Type) : Type := reader -> result (A * reader).

Definition ret {A : Type} (a : A) : M A := fun r => Ok (a, r).

Definition bind {A B : Type} (m : M A) (k : A -> M B) : M B :=
  fun r =>
    match m r with
    | Ok (a, r') => k a r'
    | InvalidInputException msg => InvalidInputException msg
    | OutOfBoundsRead pos => OutOfBoundsRead pos
    | OutOfFuel => OutOfFuel
    end.

Declare Scope reader_scope.
Delimit Scope reader_scope with reader.
Notation "x <- m ;; k" := (bind m (fun x => k))
  (at level 61, m at next level, right associativity) : reader_scope.
Notation "m ;;; k" := (bind m (fun _ => k))
  (at level 61, right associativity) : reader_scope.
Local Open Scope reader_scope.

Definition throw {A : Type} (msg : string) : M A :=
  fun _ => InvalidInputException msg.

Definition out_of_fuel {A : Type} : M A := fun _ => OutOfFuel.

Definition get : M reader := fun r => Ok (r, r).

(** [*cursor]. *)
Definition deref : M ascii :=
  fun r =>
    match nth_error (input r) (cursor r) with
    | Some c => Ok (c, r)
    | None => OutOfBoundsRead (cursor r)
    end.

(** [cursor++]. *)
Definition advance : M unit := fun r => Ok (tt, set_cursor (S (cursor r)) r).

Fixpoint space_run (s : list ascii) : nat :=
  match s with
  | c :: t => if Ctype.isspace c then S (space_run t) else O
  | [] => O
  end.

(** [while (cursor < end && std::isspace( *cursor)) cursor++;] *)
Definition skip_space : M unit :=
  fun r => Ok (tt, set_cursor (cursor r + space_run (remaining r)) r).

(** [std::to_string] of a non-negative offset. *)
Definition to_string (n : nat) : string :=
  DecimalString.NilEmpty.string_of_uint (Nat.to_uint n).

(** [string(first, last)] for two positions of the input. *)
Definition substring (first last : nat) (s : list ascii) : string :=
  string_of_list_ascii (firstn (last - first) (skipn first s)).

Definition GetErrorContext : M string :=
  fun r =>
    let len := 32%nat in
    let msg_start := (cursor r - len)%nat in
    let msg_end := Nat.min (cursor r + 1) (end_ r) in
    let msg := substring msg_start msg_end (input r) in
    let msg := if (msg_start =? 0)%nat then msg else ("..." ++ msg)%string in
    Ok (("at position " ++ to_string (cursor r) ++ " near: '" ++ msg ++ "'|<---")%string, r).

(** [cursor = p]. *)
Definition move_to (p : nat) : M unit := fun r => Ok (tt, set_cursor p r).

Definition TryParseDouble : M (option double) :=
  r <- get ;;
  match fast_float.from_chars (remaining r) with
  | Some (data, rest) =>
      (* cursor = result.ptr *)
      move_to (end_ r - List.length rest) ;;;
      skip_space ;;;
      ret (Some data)
  | None => ret None
  end.

Definition ParseDouble : M double :=
  ok <- TryParseDouble ;;
  match ok with
  | Some result => ret result
  | None =>
      ctx <- GetErrorContext ;;
      throw ("WKT Parser: Expected double " ++ ctx)%string
  end.

Fixpoint word_run (s : list ascii) : nat :=
  match s with
  | c :: t =>
      if negb (Ctype.isspace c) && Ctype.isalnum c then S (word_run t) else O
  | [] => O
  end.

Definition ParseWord : M string :=
  r <- get ;;
  let pos := cursor r in
  let n := word_run (remaining r) in
  move_to (pos + n) ;;;
  ret (substring pos (pos + n) (input r)).

Definition Match (c : ascii) : M bool :=
  x <- deref ;;
  if Ascii.eqb x c then
    advance ;;; skip_space ;;; ret true
  else ret false.

(** The comparison loop of [MatchCI]: [true] when every character of
    [str] matched, [false] at the first mismatch. *)
Fixpoint MatchCI_chars (str : list ascii) : M bool :=
  match str with
  | [] => ret true
  | s :: str' =>
      x <- deref ;;
      if Ascii.eqb (Ctype.tolower s) (Ctype.tolower x)
      then advance ;;; MatchCI_chars str'
      else ret false
  end.

Definition MatchCI (str : string) : M bool :=
  r <- get ;;
  let pos := cursor r in
  ok <- MatchCI_chars (list_ascii_of_string str) ;;
  if ok then skip_space ;;; ret true
  else move_to pos ;;; ret false.

Definition Expect (c : ascii) : M unit :=
  ok <- Match c ;;
  if ok then ret tt
  else
    ctx <- GetErrorContext ;;
    throw ("WKT Parser: Expected character '" ++ String c "" ++ "' " ++ ctx)%string.

(** [ParseVertex(coords)]: the vector after the push_backs. *)
Definition ParseVertex (coords : list double) : M (list double) :=
  r <- get ;;
  x <- ParseDouble ;;
  y <- ParseDouble ;;
  z <- (if has_z r then ParseDouble else ret Double.zero) ;;
  m <- (if has_m r then ParseDouble else ret Double.zero) ;;
  ret (coords ++ [x; y] ++ (if has_z r then [z] else [])
              ++ (if has_m r then [m] else [])).

(** [while (Match(',')) { body }], the loop of every list production;
    [acc] is what the body updates. *)
Fixpoint comma_loop {A : Type} (fuel : nat) (body : A -> M A) (acc : A) : M A :=
  match fuel with
  | O => out_of_fuel
  | S fuel' =>
      more <- Match "," ;;
      if more then acc' <- body acc ;; comma_loop fuel' body acc'
      else ret acc
  end.

(** Builds a value from the reader's [has_z] and [has_m] as they are
    when the constructor is called. *)
Definition construct {A : Type} (ctor : bool -> bool -> A) : M A :=
  r <- get ;; ret (ctor (has_z r) (has_m r)).

Definition ParseVertices (fuel : nat) : M VertexArray :=
  empty <- MatchCI "EMPTY" ;;
  if empty then construct VertexArray.Empty
  else
    Expect "(" ;;;
    coords <- ParseVertex [] ;;
    cc <- comma_loop fuel
            (fun cc : list double * Z =>
               coords' <- ParseVertex (fst cc) ;;
               ret (coords', uint32 (snd cc + 1)))
            (coords, uint32 (0 + 1)) ;;
    Expect ")" ;;;
    construct (VertexArray.Copy (fst cc) (snd cc)).

Definition ParsePoint : M Point :=
  empty <- MatchCI "EMPTY" ;;
  if empty then construct Ctor.EmptyPoint
  else
    Expect "(" ;;;
    coords <- ParseVertex [] ;;
    Expect ")" ;;;
    construct (fun z m => mkPoint (VertexArray.Copy coords 1 z m)).

Definition ParseLineString (fuel : nat) : M LineString :=
  v <- ParseVertices fuel ;;
  ret (mkLineString v).

Definition ParsePolygon (fuel : nat) : M Polygon :=
  empty <- MatchCI "EMPTY" ;;
  if empty then construct Ctor.EmptyPolygon
  else
    Expect "(" ;;;
    ring <- ParseVertices fuel ;;
    rings <- comma_loop fuel
               (fun rings => ring' <- ParseVertices fuel ;; ret (rings ++ [ring']))
               [ring] ;;
    Expect ")" ;;;
    construct (Ctor.FilledPolygon rings).

(** One point of a multipoint, with its optional parentheses. *)
Definition ParseMultiPoint_item (points : list Point) : M (list Point) :=
  optional_paren <- Match "(" ;;
  coords <- ParseVertex [] ;;
  (if optional_paren then Expect ")" else ret tt) ;;;
  point <- construct (fun z m => mkPoint (VertexArray.Copy coords 1 z m)) ;;
  ret (points ++ [point]).

Definition ParseMultiPoint (fuel : nat) : M MultiPoint :=
  empty <- MatchCI "EMPTY" ;;
  if empty then construct (fun z m => mkMultiPoint z m [])
  else
    Expect "(" ;;;
    points <- ParseMultiPoint_item [] ;;
    points <- comma_loop fuel ParseMultiPoint_item points ;;
    Expect ")" ;;;
    construct (Ctor.FilledMultiPoint points).

Definition ParseMultiLineString (fuel : nat) : M MultiLineString :=
  empty <- MatchCI "EMPTY" ;;
  if empty then construct (fun z m => mkMultiLineString z m [])
  else
    Expect "(" ;;;
    line <- ParseLineString fuel ;;
    lines <- comma_loop fuel
               (fun lines => line' <- ParseLineString fuel ;; ret (lines ++ [line']))
               [line] ;;
    Expect ")" ;;;
    construct (Ctor.FilledMultiLineString lines).

Definition ParseMultiPolygon (fuel : nat) : M MultiPolygon :=
  empty <- MatchCI "EMPTY" ;;
  if empty then construct (fun z m => mkMultiPolygon z m [])
  else
    Expect "(" ;;;
    polygon <- ParsePolygon fuel ;;
    polygons <- comma_loop fuel
                  (fun polygons => polygon' <- ParsePolygon fuel ;; ret (polygons ++ [polygon']))
                  [polygon] ;;
    Expect ")" ;;;
    construct (Ctor.FilledMultiPolygon polygons).

(** [ParseGeometryCollection], given the reader for one item. *)
Definition ParseGeometryCollection (ParseGeometry : M Geometry) (fuel : nat) : M Geometry :=
  empty <- MatchCI "EMPTY" ;;
  if empty then construct (fun z m => GeomCollection z m [])
  else
    Expect "(" ;;;
    geometry <- ParseGeometry ;;
    geometries <- comma_loop fuel
                    (fun geometries => geometry' <- ParseGeometry ;; ret (geometries ++ [geometry']))
                    [geometry] ;;
    Expect ")" ;;;
    construct (Ctor.FilledCollection geometries).

Definition mismatch_message : string :=
  "WKT Parser: GeometryCollection with mixed Z and M types are not supported, mismatch ".

Definition CheckZM : M unit :=
  (* 'M' is tried after a 'Z' and also when there is no 'Z' *)
  geom_has_z <- Match "Z" ;;
  geom_has_m <- Match "M" ;;
  r <- get ;;
  if zm_set r then
    if negb (Bool.eqb (has_z r) geom_has_z) || negb (Bool.eqb (has_m r) geom_has_m)
    then
      ctx <- GetErrorContext ;;
      throw (mismatch_message ++ ctx)%string
    else ret tt
  else
    fun r => Ok (tt, mkReader (input r) (cursor r) geom_has_z geom_has_m true).

Fixpoint ParseGeometry (fuel : nat) : M Geometry :=
  match fuel with
  | O => out_of_fuel
  | S fuel' =>
      b <- MatchCI "POINT" ;;
      if b then CheckZM ;;; p <- ParsePoint ;; ret (GeomPoint p) else
      b <- MatchCI "LINESTRING" ;;
      if b then CheckZM ;;; l <- ParseLineString fuel' ;; ret (GeomLineString l) else
      b <- MatchCI "POLYGON" ;;
      if b then CheckZM ;;; p <- ParsePolygon fuel' ;; ret (GeomPolygon p) else
      b <- MatchCI "MULTIPOINT" ;;
      if b then CheckZM ;;; p <- ParseMultiPoint fuel' ;; ret (GeomMultiPoint p) else
      b <- MatchCI "MULTILINESTRING" ;;
      if b then CheckZM ;;; l <- ParseMultiLineString fuel' ;; ret (GeomMultiLineString l) else
      b <- MatchCI "MULTIPOLYGON" ;;
      if b then CheckZM ;;; p <- ParseMultiPolygon fuel' ;; ret (GeomMultiPolygon p) else
      b <- MatchCI "GEOMETRYCOLLECTION" ;;
      if b then CheckZM ;;; ParseGeometryCollection (ParseGeometry fuel') fuel' else
      context <- GetErrorContext ;;
      word <- ParseWord ;;
      throw ("WKT Parser: Unknown geometry type '" ++ word ++ "' " ++ context)%string
  end.

Fixpoint not_semicolon_run (s : list ascii) : nat :=
  match s with
  | c :: t => if Ascii.eqb c ";" then O else S (not_semicolon_run t)
  | [] => O
  end.

Definition ParseWKT (fuel : nat) : M Geometry :=
  srid <- MatchCI "SRID" ;;
  (if srid then
     (* while (cursor < end && *cursor != ';') cursor++; *)
     r <- get ;;
     move_to (cursor r + not_semicolon_run (remaining r)) ;;;
     Expect ";" ;;;
     skip_space
   else ret tt) ;;;
  ParseGeometry fuel.

(** [Parse(wkt)]: the geometry, or the way the call ended.  Neither a
    loop iteration nor a nested geometry is entered without consuming a
    byte, so the input's length bounds both. *)
Definition Parse (wkt : string) : result Geometry :=
  let bytes := list_ascii_of_string wkt in
  match ParseWKT (S (List.length bytes)) (mkReader bytes 0 false false false) with
  | Ok (geom, _) => Ok geom
  | InvalidInputException msg => InvalidInputException msg
  | OutOfBoundsRead pos => OutOfBoundsRead pos
  | OutOfFuel => OutOfFuel
  end.

End WKTReader.

(* ================================================================== *)
(** * Properties of a tree: dimension flags and well-formedness        *)
(* ================================================================== *)

Definition has_flags (z m : bool) (z' m' : bool) : bool :=
  Bool.eqb z' z && Bool.eqb m' m.

Definition va_has_zm (z m : bool) (v : VertexArray) : bool :=
  has_flags z m (va_has_z v) (va_has_m v).

Definition polygon_has_zm (z m : bool) (p : Polygon) : bool :=
  has_flags z m (polygon_has_z p) (polygon_has_m p)
  && forallb (va_has_zm z m) (polygon_rings p).

(** Every node of [g], down to the vertex arrays, carries the flags
    [z] and [m]. *)
Fixpoint has_zm (z m : bool) (g : Geometry) : bool :=
  match g with
  | GeomPoint p => va_has_zm z m (point_vertices p)
  | GeomLineString l => va_has_zm z m (line_vertices l)
  | GeomPolygon p => polygon_has_zm z m p
  | GeomMultiPoint mp =>
      has_flags z m (multipoint_has_z mp) (multipoint_has_m mp)
      && forallb (fun p => va_has_zm z m (point_vertices p)) (multipoint_points mp)
  | GeomMultiLineString ml =>
      has_flags z m (multilinestring_has_z ml) (multilinestring_has_m ml)
      && forallb (fun l => va_has_zm z m (line_vertices l)) (multilinestring_lines ml)
  | GeomMultiPolygon mp =>
      has_flags z m (multipolygon_has_z mp) (multipolygon_has_m mp)
      && forallb (polygon_has_zm z m) (multipolygon_polygons mp)
  | GeomCollection z' m' items =>
      has_flags z m z' m' && forallb (has_zm z m) items
  end.

(** The flags of the root node. *)
Definition Geometry_has_z (g : Geometry) : bool :=
  match g with
  | GeomPoint p => va_has_z (point_vertices p)
  | GeomLineString l => va_has_z (line_vertices l)
  | GeomPolygon p => polygon_has_z p
  | GeomMultiPoint mp => multipoint_has_z mp
  | GeomMultiLineString ml => multilinestring_has_z ml
  | GeomMultiPolygon mp => multipolygon_has_z mp
  | GeomCollection z _ _ => z
  end.

Definition Geometry_has_m (g : Geometry) : bool :=
  match g with
  | GeomPoint p => va_has_m (point_vertices p)
  | GeomLineString l => va_has_m (line_vertices l)
  | GeomPolygon p => polygon_has_m p
  | GeomMultiPoint mp => multipoint_has_m mp
  | GeomMultiLineString ml => multilinestring_has_m ml
  | GeomMultiPolygon mp => multipolygon_has_m mp
  | GeomCollection _ m _ => m
  end.

(** All nodes of [g] carry the flags of its root. *)
Definition uniform_zm (g : Geometry) : bool :=
  has_zm (Geometry_has_z g) (Geometry_has_m g) g.

Definition is_doubleb (d : double) : bool := (0 <=? d) && (d <? 2 ^ 64).

(** The boolean form of [VertexArray.well_formed]. *)
Definition va_well_formed (v : VertexArray) : bool :=
  (0 <=? va_count v) && (va_count v <? 2 ^ 32)
  && (List.length (va_data v)
      =? Z.to_nat (va_count v) * VertexArray.dimension (va_has_z v) (va_has_m v))%nat
  && forallb is_doubleb (va_data v).

Definition fits_uint32 {A : Type} (l : list A) : bool :=
  Z.of_nat (List.length l) <? 2 ^ 32.

Definition polygon_well_formed (p : Polygon) : bool :=
  fits_uint32 (polygon_rings p) && forallb va_well_formed (polygon_rings p).

(** Every vertex array of [g] is well formed and every child count fits
    [uint32_t]. *)
Fixpoint well_formed (g : Geometry) : bool :=
  match g with
  | GeomPoint p => va_well_formed (point_vertices p)
  | GeomLineString l => va_well_formed (line_vertices l)
  | GeomPolygon p => polygon_well_formed p
  | GeomMultiPoint mp =>
      fits_uint32 (multipoint_points mp)
      && forallb (fun p => va_well_formed (point_vertices p)) (multipoint_points mp)
  | GeomMultiLineString ml =>
      fits_uint32 (multilinestring_lines ml)
      && forallb (fun l => va_well_formed (line_vertices l)) (multilinestring_lines ml)
  | GeomMultiPolygon mp =>
      fits_uint32 (multipolygon_polygons mp)
      && forallb polygon_well_formed (multipolygon_polygons mp)
  | GeomCollection _ _ items =>
      fits_uint32 items && forallb well_formed items
  end.

(** A valid Geometry Tree: uniform dimension flags and well-formed
    vertex arrays. *)
Definition valid_tree (g : Geometry) : bool := uniform_zm g && well_formed g.

(** The rings of every polygon of a tree. *)
Fixpoint rings_of (g : Geometry) : list VertexArray :=
  match g with
  | GeomPolygon p => polygon_rings p
  | GeomMultiPolygon mp => flat_map polygon_rings (multipolygon_polygons mp)
  | GeomCollection _ _ items => flat_map rings_of items
  | _ => []
  end.


(* ================================================================== *)
(** * The binary codec (geometry_t)                                    *)
(* ================================================================== *)

(** A serialized geometry: a sequence of bytes, each in [0, 256). *)
Definition geometry_t := list Z.

Module GeometryFactory.

(** ** Fixed-width little-endian fields *)

Fixpoint le_bytes (n : nat) (v : Z) : list Z :=
  match n with
  | O => []
  | S n' => v mod 256 :: le_bytes n' (v / 256)
  end.

Fixpoint le_value (bs : list Z) : Z :=
  match bs with
  | [] => 0
  | b :: t => b + 256 * le_value t
  end.

Inductive GeometryType : Type :=
| POINT | LINESTRING | POLYGON | MULTIPOINT | MULTILINESTRING | MULTIPOLYGON
| GEOMETRYCOLLECTION.

Definition type_code (t : GeometryType) : Z :=
  match t with
  | POINT => 0 | LINESTRING => 1 | POLYGON => 2 | MULTIPOINT => 3
  | MULTILINESTRING => 4 | MULTIPOLYGON => 5 | GEOMETRYCOLLECTION => 6
  end.

Definition type_of_code (c : Z) : option GeometryType :=
  match c with
  | 0 => Some POINT | 1 => Some LINESTRING | 2 => Some POLYGON
  | 3 => Some MULTIPOINT | 4 => Some MULTILINESTRING | 5 => Some MULTIPOLYGON
  | 6 => Some GEOMETRYCOLLECTION
  | _ => None
  end.

Definition Type_ (g : Geometry) : GeometryType :=
  match g with
  | GeomPoint _ => POINT
  | GeomLineString _ => LINESTRING
  | GeomPolygon _ => POLYGON
  | GeomMultiPoint _ => MULTIPOINT
  | GeomMultiLineString _ => MULTILINESTRING
  | GeomMultiPolygon _ => MULTIPOLYGON
  | GeomCollection _ _ _ => GEOMETRYCOLLECTION
  end.

(** Modelled from the spec: the serializer and deserializer of
    geometry_t (GeometryFactory::Serialize and ::Deserialize) are defined
    outside the verified files.  Spec 4.5: a compact tag (geometry kind and
    dimension flags), then a kind-specific payload in which every count
    is written before the data it sizes and vertex data is written as
    packed doubles in x, y, [z], [m] order; nested composites recurse, so
    the layout is a pre-order traversal.  The tag is one byte, the kind
    in bits 0..2, has_z in bit 3 and has_m in bit 4; counts are 32-bit
    and doubles 64-bit, both little-endian. *)
Definition tag (t : GeometryType) (has_z has_m : bool) : Z :=
  type_code t + (if has_z then 8 else 0) + (if has_m then 16 else 0).

Definition write_vertices (v : VertexArray) : list Z :=
  le_bytes 4 (va_count v) ++ flat_map (le_bytes 8) (va_data v).

Definition write_counted {A : Type} (write : A -> list Z) (xs : list A) : list Z :=
  le_bytes 4 (Z.of_nat (List.length xs)) ++ flat_map write xs.

Definition write_point (p : Point) : list Z :=
  tag POINT (va_has_z (point_vertices p)) (va_has_m (point_vertices p))
  :: write_vertices (point_vertices p).

Definition write_linestring (l : LineString) : list Z :=
  tag LINESTRING (va_has_z (line_vertices l)) (va_has_m (line_vertices l))
  :: write_vertices (line_vertices l).

Definition write_polygon (p : Polygon) : list Z :=
  tag POLYGON (polygon_has_z p) (polygon_has_m p)
  :: write_counted write_vertices (polygon_rings p).

(** Modelled from the spec: the pre-order traversal of spec 4.5; a
    composite writes its tag, its child count, then each child in
    order. *)
Fixpoint write_geometry (g : Geometry) : list Z :=
  match g with
  | GeomPoint p => write_point p
  | GeomLineString l => write_linestring l
  | GeomPolygon p => write_polygon p
  | GeomMultiPoint mp =>
      tag MULTIPOINT (multipoint_has_z mp) (multipoint_has_m mp)
      :: write_counted write_point (multipoint_points mp)
  | GeomMultiLineString ml =>
      tag MULTILINESTRING (multilinestring_has_z ml) (multilinestring_has_m ml)
      :: write_counted write_linestring (multilinestring_lines ml)
  | GeomMultiPolygon mp =>
      tag MULTIPOLYGON (multipolygon_has_z mp) (multipolygon_has_m mp)
      :: write_counted write_polygon (multipolygon_polygons mp)
  | GeomCollection z m items =>
      tag GEOMETRYCOLLECTION z m
      :: le_bytes 4 (Z.of_nat (List.length items)) ++ flat_map write_geometry items
  end.

(** Modelled from the spec: [GeometryFactory::Serialize], tree to
    geometry_t (spec 4.5, 6). *)
Definition Serialize (g : Geometry) : geometry_t := write_geometry g.

(** ** Decoding *)

Inductive decode_error : Type :=
| Truncated          (* the buffer ends inside a field *)
| InvalidTag         (* no such kind, or unused tag bits set *)
| InconsistentTag    (* a child of the wrong kind or dimension *)
| TrailingBytes.     (* bytes left after the tree *)

Inductive decoded (A : Type) : Type :=
| Decoded (a : A) (rest : list Z)
| DecodeError (e : decode_error).

Arguments Decoded {A} a rest.
Arguments DecodeError {A} e.

Definition dbind {A B : Type} (d : decoded A) (k : A -> list Z -> decoded B) : decoded B :=
  match d with
  | Decoded a rest => k a rest
  | DecodeError e => DecodeError e
  end.

(** [n] bytes as one little-endian field. *)
Definition read_le (n : nat) (bs : list Z) : decoded Z :=
  if (List.length bs <? n)%nat then DecodeError Truncated
  else Decoded (le_value (firstn n bs)) (skipn n bs).

(** [n] items read one after the other. *)
Fixpoint read_n {A : Type} (n : nat) (read : list Z -> decoded A) (bs : list Z)
  : decoded (list A) :=
  match n with
  | O => Decoded [] bs
  | S n' =>
      dbind (read bs) (fun x rest =>
      dbind (read_n n' read rest) (fun xs rest' =>
      Decoded (x :: xs) rest'))
  end.

Definition read_counted {A : Type} (read : list Z -> decoded A) (bs : list Z)
  : decoded (list A) :=
  dbind (read_le 4 bs) (fun count rest => read_n (Z.to_nat count) read rest).

Definition read_vertices (has_z has_m : bool) (bs : list Z) : decoded VertexArray :=
  dbind (read_le 4 bs) (fun count rest =>
  dbind (read_n (Z.to_nat count * VertexArray.dimension has_z has_m) (read_le 8) rest)
    (fun data rest' => Decoded (mkVertexArray has_z has_m count data) rest')).

(** The tag byte: kind and flags. *)
Definition read_tag (bs : list Z) : decoded (GeometryType * bool * bool) :=
  match bs with
  | [] => DecodeError Truncated
  | b :: rest =>
      if (0 <=? b) && (b <? 32) then
        match type_of_code (b mod 8) with
        | Some t => Decoded (t, Z.testbit b 3, Z.testbit b 4) rest
        | None => DecodeError InvalidTag
        end
      else DecodeError InvalidTag
  end.

(** A child whose tag must be exactly [tag t has_z has_m]. *)
Definition expect_tag (t : GeometryType) (has_z has_m : bool) (bs : list Z)
  : decoded unit :=
  dbind (read_tag bs) (fun k rest =>
    let '(t', z, m) := k in
    if (type_code t' =? type_code t) && has_flags has_z has_m z m
    then Decoded tt rest
    else DecodeError InconsistentTag).

Definition read_point (has_z has_m : bool) (bs : list Z) : decoded Point :=
  dbind (expect_tag POINT has_z has_m bs) (fun _ rest =>
  dbind (read_vertices has_z has_m rest) (fun v rest' => Decoded (mkPoint v) rest')).

Definition read_linestring (has_z has_m : bool) (bs : list Z) : decoded LineString :=
  dbind (expect_tag LINESTRING has_z has_m bs) (fun _ rest =>
  dbind (read_vertices has_z has_m rest) (fun v rest' => Decoded (mkLineString v) rest')).

Definition read_rings (has_z has_m : bool) (bs : list Z) : decoded Polygon :=
  dbind (read_counted (read_vertices has_z has_m) bs) (fun rings rest =>
  Decoded (mkPolygon has_z has_m rings) rest).

Definition read_polygon (has_z has_m : bool) (bs : list Z) : decoded Polygon :=
  dbind (expect_tag POLYGON has_z has_m bs) (fun _ rest => read_rings has_z has_m rest).

(** Modelled from the spec: one geometry with its tag, read back in
    the order of spec 4.5.  [parent] holds the flags of the enclosing
    collection, which a nested geometry must repeat (spec 3: no mixed
    dimensions inside one tree).  [fuel] bounds the nesting depth. *)
Fixpoint read_geometry (fuel : nat) (parent : option (bool * bool)) (bs : list Z)
  : decoded Geometry :=
  match fuel with
  | O => DecodeError Truncated
  | S fuel' =>
      dbind (read_tag bs) (fun k rest =>
        let '(t, z, m) := k in
        if match parent with
           | Some (pz, pm) => negb (has_flags pz pm z m)
           | None => false
           end
        then DecodeError InconsistentTag
        else
          match t with
          | POINT =>
              dbind (read_vertices z m rest) (fun v r => Decoded (GeomPoint (mkPoint v)) r)
          | LINESTRING =>
              dbind (read_vertices z m rest)
                (fun v r => Decoded (GeomLineString (mkLineString v)) r)
          | POLYGON =>
              dbind (read_rings z m rest) (fun p r => Decoded (GeomPolygon p) r)
          | MULTIPOINT =>
              dbind (read_counted (read_point z m) rest)
                (fun ps r => Decoded (GeomMultiPoint (mkMultiPoint z m ps)) r)
          | MULTILINESTRING =>
              dbind (read_counted (read_linestring z m) rest)
                (fun ls r => Decoded (GeomMultiLineString (mkMultiLineString z m ls)) r)
          | MULTIPOLYGON =>
              dbind (read_counted (read_polygon z m) rest)
                (fun ps r => Decoded (GeomMultiPolygon (mkMultiPolygon z m ps)) r)
          | GEOMETRYCOLLECTION =>
              dbind (read_counted (read_geometry fuel' (Some (z, m))) rest)
                (fun items r => Decoded (GeomCollection z m items) r)
          end)
  end.

(** Modelled from the spec: [GeometryFactory::Deserialize],
    geometry_t to tree (spec 4.5, 6).  Every level of nesting takes at
    least its tag byte, hence the bound on the depth. *)
Definition Deserialize (blob : geometry_t) : decoded Geometry :=
  dbind (read_geometry (List.length blob) None blob) (fun g rest =>
    match rest with
    | [] => Decoded g []
    | _ => DecodeError TrailingBytes
    end).

End GeometryFactory.

(* ================================================================== *)
(** * Bounding box                                                     *)
(* ================================================================== *)

Record BoundingBox : Type := mkBoundingBox {
  minx : double; miny : double; maxx : double; maxy : double
}.

Module Bounds.

(** Modelled from the spec: the bounding-box traversal is defined
    outside the verified files.  Spec 4.6: a pure recursive fold over the tree
    returning the running per-axis min/max; empty leaves contribute
    nothing; an all-empty tree yields a box explicitly marked
    empty/invalid rather than a zeroed box.  [None] is that mark. *)
Definition extend (box : option BoundingBox) (x y : double) : option BoundingBox :=
  match box with
  | None => Some (mkBoundingBox x y x y)
  | Some b =>
      Some (mkBoundingBox (Double.min (minx b) x) (Double.min (miny b) y)
                          (Double.max (maxx b) x) (Double.max (maxy b) y))
  end.

(** The fold over the vertices of one array; [fuel] is the number of
    vertices left. *)
Fixpoint extend_vertices (dim : nat) (fuel : nat) (data : list double)
    (box : option BoundingBox) : option BoundingBox :=
  match fuel with
  | O => box
  | S fuel' =>
      match data with
      | x :: y :: _ => extend_vertices dim fuel' (skipn dim data) (extend box x y)
      | _ => box
      end
  end.

Definition of_vertices (v : VertexArray) (box : option BoundingBox) : option BoundingBox :=
  extend_vertices (VertexArray.dimension (va_has_z v) (va_has_m v))
    (Z.to_nat (va_count v)) (va_data v) box.

Definition of_polygon (p : Polygon) (box : option BoundingBox) : option BoundingBox :=
  fold_left (fun b r => of_vertices r b) (polygon_rings p) box.

(** Modelled from the spec: the recursive fold of spec 4.6 over the
    seven kinds. *)
Fixpoint of_geometry (g : Geometry) (box : option BoundingBox) : option BoundingBox :=
  match g with
  | GeomPoint p => of_vertices (point_vertices p) box
  | GeomLineString l => of_vertices (line_vertices l) box
  | GeomPolygon p => of_polygon p box
  | GeomMultiPoint mp =>
      fold_left (fun b p => of_vertices (point_vertices p) b) (multipoint_points mp) box
  | GeomMultiLineString ml =>
      fold_left (fun b l => of_vertices (line_vertices l) b) (multilinestring_lines ml) box
  | GeomMultiPolygon mp =>
      fold_left (fun b p => of_polygon p b) (multipolygon_polygons mp) box
  | GeomCollection _ _ items =>
      fold_left (fun b item => of_geometry item b) items box
  end.

(** Modelled from the spec: the bounding box of a tree (spec 4.6);
    [None] when the tree has no vertex. *)
Definition BoundingBoxOf (g : Geometry) : option BoundingBox := of_geometry g None.

(** Modelled from the spec: [GeometryFactory::TryGetSerializedBoundingBox
    (blob, bbox)] is declared outside the verified files.  Spec 3: the
    box is derived, not persisted, and recomputed by traversal; the call
    reports whether there is a box. *)
Definition TryGetSerializedBoundingBox (blob : geometry_t) : option BoundingBox :=
  match GeometryFactory.Deserialize blob with
  | GeometryFactory.Decoded g _ => BoundingBoxOf g
  | GeometryFactory.DecodeError _ => None
  end.

End Bounds.

(* ================================================================== *)
(** * ST_TileEnvelope                                                  *)
(* ================================================================== *)

Module TileEnvelope.

(** Fresh arena memory: the double found at each slot of a new
    allocation.  Nothing is known about it. *)
Definition Arena := nat -> double.

(** [VertexArray::Create(allocator, count, has_z, has_m)]: an array of
    [count] vertices in fresh memory (spec 4.2: the array owns a
    contiguous packed buffer of doubles, laid out by its flags). *)
Definition Create (allocator : Arena) (count : Z) (has_z has_m : bool) : VertexArray :=
  mkVertexArray has_z has_m count
    (map allocator (seq 0 (Z.to_nat count * VertexArray.dimension has_z has_m))).

(** [Polygon(allocator, ring_count, ring_capacities, has_z, has_m)]:
    ring [i] holds [ring_capacities[i]] vertices (spec 4.3: a composite
    constructor pre-sizes its child storage, which is then filled by
    indexed assignment). *)
Definition Polygon_ (allocator : Arena) (ring_count : nat) (ring_capacities : list Z)
    (has_z has_m : bool) : Polygon :=
  mkPolygon has_z has_m
    (map (fun capacity => Create allocator capacity has_z has_m)
         (firstn ring_count ring_capacities)).

(** [ring.Set(i, x, y)]: vertex [i] becomes [(x, y)]; the other slots
    of the array keep what they held.  The declaration is in
    geometry.hpp, outside the verified files; the five calls of
    TileEnvelopeFunction build the five vertices of an XY ring, one
    vertex for each call. *)
Definition Set_ (i : nat) (x y : double) (ring : VertexArray) : VertexArray :=
  let d := VertexArray.dimension (va_has_z ring) (va_has_m ring) in
  mkVertexArray (va_has_z ring) (va_has_m ring) (va_count ring)
    (assign (i * d + 1) y (assign (i * d) x (va_data ring))).

(** The lambda of [TileEnvelopeFunction], applied to one row.  [shell]
    is a reference to ring 0 of [envelope_geom]; the writes through it
    are writes to the polygon. *)
Definition TileEnvelopeFunction (allocator : Arena) (x y z : Z) (bounds : geometry_t)
  : geometry_t :=
  (* BoundingBox bbox; if (TryGetSerializedBoundingBox(bounds.val, bbox)) { } *)
  let bbox := Bounds.TryGetSerializedBoundingBox bounds in
  let capacity := 5 in
  let envelope_geom := Polygon_ allocator 1 [capacity] false false in
  let shell := nth 0 (polygon_rings envelope_geom) (VertexArray.Empty false false) in
  let shell := Set_ 0 Double.zero Double.zero shell in
  let shell := Set_ 1 Double.zero Double.zero shell in
  let shell := Set_ 2 Double.zero Double.zero shell in
  let shell := Set_ 3 Double.zero Double.zero shell in
  let shell := Set_ 4 Double.zero Double.zero shell in
  let envelope_geom :=
    mkPolygon (polygon_has_z envelope_geom) (polygon_has_m envelope_geom)
      (assign 0 shell (polygon_rings envelope_geom)) in
  GeometryFactory.Serialize (GeomPolygon envelope_geom).

End TileEnvelope.

(* ================================================================== *)
(** * ST_Area_Spheroid: PolygonArea                                    *)
(* ================================================================== *)

Module Spheroid.

(** How a walk over vertex indices ends: with its result, or at the
    first [Get(i)] with [i >= Count()], a read outside the ring's
    buffer. *)
Inductive walk (A : Type) : Type :=
| Done (a : A)
| OutOfRange (coord_idx : Z) (count : Z)
| LoopBound.

Arguments Done {A} a.
Arguments OutOfRange {A} coord_idx count.
Arguments LoopBound {A}.

(** [ring.Get(i)]: the x and y of vertex [i], for [i < Count()]. *)
Definition Get (ring : VertexArray) (i : Z) : option (double * double) :=
  if (0 <=? i) && (i <? VertexArray.Count ring) then
    let d := VertexArray.dimension (va_has_z ring) (va_has_m ring) in
    Some (nth (Z.to_nat i * d) (va_data ring) Double.zero,
          nth (Z.to_nat i * d + 1) (va_data ring) Double.zero)
  else None.

(** [for (uint32_t coord_idx = 0; coord_idx < ring.Count() - 1; coord_idx++)
       { auto coord = ring.Get(coord_idx); comp.AddPoint(coord.x, coord.y); }]
    The result is the list of points added.  [fuel] counts the vertices
    that can still be read. *)
Fixpoint add_points (fuel : nat) (ring : VertexArray) (coord_idx : Z)
    (added : list (double * double)) : walk (list (double * double)) :=
  if coord_idx <? uint32 (VertexArray.Count ring - 1) then
    match Get ring coord_idx with
    | None => OutOfRange coord_idx (VertexArray.Count ring)
    | Some coord =>
        match fuel with
        | O => LoopBound
        | S fuel' => add_points fuel' ring (uint32 (coord_idx + 1)) (added ++ [coord])
        end
    end
  else Done added.

Definition ring_points (ring : VertexArray) : walk (list (double * double)) :=
  add_points (Z.to_nat (VertexArray.Count ring)) ring 0 [].

Section PolygonArea.

(** GeographicLib and the floating-point operations are outside the
    model: [Compute] is [comp.Compute(false, true, _perimeter, ring_area)]
    after the points were added, [fabs] is [std::abs], [fadd] and [fsub]
    are [+=] and [-=] on doubles. *)
Variable Compute : list (double * double) -> double.
Variable fabs : double -> double.
Variable fadd fsub : double -> double -> double.

Fixpoint PolygonArea_rings (ring_idx : Z) (rings : list VertexArray)
    (total_area : double) : walk double :=
  match rings with
  | [] => Done (fabs total_area)
  | ring :: rest =>
      match ring_points ring with
      | Done points =>
          let ring_area := Compute points in
          PolygonArea_rings (ring_idx + 1) rest
            (if ring_idx =? 0 then fadd total_area (fabs ring_area)
             else fsub total_area (fabs ring_area))
      | OutOfRange i n => OutOfRange i n
      | LoopBound => LoopBound
      end
  end.

Definition PolygonArea (poly : Polygon) : walk double :=
  PolygonArea_rings 0 (polygon_rings poly) Double.zero.

End PolygonArea.

End Spheroid.

(* ================================================================== *)
(** * Vocabulary of the statements                                     *)
(* ================================================================== *)

(** The nesting depth of a tree: 1 for anything but a collection. *)
Fixpoint depth (g : Geometry) : nat :=
  match g with
  | GeomCollection _ _ items => S (fold_right (fun item d => Nat.max (depth item) d) 0%nat items)
  | _ => 1%nat
  end.

(** The XY polygon with one ring of five vertices, all (0, 0). *)
Definition zero_envelope : Polygon :=
  mkPolygon false false
    [mkVertexArray false false 5 (repeat Double.zero 10)].

(** A tree with an empty ring, an empty point and an empty collection. *)
Definition sample_tree : Geometry :=
  GeomCollection true false
    [GeomPolygon (mkPolygon true false
       [mkVertexArray true false 4
          [0; 0; 0;
           4607182418800017408; 0; 0;
           4607182418800017408; 4607182418800017408; 13830554455654793216;
           0; 0; 0]%Z;
        VertexArray.Empty true false]);
     GeomPoint (Ctor.EmptyPoint true false);
     GeomMultiPoint (mkMultiPoint true false
       [mkPoint (mkVertexArray true false 1 [1; 2; 18446744073709551615]%Z)]);
     GeomCollection true false []].

(** [r] is what is left of [s] after a prefix was taken. *)
Definition suffix_of (r s : list ascii) : Prop := exists pre, s = (pre ++ r)%list.

Module ReaderLogic.

Import WKTReader.

(** The cursor is inside the input or at its end. *)
Definition in_bounds (r : reader) : Prop := (cursor r <= end_ r)%nat.

(** The reader only ever moved its cursor forward, inside the input. *)
Definition moved (r r' : reader) : Prop :=
  r' = set_cursor (cursor r') r
  /\ (cursor r <= cursor r')%nat /\ (cursor r' <= end_ r)%nat.

(** As [moved], except that a reader whose flags were not yet set may
    have set them. *)
Definition stepped (r r' : reader) : Prop :=
  input r' = input r
  /\ (cursor r <= cursor r')%nat /\ (cursor r' <= end_ r)%nat
  /\ (zm_set r = true ->
      zm_set r' = true /\ has_z r' = has_z r /\ has_m r' = has_m r).

(** The at most 32 bytes before position [pos]. *)
Definition left_context (bytes : list ascii) (pos : nat) : list ascii :=
  skipn (pos - 32) (firstn pos bytes).

(** The byte at position [pos], if there is one. *)
Definition at_cursor (bytes : list ascii) (pos : nat) : list ascii :=
  firstn 1 (skipn pos bytes).

(** The text that follows the message of an error raised at [pos]. *)
Definition error_context (bytes : list ascii) (pos : nat) : string :=
  ("at position " ++ to_string pos ++ " near: '"
   ++ (if (32 <? pos)%nat then "..." else "")
   ++ string_of_list_ascii (left_context bytes pos ++ at_cursor bytes pos)
   ++ "'|<---")%string.

(** An error text of the form
    "<message> at position <offset> near: '<context>'|<---"
    for an offset inside the input. *)
Definition positioned_error (bytes : list ascii) (msg : string) : Prop :=
  exists (message : string) (pos : nat),
    (pos <= List.length bytes)%nat
    /\ msg = (message ++ " " ++ error_context bytes pos)%string.

(** What is known after an operation that started in [r0]:
    [Q] of an [Ok] result, a positioned error for an exception, and no
    [OutOfFuel] when [F] holds. *)
Definition post {A : Type} (bytes : list ascii) (F : Prop)
    (res : result (A * reader)) (Q : A -> reader -> Prop) : Prop :=
  match res with
  | Ok (a, r') => Q a r'
  | InvalidInputException msg => positioned_error bytes msg
  | OutOfBoundsRead pos => pos = List.length bytes
  | OutOfFuel => ~ F
  end.

(** The readers agree on everything the grammar can observe: the bytes
    from the cursor on and the dimension flags. *)
Definition same_view (r1 r2 : reader) : Prop :=
  remaining r1 = remaining r2
  /\ has_z r1 = has_z r2 /\ has_m r1 = has_m r2 /\ zm_set r1 = zm_set r2.

(** Whatever [m1] returns, [m2] returns from a reader with the same
    view, leaving readers with the same view. *)
Definition follows {A : Type} (m1 m2 : M A) : Prop :=
  forall r1 r2 a r1',
    same_view r1 r2 ->
    m1 r1 = Ok (a, r1') ->
    exists r2', m2 r2 = Ok (a, r2') /\ same_view r1' r2'.

(** How a keyword compares with the bytes at the cursor: all of it
    matched (with the bytes that follow), a mismatch after [n] matching
    bytes, or the input ended after [n] matching bytes. *)
Inductive ci_result : Type :=
| CiMatched (rest : list ascii)
| CiMismatch (n : nat)
| CiEnd (n : nat).

Fixpoint ci_prefix (str s : list ascii) : ci_result :=
  match str with
  | [] => CiMatched s
  | k :: str' =>
      match s with
      | [] => CiEnd 0
      | x :: rest =>
          if Ascii.eqb (Ctype.tolower k) (Ctype.tolower x) then
            match ci_prefix str' rest with
            | CiMatched rest' => CiMatched rest'
            | CiMismatch n => CiMismatch (S n)
            | CiEnd n => CiEnd (S n)
            end
          else CiMismatch 0
      end
  end.

(** The bytes after the white space at the front of [s]. *)
Definition drop_space (s : list ascii) : list ascii := skipn (space_run s) s.

(** The reader is at the bytes [s], with its flags fixed to [z], [m]. *)
Definition at_ (s : list ascii) (z m : bool) (r : reader) : Prop :=
  remaining r = s /\ has_z r = z /\ has_m r = m /\ zm_set r = true.

(** [m] returns [a] from [r] and leaves a reader that satisfies [P]. *)
Definition runs {A : Type} (m : M A) (r : reader) (a : A) (P : reader -> Prop) : Prop :=
  exists r', m r = Ok (a, r') /\ P r'.

(** Parsing [wkt] as a WKT body, the Geometry production of the
    grammar, from the start of the input. *)
Definition ParseBody (wkt : string) : result Geometry :=
  let bytes := list_ascii_of_string wkt in
  match ParseGeometry (S (List.length bytes)) (mkReader bytes 0 false false false) with
  | Ok (geom, _) => Ok geom
  | InvalidInputException msg => InvalidInputException msg
  | OutOfBoundsRead pos => OutOfBoundsRead pos
  | OutOfFuel => OutOfFuel
  end.

(** The lower-case first letters of the seven keywords. *)
Definition keyword_initial (c : ascii) : bool :=
  let l := Ctype.tolower c in
  Ascii.eqb l "p" || Ascii.eqb l "l" || Ascii.eqb l "m" || Ascii.eqb l "g".

(** No byte of [s] is a semicolon. *)
Definition no_semicolon (s : list ascii) : bool :=
  forallb (fun c => negb (Ascii.eqb c ";")) s.

(** ** Texts of multipoints *)

(** A number token: a text that [from_chars] reads to its end. *)
Definition is_number_token (t : list ascii) : bool :=
  match fast_float.from_chars t with
  | Some (_, []) => true
  | _ => false
  end.

(** The double a number token denotes. *)
Definition token_value (t : list ascii) : double :=
  match fast_float.from_chars t with
  | Some (d, _) => d
  | None => Double.zero
  end.

(** The bytes that end a number in a vertex list. *)
Definition is_delimiter (d : ascii) : bool :=
  Ascii.eqb d " " || Ascii.eqb d "," || Ascii.eqb d ")".

(** A vertex is written as its coordinates, one token each. *)
Definition vertex_tokens := list (list ascii).

Definition is_vertex (z m : bool) (v : vertex_tokens) : bool :=
  (List.length v =? VertexArray.dimension z m)%nat && forallb is_number_token v.

Fixpoint join (sep : list ascii) (parts : list (list ascii)) : list ascii :=
  match parts with
  | [] => []
  | [p] => p
  | p :: rest => p ++ sep ++ join sep rest
  end.

Definition vertex_text (v : vertex_tokens) : list ascii := join [" "%char] v.

(** One point of a multipoint, with or without its parentheses. *)
Definition point_text (pv : bool * vertex_tokens) : list ascii :=
  if fst pv then "("%char :: vertex_text (snd pv) ++ [")"%char]
  else vertex_text (snd pv).

Definition zm_text (z m : bool) : list ascii :=
  match z, m with
  | false, false => []
  | true, false => list_ascii_of_string " Z"
  | false, true => list_ascii_of_string " M"
  | true, true => list_ascii_of_string " ZM"
  end.

(** "MULTIPOINT", the dimension suffix and the points, each with the
    parentheses its flag asks for. *)
Definition multipoint_text (z m : bool) (points : list (bool * vertex_tokens)) : string :=
  string_of_list_ascii
    (list_ascii_of_string "MULTIPOINT" ++ zm_text z m
     ++ "("%char :: join [","%char; " "%char] (map point_text points) ++ [")"%char]).

(** The points after the first, each after its comma. *)
Fixpoint tail_text (points : list (bool * vertex_tokens)) : list ascii :=
  match points with
  | [] => []
  | pv :: rest => ","%char :: " "%char :: point_text pv ++ tail_text rest
  end.

(** The tree of a multipoint with the given vertices. *)
Definition multipoint_of (z m : bool) (vs : list vertex_tokens) : Geometry :=
  GeomMultiPoint
    (mkMultiPoint z m
       (map (fun v => mkPoint (mkVertexArray z m 1 (map token_value v))) vs)).

(** ** Texts of polygons *)

(** The elements of a comma-list after the first, each after its
    comma. *)
Definition comma_tail {X : Type} (text : X -> list ascii) (xs : list X) : list ascii :=
  flat_map (fun x => ","%char :: " "%char :: text x) xs.

(** A ring is written as its vertices in parentheses; a ring without
    vertices is written EMPTY. *)
Definition ring_text (vs : list vertex_tokens) : list ascii :=
  match vs with
  | [] => list_ascii_of_string "EMPTY"
  | _ :: _ => "("%char :: join [","%char; " "%char] (map vertex_text vs) ++ [")"%char]
  end.

(** "POLYGON", the dimension suffix and the rings. *)
Definition polygon_text (z m : bool) (rings : list (list vertex_tokens)) : string :=
  string_of_list_ascii
    (list_ascii_of_string "POLYGON" ++ zm_text z m
     ++ "("%char :: join [","%char; " "%char] (map ring_text rings) ++ [")"%char]).

(** The vertices of a ring are of the dimension [z], [m], and their
    number fits [uint32_t]. *)
Definition is_ring (z m : bool) (vs : list vertex_tokens) : bool :=
  forallb (is_vertex z m) vs && (Z.of_nat (List.length vs) <? 2 ^ 32)%Z.

(** The vertex array that holds the vertices [vs] in their order. *)
Definition ring_of (z m : bool) (vs : list vertex_tokens) : VertexArray :=
  mkVertexArray z m (Z.of_nat (List.length vs)) (flat_map (map token_value) vs).



(** The ring written (0 0, 1 1): two vertices, the last unlike the
    first. *)
Definition two_vertex_ring : list vertex_tokens :=
  [[["0"%char]; ["0"%char]]; [["1"%char]; ["1"%char]]].

(** The shape shared by the list productions of the grammar:
    [EMPTY], or a parenthesized comma-list whose first element is read
    by [first] and every further one by [body]. *)
Definition list_production {S B : Type} (first : M S) (body : S -> M S)
    (empty : bool -> bool -> B) (filled : S -> bool -> bool -> B) (fuel : nat) : M B :=
  (is_empty <- MatchCI "EMPTY" ;;
   if is_empty then construct empty
   else
     Expect "(" ;;;
     s <- first ;;
     s' <- comma_loop fuel body s ;;
     Expect ")" ;;;
     construct (filled s'))%reader.

(** The Z/M suffix a shape keyword declares: what the two [Match]
    calls of [CheckZM] find at the cursor. *)
Definition declared_zm : M (bool * bool) :=
  (z <- Match "Z" ;; m <- Match "M" ;; ret (z, m))%reader.

(** The reader with its dimension fixed to [z], [m]. *)
Definition fix_zm (z m : bool) (r : reader) : reader :=
  mkReader (input r) (cursor r) z m true.

(** What the reader guarantees of a tree built under the flags [z], [m]. *)
Definition tree_ok (z m : bool) (g : Geometry) : Prop :=
  has_zm z m g = true /\ Forall VertexArray.well_formed (rings_of g).

(** What [ParseGeometry] guarantees when it returns [g]. *)
Definition geometry_post (r : reader) (g : Geometry) (r' : reader) : Prop :=
  stepped r r' /\ zm_set r' = true /\ tree_ok (has_z r') (has_m r') g.

End ReaderLogic.

(* ================================================================== *)
(** * ST_Area_Spheroid: the other area functions                       *)
(* ================================================================== *)

Module Geodesic.

Import Spheroid.

(** [idx_t] arithmetic: unsigned, 64 bits. *)
Definition idx_t (n : Z) : Z := n mod 2 ^ 64.

(** [data[i]] on the buffer of a flat vector; [None] when [i] is not an
    index of the buffer. *)
Definition at_index {A : Type} (data : list A) (i : Z) : option A :=
  if 0 <=? i then nth_error data (Z.to_nat i) else None.

(** [list_entry_t]: where a list starts in its child vector, and how
    many entries it has. *)
Record list_entry_t : Type := mk_list_entry {
  entry_offset : Z;
  entry_length : Z
}.

(** [for (idx_t coord_idx = ring_offset;
          coord_idx < ring_offset + ring_length - 1; coord_idx++)
       polygon_area.AddPoint(x_data[coord_idx], y_data[coord_idx]);]
    from [coord_idx] on; [bound] is [ring_offset + ring_length - 1].
    The result is the list of points added; a read outside [x_data] or
    [y_data] ends the walk.  [fuel] counts the coordinates that can
    still be read. *)
Fixpoint add_coords (fuel : nat) (x_data y_data : list double) (bound coord_idx : Z)
    (added : list (double * double)) : walk (list (double * double)) :=
  if coord_idx <? bound then
    match at_index x_data coord_idx, at_index y_data coord_idx with
    | Some x, Some y =>
        match fuel with
        | O => LoopBound
        | S fuel' =>
            add_coords fuel' x_data y_data bound (idx_t (coord_idx + 1)) (added ++ [(x, y)])
        end
    | _, _ => OutOfRange coord_idx (Z.of_nat (List.length x_data))
    end
  else Done added.

(** The points of one ring of a POLYGON_2D. *)
Definition ring_coords (x_data y_data : list double) (ring : list_entry_t)
  : walk (list (double * double)) :=
  let ring_offset := entry_offset ring in
  let ring_length := entry_length ring in
  add_coords (S (List.length x_data)) x_data y_data
    (idx_t (ring_offset + ring_length - 1)) ring_offset [].

Section Area.

(** GeographicLib and the floating-point operations are outside the
    model, as for [Spheroid.PolygonArea]. *)
Variable Compute : list (double * double) -> double.
Variable fabs : double -> double.
Variable fadd fsub : double -> double -> double.

(** The ring loop of the lambda of [GeodesicPolygon2DFunction], from
    [ring_idx] on; [bound] is [polygon_offset + polygon_length]. *)
Fixpoint polygon_2d_rings (fuel : nat) (ring_entries : list list_entry_t)
    (x_data y_data : list double) (bound ring_idx : Z) (first : bool) (area : double)
  : walk double :=
  if ring_idx <? bound then
    match at_index ring_entries ring_idx with
    | None => OutOfRange ring_idx (Z.of_nat (List.length ring_entries))
    | Some ring =>
        match ring_coords x_data y_data ring with
        | Done points =>
            let ring_area := Compute points in
            match fuel with
            | O => LoopBound
            | S fuel' =>
                polygon_2d_rings fuel' ring_entries x_data y_data bound
                  (idx_t (ring_idx + 1)) false
                  (if first then fadd area (fabs ring_area)
                   else fsub area (fabs ring_area))
            end
        | OutOfRange i n => OutOfRange i n
        | LoopBound => LoopBound
        end
    end
  else Done (fabs area).

(** The lambda of [GeodesicPolygon2DFunction], applied to one polygon
    of the input vector. *)
Definition GeodesicPolygon2DFunction (ring_entries : list list_entry_t)
    (x_data y_data : list double) (polygon : list_entry_t) : walk double :=
  let polygon_offset := entry_offset polygon in
  let polygon_length := entry_length polygon in
  polygon_2d_rings (S (List.length ring_entries)) ring_entries x_data y_data
    (idx_t (polygon_offset + polygon_length)) polygon_offset true Double.zero.

(** [for (auto &poly : mpoly) total_area += PolygonArea(poly, comp);] *)
Fixpoint MultiPolygonArea (polygons : list Polygon) (total_area : double) : walk double :=
  match polygons with
  | [] => Done total_area
  | poly :: rest =>
      match PolygonArea Compute fabs fadd fsub poly with
      | Done area => MultiPolygonArea rest (fadd total_area area)
      | OutOfRange i n => OutOfRange i n
      | LoopBound => LoopBound
      end
  end.

(** [GeometryArea]: polygons, multipolygons and collections have an
    area, every other kind has area 0.0. *)
Fixpoint GeometryArea (geom : Geometry) : walk double :=
  match geom with
  | GeomPolygon poly => PolygonArea Compute fabs fadd fsub poly
  | GeomMultiPolygon mpoly => MultiPolygonArea (multipolygon_polygons mpoly) Double.zero
  | GeomCollection _ _ items =>
      (fix collection_area (items : list Geometry) (total_area : double) : walk double :=
         match items with
         | [] => Done total_area
         | item :: rest =>
             match GeometryArea item with
             | Done area => collection_area rest (fadd total_area area)
             | OutOfRange i n => OutOfRange i n
             | LoopBound => LoopBound
             end
         end) items Double.zero
  | _ => Done Double.zero
  end.

End Area.

End Geodesic.

(** A ring counts its vertices in [uint32_t]. *)
Definition counted (ring : VertexArray) : Prop := 0 <= va_count ring < 2 ^ 32.

(** A ring with at least one vertex. *)
Definition inhabited (ring : VertexArray) : Prop := 1 <= va_count ring.

(** A ring of a POLYGON_2D that has a coordinate and lies inside the
    two coordinate buffers. *)
Definition ring_inside (x_data y_data : list double) (ring : Geodesic.list_entry_t) : Prop :=
  0 <= Geodesic.entry_offset ring
  /\ 1 <= Geodesic.entry_length ring
  /\ Geodesic.entry_offset ring + Geodesic.entry_length ring <= Z.of_nat (List.length x_data)
  /\ Geodesic.entry_offset ring + Geodesic.entry_length ring <= Z.of_nat (List.length y_data).

(** The coordinates of a ring but the last. *)
Definition open_ring (x_data y_data : list double) (ring : Geodesic.list_entry_t)
  : list (double * double) :=
  let offset := Z.to_nat (Geodesic.entry_offset ring) in
  let count := (Z.to_nat (Geodesic.entry_length ring) - 1)%nat in
  combine (firstn count (skipn offset x_data)) (firstn count (skipn offset y_data)).

(** The area of the outer ring less the areas of the holes. *)
Definition outer_less_holes (fabs : double -> double) (fadd fsub : double -> double -> double)
    (ring_areas : list double) : double :=
  match ring_areas with
  | [] => Double.zero
  | outer :: holes =>
      fold_left (fun area hole => fsub area (fabs hole)) holes
        (fadd Double.zero (fabs outer))
  end.

(* ================================================================== *)
(** * Vocabulary: geometries as they are written in WKT                *)
(* ================================================================== *)

Module Written.

Import WKTReader ReaderLogic.

(** A list production as it is written: EMPTY, or the elements in
    parentheses, separated by a comma and a space. *)
Definition list_text {X : Type} (text : X -> list ascii) (xs : list X) : list ascii :=
  match xs with
  | [] => list_ascii_of_string "EMPTY"
  | _ :: _ => "("%char :: join [","%char; " "%char] (map text xs) ++ [")"%char]
  end.

(** A vertex in parentheses. *)
Definition parenthesized (v : vertex_tokens) : list ascii :=
  "("%char :: vertex_text v ++ [")"%char].

(** A geometry as a text gives it: the vertices are the number tokens
    of the text.  A point has no vertex or one; an empty list is
    written EMPTY. *)
#[warnings="-register-all"]
Inductive written : Type :=
| WPoint (v : option vertex_tokens)
| WLineString (vs : list vertex_tokens)
| WPolygon (rings : list (list vertex_tokens))
| WMultiPoint (points : list vertex_tokens)
| WMultiLineString (lines : list (list vertex_tokens))
| WMultiPolygon (polygons : list (list (list vertex_tokens)))
| WCollection (items : list written).

Definition keyword (w : written) : string :=
  match w with
  | WPoint _ => "POINT"
  | WLineString _ => "LINESTRING"
  | WPolygon _ => "POLYGON"
  | WMultiPoint _ => "MULTIPOINT"
  | WMultiLineString _ => "MULTILINESTRING"
  | WMultiPolygon _ => "MULTIPOLYGON"
  | WCollection _ => "GEOMETRYCOLLECTION"
  end.

(** The text of a geometry: its keyword, the dimension suffix, a space
    and the body; every geometry inside a collection repeats the
    suffix. *)
Fixpoint render (z m : bool) (w : written) : list ascii :=
  list_ascii_of_string (keyword w) ++ zm_text z m ++ " "%char ::
  match w with
  | WPoint None => list_ascii_of_string "EMPTY"
  | WPoint (Some v) => parenthesized v
  | WLineString vs => list_text vertex_text vs
  | WPolygon rings => list_text (list_text vertex_text) rings
  | WMultiPoint points => list_text parenthesized points
  | WMultiLineString lines => list_text (list_text vertex_text) lines
  | WMultiPolygon polygons => list_text (list_text (list_text vertex_text)) polygons
  | WCollection items => list_text (render z m) items
  end.

(** Every vertex has the coordinates of the dimension [z], [m] and
    every vertex list has fewer than 2^32 vertices. *)
Fixpoint well_written (z m : bool) (w : written) : bool :=
  match w with
  | WPoint None => true
  | WPoint (Some v) => is_vertex z m v
  | WLineString vs => is_ring z m vs
  | WPolygon rings => forallb (is_ring z m) rings
  | WMultiPoint points => forallb (is_vertex z m) points
  | WMultiLineString lines => forallb (is_ring z m) lines
  | WMultiPolygon polygons => forallb (forallb (is_ring z m)) polygons
  | WCollection items => forallb (well_written z m) items
  end.

(** The vertex array of one vertex. *)
Definition vertex_of (z m : bool) (v : vertex_tokens) : VertexArray :=
  mkVertexArray z m 1 (map token_value v).

Definition polygon_tree (z m : bool) (rings : list (list vertex_tokens)) : Polygon :=
  mkPolygon z m (map (ring_of z m) rings).

(** The tree that holds what is written, in the order it is written. *)
Fixpoint tree_of (z m : bool) (w : written) : Geometry :=
  match w with
  | WPoint None => GeomPoint (Ctor.EmptyPoint z m)
  | WPoint (Some v) => GeomPoint (mkPoint (vertex_of z m v))
  | WLineString vs => GeomLineString (mkLineString (ring_of z m vs))
  | WPolygon rings => GeomPolygon (polygon_tree z m rings)
  | WMultiPoint points =>
      GeomMultiPoint (mkMultiPoint z m (map (fun v => mkPoint (vertex_of z m v)) points))
  | WMultiLineString lines =>
      GeomMultiLineString
        (mkMultiLineString z m (map (fun vs => mkLineString (ring_of z m vs)) lines))
  | WMultiPolygon polygons =>
      GeomMultiPolygon (mkMultiPolygon z m (map (polygon_tree z m) polygons))
  | WCollection items => GeomCollection z m (map (tree_of z m) items)
  end.

(** The reader has not fixed its dimension yet, or has fixed it to
    [z], [m]. *)
Definition ready (z m : bool) (r : reader) : Prop :=
  zm_set r = false \/ (has_z r = z /\ has_m r = m /\ zm_set r = true).

(** [m] throws from [r], with a message that starts with [text] and
    ends with the context of the error. *)
Definition throws {A : Type} (m : M A) (r : reader) (text : string) : Prop :=
  exists context, m r = InvalidInputException (text ++ context)%string.

(** A point written with the coordinates [v], whatever their number. *)
Definition point_with (z m : bool) (v : vertex_tokens) : string :=
  string_of_list_ascii
    (list_ascii_of_string "POINT" ++ zm_text z m ++ " "%char :: parenthesized v).

End Written.

(* ================================================================== *)
(** * The GDAL copy function (gdal/functions/st_write.cpp)             *)
(* ================================================================== *)

Module Gdal.

Local Open Scope string_scope.

(** ** DuckDB and OGR types *)

(** [LogicalTypeId], the ids the copy function names; every other id
    is [OTHER].  LIST is the constructor [ListType] of [LogicalType]. *)
Inductive LogicalTypeId : Type :=
| BOOLEAN | TINYINT | SMALLINT | INTEGER | BIGINT | FLOAT | DOUBLE | VARCHAR | BLOB
| DATE | TIME | TIMESTAMP | TIMESTAMP_NS | TIMESTAMP_MS | TIMESTAMP_SEC | TIMESTAMP_TZ
| OTHER (name : string).

(** A [LogicalType]: an id with its alias, or LIST with its child type
    ([ListType::GetChildType]). *)
Inductive LogicalType : Type :=
| Plain (id : LogicalTypeId) (alias : string)
| ListType (child_type : LogicalType) (alias : string).

Definition LogicalTypeId_eqb (a b : LogicalTypeId) : bool :=
  match a, b with
  | BOOLEAN, BOOLEAN | TINYINT, TINYINT | SMALLINT, SMALLINT | INTEGER, INTEGER
  | BIGINT, BIGINT | FLOAT, FLOAT | DOUBLE, DOUBLE | VARCHAR, VARCHAR | BLOB, BLOB
  | DATE, DATE | TIME, TIME | TIMESTAMP, TIMESTAMP | TIMESTAMP_NS, TIMESTAMP_NS
  | TIMESTAMP_MS, TIMESTAMP_MS | TIMESTAMP_SEC, TIMESTAMP_SEC
  | TIMESTAMP_TZ, TIMESTAMP_TZ => true
  | OTHER x, OTHER y => String.eqb x y
  | _, _ => false
  end.

(** [operator==] of two types. *)
Fixpoint LogicalType_eqb (a b : LogicalType) : bool :=
  match a, b with
  | Plain i x, Plain j y => LogicalTypeId_eqb i j && String.eqb x y
  | ListType c x, ListType d y => LogicalType_eqb c d && String.eqb x y
  | _, _ => false
  end.

(** [type.id() == LogicalTypeId::VARCHAR]. *)
Definition is_varchar (type : LogicalType) : bool :=
  match type with
  | Plain VARCHAR _ => true
  | _ => false
  end.

Inductive OGRFieldType : Type :=
| OFTInteger | OFTIntegerList | OFTReal | OFTRealList | OFTString | OFTStringList
| OFTBinary | OFTDate | OFTTime | OFTDateTime | OFTInteger64 | OFTInteger64List.

Inductive OGRFieldSubType : Type :=
| OFSTNone | OFSTBoolean | OFSTInt16 | OFSTFloat32.

(** [OGRFieldDefn(name, type)]; the subtype is OFSTNone until
    [SetSubType]. *)
Record OGRFieldDefn : Type := mkFieldDefn {
  field_name : string;
  field_type : OGRFieldType;
  field_subtype : OGRFieldSubType
}.

Definition NewFieldDefn (name : string) (type : OGRFieldType) : OGRFieldDefn :=
  mkFieldDefn name type OFSTNone.

Definition SetSubType (subtype : OGRFieldSubType) (field : OGRFieldDefn) : OGRFieldDefn :=
  mkFieldDefn (field_name field) (field_type field) subtype.

Inductive OGRwkbGeometryType : Type :=
| wkbUnknown | wkbPoint | wkbLineString | wkbPolygon | wkbMultiPoint
| wkbMultiLineString | wkbMultiPolygon | wkbGeometryCollection
| wkbOther (code : Z).

Definition OGRwkbGeometryType_eqb (a b : OGRwkbGeometryType) : bool :=
  match a, b with
  | wkbUnknown, wkbUnknown | wkbPoint, wkbPoint | wkbLineString, wkbLineString
  | wkbPolygon, wkbPolygon | wkbMultiPoint, wkbMultiPoint
  | wkbMultiLineString, wkbMultiLineString | wkbMultiPolygon, wkbMultiPolygon
  | wkbGeometryCollection, wkbGeometryCollection => true
  | wkbOther x, wkbOther y => Z.eqb x y
  | _, _ => false
  end.

(** How a function of the copy ends: with its result, with one of the
    exceptions it throws, or at a read outside a vector ([front()] of an
    empty vector, an index past the end). *)
Inductive outcome (A : Type) : Type :=
| Returned (a : A)
| BinderException (msg : string)
| IOException (msg : string)
| NotImplementedException (msg : string)
| InvalidInputException (msg : string)
| OutOfRangeRead.

Arguments Returned {A} a.
Arguments BinderException {A} msg.
Arguments IOException {A} msg.
Arguments NotImplementedException {A} msg.
Arguments InvalidInputException {A} msg.
Arguments OutOfRangeRead {A}.

Definition and_then {A B : Type} (o : outcome A) (k : A -> outcome B) : outcome B :=
  match o with
  | Returned a => k a
  | BinderException msg => BinderException msg
  | IOException msg => IOException msg
  | NotImplementedException msg => NotImplementedException msg
  | InvalidInputException msg => InvalidInputException msg
  | OutOfRangeRead => OutOfRangeRead
  end.

(** ** Strings *)

(** [std::toupper] in the C locale. *)
Definition toupper (c : ascii) : ascii :=
  if Ctype.islower c then ascii_of_nat (nat_of_ascii c - 32) else c.

Fixpoint map_string (f : ascii -> ascii) (s : string) : string :=
  match s with
  | EmptyString => EmptyString
  | String c s' => String (f c) (map_string f s')
  end.

(** [StringUtil::Upper]. *)
Definition Upper (s : string) : string := map_string toupper s.

(** [StringUtil::CIEquals]: equal up to the case of ASCII letters. *)
Definition CIEquals (a b : string) : bool :=
  String.eqb (map_string Ctype.tolower a) (map_string Ctype.tolower b).

Definition empty (s : string) : bool :=
  match s with
  | EmptyString => true
  | String _ _ => false
  end.

(** ** Bind *)

Record BindData : Type := mkBindData {
  file_path : string;
  field_sql_types : list LogicalType;
  field_names : list string;
  driver_name : string;
  layer_name : string;
  dataset_creation_options : list string;
  layer_creation_options : list string;
  target_srs : string;
  geometry_type : OGRwkbGeometryType
}.

(** [BindData(file_path, field_sql_types, field_names)]. *)
Definition NewBindData (path : string) (sql_types : list LogicalType) (names : list string)
  : BindData :=
  mkBindData path sql_types names "" "" [] [] "" wkbUnknown.

Definition set_driver_name (v : string) (b : BindData) : BindData :=
  mkBindData (file_path b) (field_sql_types b) (field_names b) v (layer_name b)
    (dataset_creation_options b) (layer_creation_options b) (target_srs b) (geometry_type b).

Definition set_layer_name (v : string) (b : BindData) : BindData :=
  mkBindData (file_path b) (field_sql_types b) (field_names b) (driver_name b) v
    (dataset_creation_options b) (layer_creation_options b) (target_srs b) (geometry_type b).

Definition set_dataset_creation_options (v : list string) (b : BindData) : BindData :=
  mkBindData (file_path b) (field_sql_types b) (field_names b) (driver_name b) (layer_name b)
    v (layer_creation_options b) (target_srs b) (geometry_type b).

Definition set_layer_creation_options (v : list string) (b : BindData) : BindData :=
  mkBindData (file_path b) (field_sql_types b) (field_names b) (driver_name b) (layer_name b)
    (dataset_creation_options b) v (target_srs b) (geometry_type b).

Definition set_target_srs (v : string) (b : BindData) : BindData :=
  mkBindData (file_path b) (field_sql_types b) (field_names b) (driver_name b) (layer_name b)
    (dataset_creation_options b) (layer_creation_options b) v (geometry_type b).

Definition set_geometry_type (v : OGRwkbGeometryType) (b : BindData) : BindData :=
  mkBindData (file_path b) (field_sql_types b) (field_names b) (driver_name b) (layer_name b)
    (dataset_creation_options b) (layer_creation_options b) (target_srs b) v.

(** The chain of [StringUtil::CIEquals] tests of GEOMETRY_TYPE. *)
Definition geometry_type_named (type : string) : option OGRwkbGeometryType :=
  if CIEquals type "POINT" then Some wkbPoint
  else if CIEquals type "LINESTRING" then Some wkbLineString
  else if CIEquals type "POLYGON" then Some wkbPolygon
  else if CIEquals type "MULTIPOINT" then Some wkbMultiPoint
  else if CIEquals type "MULTILINESTRING" then Some wkbMultiLineString
  else if CIEquals type "MULTIPOLYGON" then Some wkbMultiPolygon
  else if CIEquals type "GEOMETRYCOLLECTION" then Some wkbGeometryCollection
  else None.

Definition unknown_geometry_type (type : string) : string :=
  "Unknown geometry type '" ++ type
  ++ "', expected one of 'POINT', 'LINESTRING', 'POLYGON', 'MULTIPOINT', "
  ++ "'MULTILINESTRING', 'MULTIPOLYGON', 'GEOMETRYCOLLECTION'".

(** ** Features *)

(** What a call of [SetField] or [SetFieldNull] stores in a field. *)
Inductive OGRField (real32 : Type) : Type :=
| FieldNull
| FieldInteger (value : Z)
| FieldInteger64 (value : Z)
| FieldDouble (value : double)
| FieldBinary (size : Z) (data : string)
| FieldDateTime (year month day hour minute : Z) (second : real32) (tz : Z)
| FieldString (value : string).

Arguments FieldNull {real32}.
Arguments FieldInteger {real32} value.
Arguments FieldInteger64 {real32} value.
Arguments FieldDouble {real32} value.
Arguments FieldBinary {real32} size data.
Arguments FieldDateTime {real32} year month day hour minute second tz.
Arguments FieldString {real32} value.

(** A feature: its geometry and the fields that were set, as pairs of
    the field index and the value. *)
Record OGRFeature (OGRGeometry real32 : Type) : Type := mkFeature {
  feature_geometry : option OGRGeometry;
  feature_fields : list (Z * OGRField real32)
}.

Arguments mkFeature {OGRGeometry real32} feature_geometry feature_fields.
Arguments feature_geometry {OGRGeometry real32} o.
Arguments feature_fields {OGRGeometry real32} o.

(** ** What the copy function calls *)

(** DuckDB and the rest of the extension are outside the model.  Of a
    [Value] the functions use its type, whether it is NULL and its
    payload ([GetString] for [GetValue<string>()] and for the bytes of a
    [string_t], [GetSize] for their number); [real32]
    is [float], [GetFloat] the value of [GetValue<float>()] as the
    double that [SetField(int, double)] receives, [to_float] is
    [static_cast<float>] of a double.  [date_t], [dtime_t] and
    [timestamp_t] are their integer; the calendar belongs to DuckDB.
    [Split] is [StringUtil::Split(s, ' ')], [Replace_spaces] is
    [StringUtil::Replace(s, " ", "")], [GetPrefix] belongs to
    [GDALClientContextState], [WKB_BLOB], [POINT_2D] and [GEOMETRY] are
    the types of [core::GeoTypes], [WKBWriter_Write] is
    [core::WKBWriter::Write]. *)
Class DuckDB : Type := {
  Value : Type;
  value_type : Value -> LogicalType;
  IsNull : Value -> bool;
  GetString : Value -> string;
  GetSize : Value -> Z;
  GetChildren : Value -> list Value;
  GetBool : Value -> bool;
  GetInt8 : Value -> Z;
  GetInt16 : Value -> Z;
  GetInt32 : Value -> Z;
  GetInt64 : Value -> Z;
  real32 : Type;
  GetFloat : Value -> double;
  to_float : double -> real32;
  GetDouble : Value -> double;
  GetDate : Value -> Z;
  GetTime : Value -> Z;
  GetTimestamp : Value -> Z;
  ExtractYear : Z -> Z;
  ExtractMonth : Z -> Z;
  ExtractDay : Z -> Z;
  Timestamp_GetDate : Z -> Z;
  Timestamp_GetTime : Z -> Z;
  FromEpochNanoSeconds : Z -> Z;
  FromEpochMs : Z -> Z;
  FromEpochSeconds : Z -> Z;
  Timestamp_ToString : Z -> string;
  ToString : LogicalType -> string;
  Split : string -> list string;
  Replace_spaces : string -> string;
  ExtractBaseName : string -> string;
  GetPrefix : string -> string;
  WKB_BLOB : LogicalType;
  POINT_2D : LogicalType;
  GEOMETRY : LogicalType;
  WKBWriter_Write : string -> string
}.

(** Of GDAL the functions use the driver manager, the metadata of a
    driver, and whether a call succeeded (a non-null pointer,
    OGRERR_NONE).  [CreateField layer field] is
    [layer->CreateField(field) == OGRERR_NONE] for a layer that has the
    fields [layer] already. *)
Class OGR {duckdb : DuckDB} : Type := {
  Driver : Type;
  GetDriverByName : string -> option Driver;
  GetExtension : Driver -> option string;
  GetExtensions : Driver -> option string;
  Dataset : Type;
  Create : Driver -> string -> list string -> option Dataset;
  SpatialReference : Type;
  SetFromUserInput : string -> SpatialReference;
  CreateLayer :
    Dataset -> string -> option SpatialReference -> OGRwkbGeometryType -> list string -> bool;
  CreateField : list OGRFieldDefn -> OGRFieldDefn -> bool;
  OGRGeometry : Type;
  createFromWkb : string -> option OGRGeometry;
  OGRPoint : double -> double -> OGRGeometry;
  getGeometryType : OGRGeometry -> OGRwkbGeometryType;
  OGRGeometryTypeToName : OGRwkbGeometryType -> string;
  SetGeometry : OGRGeometry -> bool;
  CreateFeature : OGRFeature OGRGeometry real32 -> bool
}.

Section Copy.

Context {duckdb : DuckDB} {ogr : OGR}.

(** [for (auto &s : set) { if (s.type().id() != VARCHAR) throw ...;
       options.AddString(s.GetValue<string>().c_str()); }] *)
Fixpoint add_strings (msg : string) (set : list Value) (options : list string)
  : outcome (list string) :=
  match set with
  | [] => Returned options
  | s :: rest =>
      if is_varchar (value_type s)
      then add_strings msg rest (options ++ [GetString s])
      else BinderException msg
  end.

(** [option.second.front()], then the VARCHAR test. *)
Definition front_string (msg : string) (set : list Value) : outcome string :=
  match set with
  | [] => OutOfRangeRead
  | v :: _ => if is_varchar (value_type v) then Returned (GetString v) else BinderException msg
  end.

(** The body of the loop over the options of the COPY statement. *)
Definition bind_option (bind_data : BindData) (option : string * list Value)
  : outcome BindData :=
  let name := Upper (fst option) in
  if String.eqb name "DRIVER" then
    and_then (front_string "Driver name must be a string" (snd option))
      (fun v => Returned (set_driver_name v bind_data))
  else if String.eqb name "LAYER_NAME" then
    and_then (front_string "Layer name must be a string" (snd option))
      (fun v => Returned (set_layer_name v bind_data))
  else if String.eqb name "LAYER_CREATION_OPTIONS" then
    and_then (add_strings "Layer creation options must be strings" (snd option)
                (layer_creation_options bind_data))
      (fun v => Returned (set_layer_creation_options v bind_data))
  else if String.eqb name "DATASET_CREATION_OPTIONS" then
    and_then (add_strings "Dataset creation options must be strings" (snd option)
                (dataset_creation_options bind_data))
      (fun v => Returned (set_dataset_creation_options v bind_data))
  else if String.eqb name "GEOMETRY_TYPE" then
    and_then (front_string "Geometry type must be a string" (snd option))
      (fun type =>
         match geometry_type_named type with
         | Some t => Returned (set_geometry_type t bind_data)
         | None => BinderException (unknown_geometry_type type)
         end)
  else if String.eqb name "SRS" then
    and_then (front_string "SRS must be a string" (snd option))
      (fun v => Returned (set_target_srs v bind_data))
  else BinderException ("Unknown option '" ++ fst option ++ "'").

Fixpoint bind_options (options : list (string * list Value)) (bind_data : BindData)
  : outcome BindData :=
  match options with
  | [] => Returned bind_data
  | option :: rest => and_then (bind_option bind_data option) (bind_options rest)
  end.

(** The file extension [Bind] leaves in [input.file_extension]. *)
Definition driver_extension (driver : Driver) (file_extension : string) : string :=
  match GetExtension driver with
  | Some file_ext => file_ext
  | None =>
      match GetExtensions driver with
      | Some file_exts =>
          match Split file_exts with
          | ext :: _ => ext
          | [] => file_extension
          end
      | None => file_extension
      end
  end.

(** [Bind]: the bind data and [input.file_extension]; [options] are
    [input.info.options] in the order the loop visits them. *)
Definition Bind (path : string) (options : list (string * list Value))
    (file_extension : string) (names : list string) (sql_types : list LogicalType)
  : outcome (BindData * string) :=
  and_then (bind_options options (NewBindData path sql_types names)) (fun bind_data =>
  if empty (driver_name bind_data) then BinderException "Driver name must be specified"
  else
    let bind_data :=
      if empty (layer_name bind_data)
      then set_layer_name (ExtractBaseName (file_path bind_data)) bind_data
      else bind_data in
    match GetDriverByName (driver_name bind_data) with
    | None => BinderException ("Unknown driver '" ++ driver_name bind_data ++ "'")
    | Some driver =>
        let file_extension := driver_extension driver file_extension in
        if String.eqb (driver_name bind_data) "OpenFileGDB"
           && OGRwkbGeometryType_eqb (geometry_type bind_data) wkbUnknown
        then BinderException
               "OpenFileGDB requires 'GEOMETRY_TYPE' parameter to be set when writing!"
        else Returned (bind_data, file_extension)
    end).

(** ** Init Global *)

Definition IsGeometryType (type : LogicalType) : bool :=
  LogicalType_eqb type WKB_BLOB || LogicalType_eqb type POINT_2D
  || LogicalType_eqb type GEOMETRY.

Definition OGRFieldTypeFromLogicalType (name : string) (type : LogicalType)
  : outcome OGRFieldDefn :=
  match type with
  | Plain BOOLEAN _ => Returned (SetSubType OFSTBoolean (NewFieldDefn name OFTInteger))
  | Plain TINYINT _ => Returned (NewFieldDefn name OFTInteger)
  | Plain SMALLINT _ => Returned (SetSubType OFSTInt16 (NewFieldDefn name OFTInteger))
  | Plain INTEGER _ => Returned (NewFieldDefn name OFTInteger)
  | Plain BIGINT _ => Returned (NewFieldDefn name OFTInteger64)
  | Plain FLOAT _ => Returned (SetSubType OFSTFloat32 (NewFieldDefn name OFTReal))
  | Plain DOUBLE _ => Returned (NewFieldDefn name OFTReal)
  | Plain VARCHAR _ => Returned (NewFieldDefn name OFTString)
  | Plain BLOB _ => Returned (NewFieldDefn name OFTBinary)
  | Plain DATE _ => Returned (NewFieldDefn name OFTDate)
  | Plain TIME _ => Returned (NewFieldDefn name OFTTime)
  | Plain TIMESTAMP _ | Plain TIMESTAMP_NS _ | Plain TIMESTAMP_MS _
  | Plain TIMESTAMP_SEC _ | Plain TIMESTAMP_TZ _ =>
      Returned (NewFieldDefn name OFTDateTime)
  | ListType child_type _ =>
      match child_type with
      | Plain BOOLEAN _ =>
          Returned (SetSubType OFSTBoolean (NewFieldDefn name OFTIntegerList))
      | Plain TINYINT _ => Returned (NewFieldDefn name OFTIntegerList)
      | Plain SMALLINT _ =>
          Returned (SetSubType OFSTInt16 (NewFieldDefn name OFTIntegerList))
      | Plain INTEGER _ => Returned (NewFieldDefn name OFTIntegerList)
      | Plain BIGINT _ => Returned (NewFieldDefn name OFTInteger64List)
      | Plain FLOAT _ => Returned (SetSubType OFSTFloat32 (NewFieldDefn name OFTRealList))
      | Plain DOUBLE _ => Returned (NewFieldDefn name OFTRealList)
      | Plain VARCHAR _ => Returned (NewFieldDefn name OFTStringList)
      | _ => NotImplementedException ("Unsupported type for OGR: " ++ ToString type)
      end
  | Plain (OTHER _) _ =>
      NotImplementedException ("Unsupported type for OGR: " ++ ToString type)
  end.

(** The loop of [InitGlobal] over the columns, from column [i] on; the
    names left are [names].  The state is the number of geometry
    columns seen, the fields of the layer and [field_defs]. *)
Fixpoint create_fields (names : list string) (i : nat) (sql_types : list LogicalType)
    (geometry_field_count : nat) (layer : list OGRFieldDefn) (field_defs : list OGRFieldDefn)
  : outcome (list OGRFieldDefn * list OGRFieldDefn) :=
  match names with
  | [] => Returned (layer, field_defs)
  | name :: rest =>
      match nth_error sql_types i with
      | None => OutOfRangeRead
      | Some type =>
          if IsGeometryType type then
            let geometry_field_count := S geometry_field_count in
            if (1 <? geometry_field_count)%nat
            then NotImplementedException "Multiple geometry fields not supported yet"
            else create_fields rest (S i) sql_types geometry_field_count layer field_defs
          else
            and_then (OGRFieldTypeFromLogicalType name type) (fun field =>
            if CreateField layer field
            then create_fields rest (S i) sql_types geometry_field_count
                   (layer ++ [field]) (field_defs ++ [field])
            else IOException "Could not create attribute field")
      end
  end.

Record GlobalState : Type := mkGlobalState {
  dataset : Dataset;
  layer : list OGRFieldDefn;
  field_defs : list OGRFieldDefn
}.

Definition InitGlobal (gdal_data : BindData) (path : string) : outcome GlobalState :=
  match GetDriverByName (driver_name gdal_data) with
  | None => IOException "Could not open driver"
  | Some driver =>
      let prefixed_path := GetPrefix path in
      match Create driver prefixed_path (dataset_creation_options gdal_data) with
      | None => IOException "Could not open dataset"
      | Some dataset =>
          let srs_ptr :=
            if empty (target_srs gdal_data) then None
            else Some (SetFromUserInput (target_srs gdal_data)) in
          if CreateLayer dataset (layer_name gdal_data) srs_ptr (geometry_type gdal_data)
               (layer_creation_options gdal_data)
          then
            and_then (create_fields (field_names gdal_data) 0 (field_sql_types gdal_data)
                        0 [] [])
              (fun created => Returned (mkGlobalState dataset (fst created) (snd created)))
          else IOException "Could not create layer"
      end
  end.

(** ** Sink *)

Definition OGRGeometryFromValue (type : LogicalType) (value : Value) : outcome OGRGeometry :=
  if LogicalType_eqb type WKB_BLOB then
    match createFromWkb (GetString value) with
    | Some ptr => Returned ptr
    | None => IOException "Could not parse WKB"
    end
  else if LogicalType_eqb type GEOMETRY then
    match createFromWkb (WKBWriter_Write (GetString value)) with
    | Some ptr => Returned ptr
    | None => IOException "Could not parse WKB"
    end
  else if LogicalType_eqb type POINT_2D then
    match GetChildren value with
    | x :: y :: _ => Returned (OGRPoint (GetDouble x) (GetDouble y))
    | _ => OutOfRangeRead
    end
  else NotImplementedException "Unsupported geometry type".

(** *** The values of the fields *)

Local Open Scope Z_scope.

(** The constants of DuckDB's [Interval]. *)
Definition MICROS_PER_SEC : Z := 1000000.
Definition MICROS_PER_MINUTE : Z := MICROS_PER_SEC * 60.
Definition MICROS_PER_HOUR : Z := MICROS_PER_MINUTE * 60.
Definition MICROS_PER_DAY : Z := MICROS_PER_HOUR * 24.

(** [static_cast<int>] of an [int64_t]. *)
Definition to_int (n : Z) : Z := (n + 2 ^ 31) mod 2 ^ 32 - 2 ^ 31.

(** [static_cast<double>(n) / static_cast<double>(d)] for integers
    below 2^53 in magnitude and [d > 0]: the quotient, rounded once. *)
Definition double_quotient (n d : Z) : double :=
  if n =? 0 then Double.zero
  else Double.with_sign (n <? 0) (Double.of_ratio (Z.abs n) d).

(** [static_cast<float>(static_cast<double>(micros % MICROS_PER_MINUTE)
       / static_cast<double>(MICROS_PER_SEC))]. *)
Definition seconds_of (micros : Z) : real32 :=
  to_float (double_quotient (Z.rem micros MICROS_PER_MINUTE) MICROS_PER_SEC).

(** [SetField(i, year, month, day, hour, minute, second, 0)] for a
    timestamp. *)
Definition timestamp_field (timestamp : Z) : OGRField real32 :=
  let date := Timestamp_GetDate timestamp in
  let time := Timestamp_GetTime timestamp in
  let year := ExtractYear date in
  let month := ExtractMonth date in
  let day := ExtractDay date in
  let hour := to_int (Z.quot (Z.rem time MICROS_PER_DAY) MICROS_PER_HOUR) in
  let minute := to_int (Z.quot (Z.rem time MICROS_PER_HOUR) MICROS_PER_MINUTE) in
  let second := seconds_of time in
  FieldDateTime year month day hour minute second 0.

(** [SetOgrFieldFromValue]: the value stored in field [field_idx]. *)
Definition SetOgrFieldFromValue (type : LogicalType) (value : Value)
  : outcome (OGRField real32) :=
  if IsNull value then Returned FieldNull
  else
    match type with
    | Plain BOOLEAN _ => Returned (FieldInteger (if GetBool value then 1 else 0))
    | Plain TINYINT _ => Returned (FieldInteger (GetInt8 value))
    | Plain SMALLINT _ => Returned (FieldInteger (GetInt16 value))
    | Plain INTEGER _ => Returned (FieldInteger (GetInt32 value))
    | Plain BIGINT _ => Returned (FieldInteger64 (GetInt64 value))
    | Plain FLOAT _ => Returned (FieldDouble (GetFloat value))
    | Plain DOUBLE _ => Returned (FieldDouble (GetDouble value))
    | Plain VARCHAR _ | Plain BLOB _ =>
        Returned (FieldBinary (to_int (GetSize value)) (GetString value))
    | Plain DATE _ =>
        let date := GetDate value in
        Returned (FieldDateTime (ExtractYear date) (ExtractMonth date) (ExtractDay date)
                    0 0 (to_float Double.zero) 0)
    | Plain TIME _ =>
        let time := GetTime value in
        let hour := to_int (Z.quot time MICROS_PER_HOUR) in
        let minute := to_int (Z.quot (Z.rem time MICROS_PER_HOUR) MICROS_PER_MINUTE) in
        let second := seconds_of time in
        Returned (FieldDateTime 0 0 0 hour minute second 0)
    | Plain TIMESTAMP _ => Returned (timestamp_field (GetTimestamp value))
    | Plain TIMESTAMP_NS _ =>
        Returned (timestamp_field (FromEpochNanoSeconds (GetTimestamp value)))
    | Plain TIMESTAMP_MS _ =>
        Returned (timestamp_field (FromEpochMs (GetTimestamp value)))
    | Plain TIMESTAMP_SEC _ =>
        Returned (timestamp_field (FromEpochSeconds (GetTimestamp value)))
    | Plain TIMESTAMP_TZ _ =>
        Returned (FieldString (Timestamp_ToString (GetTimestamp value)))
    | _ => NotImplementedException "Unsupported field type"
    end.

(** *** The rows *)

Definition geometry_name (t : OGRwkbGeometryType) : string :=
  Replace_spaces (Upper (OGRGeometryTypeToName t)).

(** The loop of [Sink] over the columns of one row, from column
    [col_idx] on; [values] are the values of the row left. *)
Fixpoint sink_columns (bind_data : BindData) (values : list Value) (col_idx : nat)
    (field_idx : Z) (feature : OGRFeature OGRGeometry real32)
  : outcome (OGRFeature OGRGeometry real32) :=
  match values with
  | [] => Returned feature
  | value :: rest =>
      match nth_error (field_sql_types bind_data) col_idx with
      | None => OutOfRangeRead
      | Some type =>
          if IsGeometryType type then
            and_then (OGRGeometryFromValue type value) (fun geom =>
            if negb (OGRwkbGeometryType_eqb (geometry_type bind_data) wkbUnknown)
               && negb (OGRwkbGeometryType_eqb (getGeometryType geom)
                          (geometry_type bind_data))
            then InvalidInputException
                   ("Expected all geometries to be of type '"
                    ++ geometry_name (geometry_type bind_data)
                    ++ "', but got one of type '"
                    ++ geometry_name (getGeometryType geom) ++ "'")%string
            else if SetGeometry geom
            then sink_columns bind_data rest (S col_idx) field_idx
                   (mkFeature (Some geom) (feature_fields feature))
            else IOException "Could not set geometry")
          else
            and_then (SetOgrFieldFromValue type value) (fun field =>
            sink_columns bind_data rest (S col_idx) (field_idx + 1)
              (mkFeature (feature_geometry feature)
                 (feature_fields feature ++ [(to_int field_idx, field)])))
      end
  end.



(** The columns that are attributes: a column is its name, its type
    and its value in a row. *)
Definition attribute_columns (columns : list (string * LogicalType * Value))
  : list (string * LogicalType * Value) :=
  filter (fun column => negb (IsGeometryType (snd (fst column)))) columns.

Definition geometry_columns (columns : list (string * LogicalType * Value))
  : list (string * LogicalType * Value) :=
  filter (fun column => IsGeometryType (snd (fst column))) columns.

End Copy.

End Gdal.

(** The list form of a field type. *)
Definition list_form (t : Gdal.OGRFieldType) : option Gdal.OGRFieldType :=
  match t with
  | Gdal.OFTInteger => Some Gdal.OFTIntegerList
  | Gdal.OFTInteger64 => Some Gdal.OFTInteger64List
  | Gdal.OFTReal => Some Gdal.OFTRealList
  | Gdal.OFTString => Some Gdal.OFTStringList
  | _ => None
  end.

(** The ids that have a field type of their own but none as the child
    of a list. *)
Definition scalar_only : list Gdal.LogicalTypeId :=
  [Gdal.BLOB; Gdal.DATE; Gdal.TIME; Gdal.TIMESTAMP; Gdal.TIMESTAMP_NS;
   Gdal.TIMESTAMP_MS; Gdal.TIMESTAMP_SEC; Gdal.TIMESTAMP_TZ].

(** The six option names of the copy function. *)
Definition option_names : list string :=
  ["DRIVER"; "LAYER_NAME"; "LAYER_CREATION_OPTIONS"; "DATASET_CREATION_OPTIONS";
   "GEOMETRY_TYPE"; "SRS"]%string.

(** The geometry types GEOMETRY_TYPE can name. *)
Definition named_geometry_types : list Gdal.OGRwkbGeometryType :=
  [Gdal.wkbPoint; Gdal.wkbLineString; Gdal.wkbPolygon; Gdal.wkbMultiPoint;
   Gdal.wkbMultiLineString; Gdal.wkbMultiPolygon; Gdal.wkbGeometryCollection].

(** A host for examples.  A value is its type and its payload, an
    integer and a text, or nothing when it is NULL; floats are kept as
    doubles; a day has [MICROS_PER_DAY] microseconds and the calendar
    is not modelled. *)
Definition sample_duckdb : Gdal.DuckDB := {|
  Gdal.Value := (Gdal.LogicalType * option (Z * string))%type;
  Gdal.value_type := fst;
  Gdal.IsNull := fun v => match snd v with None => true | Some _ => false end;
  Gdal.GetString := fun v => match snd v with Some (_, s) => s | None => EmptyString end;
  Gdal.GetSize := fun v =>
    match snd v with Some (_, s) => Z.of_nat (String.length s) | None => 0 end;
  Gdal.GetChildren := fun _ => [];
  Gdal.GetBool := fun v => match snd v with Some (n, _) => negb (n =? 0) | None => false end;
  Gdal.GetInt8 := fun v => match snd v with Some (n, _) => n | None => 0 end;
  Gdal.GetInt16 := fun v => match snd v with Some (n, _) => n | None => 0 end;
  Gdal.GetInt32 := fun v => match snd v with Some (n, _) => n | None => 0 end;
  Gdal.GetInt64 := fun v => match snd v with Some (n, _) => n | None => 0 end;
  Gdal.real32 := double;
  Gdal.GetFloat := fun v => match snd v with Some (n, _) => n | None => 0 end;
  Gdal.to_float := fun d => d;
  Gdal.GetDouble := fun v => match snd v with Some (n, _) => n | None => 0 end;
  Gdal.GetDate := fun v => match snd v with Some (n, _) => n | None => 0 end;
  Gdal.GetTime := fun v => match snd v with Some (n, _) => n | None => 0 end;
  Gdal.GetTimestamp := fun v => match snd v with Some (n, _) => n | None => 0 end;
  Gdal.ExtractYear := fun _ => 1970;
  Gdal.ExtractMonth := fun _ => 1;
  Gdal.ExtractDay := fun date => 1 + date;
  Gdal.Timestamp_GetDate := fun t => t / 86400000000;
  Gdal.Timestamp_GetTime := fun t => t mod 86400000000;
  Gdal.FromEpochNanoSeconds := fun t => t / 1000;
  Gdal.FromEpochMs := fun t => t * 1000;
  Gdal.FromEpochSeconds := fun t => t * 1000000;
  Gdal.Timestamp_ToString := fun _ => EmptyString;
  Gdal.ToString := fun _ => "?"%string;
  Gdal.Split := fun s => [s];
  Gdal.Replace_spaces := fun s => s;
  Gdal.ExtractBaseName := fun s => s;
  Gdal.GetPrefix := fun s => s;
  Gdal.WKB_BLOB := Gdal.Plain Gdal.BLOB "WKB_BLOB";
  Gdal.POINT_2D := Gdal.Plain (Gdal.OTHER "STRUCT") "POINT_2D";
  Gdal.GEOMETRY := Gdal.Plain Gdal.BLOB "GEOMETRY";
  Gdal.WKBWriter_Write := fun s => s
|}.

(** A GDAL for examples: every driver exists, every call succeeds and
    every geometry is a point. *)
Definition sample_ogr : @Gdal.OGR sample_duckdb := {|
  Gdal.Driver := string;
  Gdal.GetDriverByName := fun name => Some name;
  Gdal.GetExtension := fun _ => None;
  Gdal.GetExtensions := fun _ => Some "json geojson"%string;
  Gdal.Dataset := unit;
  Gdal.Create := fun _ _ _ => Some tt;
  Gdal.SpatialReference := string;
  Gdal.SetFromUserInput := fun s => s;
  Gdal.CreateLayer := fun _ _ _ _ _ => true;
  Gdal.CreateField := fun _ _ => true;
  Gdal.OGRGeometry := string;
  Gdal.createFromWkb := fun wkb => Some wkb;
  Gdal.OGRPoint := fun _ _ => "POINT"%string;
  Gdal.getGeometryType := fun _ => Gdal.wkbPoint;
  Gdal.OGRGeometryTypeToName := fun _ => "Point"%string;
  Gdal.SetGeometry := fun _ => true;
  Gdal.CreateFeature := fun _ => true
|}.

(** What the options leave untouched, and what they can make of the
    geometry type. *)
Definition bound_from (b0 b : Gdal.BindData) : Prop :=
  Gdal.file_path b = Gdal.file_path b0
  /\ Gdal.field_sql_types b = Gdal.field_sql_types b0
  /\ Gdal.field_names b = Gdal.field_names b0
  /\ (Gdal.geometry_type b = Gdal.geometry_type b0
      \/ In (Gdal.geometry_type b) named_geometry_types).


(* ================================================================== *)
(** * Lemmas: numbers and lists                                        *)
(* ================================================================== *)

Local Open Scope Z_scope.

Lemma le_value_le_bytes (n : nat) (v : Z) :
  0 <= v < 256 ^ Z.of_nat n ->
  GeometryFactory.le_value (GeometryFactory.le_bytes n v) = v.
Proof.
  revert v. induction n as [|n IH]; intros v Hv.
  - cbn in *. lia.
  - cbn [GeometryFactory.le_bytes GeometryFactory.le_value].
    rewrite IH.
    + pose proof (Z.div_mod v 256). lia.
    + rewrite Nat2Z.inj_succ, Z.pow_succ_r in Hv by lia.
      split.
      * apply Z.div_pos; lia.
      * apply Z.div_lt_upper_bound; lia.
Qed.

Lemma length_le_bytes (n : nat) (v : Z) :
  List.length (GeometryFactory.le_bytes n v) = n.
Proof. revert v. induction n; intros; cbn; auto. Qed.

Lemma assign_all_app {A : Type} (pre src : list A) (dst : list A) :
  List.length dst = List.length src ->
  assign_all (List.length pre) src (pre ++ dst) = pre ++ src.
Proof.
  revert pre dst. induction src as [|x src IH]; intros pre dst Hlen.
  - destruct dst; [reflexivity | discriminate].
  - destruct dst as [|y dst]; [discriminate|].
    cbn [assign_all].
    assert (Hassign : assign (List.length pre) x (pre ++ y :: dst) = (pre ++ [x]) ++ dst).
    { clear. induction pre as [|p pre IHp]; cbn; [reflexivity|]. now rewrite IHp. }
    rewrite Hassign.
    replace (S (List.length pre)) with (List.length (pre ++ [x]))
      by (rewrite length_app; cbn; lia).
    rewrite IH by (cbn in Hlen; lia).
    now rewrite <- app_assoc.
Qed.

(** Filling a pre-sized container slot by slot yields the source. *)
Lemma assign_all_repeat {A : Type} (src : list A) (d : A) :
  assign_all 0 src (repeat d (List.length src)) = src.
Proof.
  apply (assign_all_app [] src (repeat d (List.length src))).
  apply repeat_length.
Qed.

Lemma FilledPolygon_rings rings z m :
  Ctor.FilledPolygon rings z m = mkPolygon z m rings.
Proof. unfold Ctor.FilledPolygon. cbn. now rewrite assign_all_repeat. Qed.

Lemma FilledMultiPoint_points points z m :
  Ctor.FilledMultiPoint points z m = mkMultiPoint z m points.
Proof. unfold Ctor.FilledMultiPoint. cbn. now rewrite assign_all_repeat. Qed.

Lemma FilledMultiLineString_lines lines z m :
  Ctor.FilledMultiLineString lines z m = mkMultiLineString z m lines.
Proof. unfold Ctor.FilledMultiLineString. cbn. now rewrite assign_all_repeat. Qed.

Lemma FilledMultiPolygon_polygons polygons z m :
  Ctor.FilledMultiPolygon polygons z m = mkMultiPolygon z m polygons.
Proof. unfold Ctor.FilledMultiPolygon. cbn. now rewrite assign_all_repeat. Qed.

Lemma FilledCollection_items geometries z m :
  Ctor.FilledCollection geometries z m = GeomCollection z m geometries.
Proof.
  unfold Ctor.FilledCollection, Ctor.SizedCollection.
  now rewrite assign_all_repeat.
Qed.

(** ** The values [from_chars] stores are binary64 patterns *)

Lemma round_half_even_nonneg n d : 0 <= n -> 0 <= d -> 0 <= Double.round_half_even n d.
Proof.
  intros Hn Hd. unfold Double.round_half_even.
  pose proof (Z_div_nonneg_nonneg n d Hn Hd).
  destruct (_ || _); lia.
Qed.

Lemma scaled_round_nonneg n d k : 0 <= n -> 0 <= d -> 0 <= Double.scaled_round n d k.
Proof.
  intros Hn Hd. unfold Double.scaled_round.
  destruct (0 <=? k) eqn:Hk; apply round_half_even_nonneg; auto.
  - apply Z.mul_nonneg_nonneg; [auto | apply Z.pow_nonneg; lia].
  - apply Z.mul_nonneg_nonneg; [auto | apply Z.pow_nonneg; lia].
Qed.

Lemma of_ratio_range n d :
  0 <= n -> 0 <= d -> 0 <= Double.of_ratio n d <= Double.infinity.
Proof.
  intros Hn Hd. unfold Double.of_ratio.
  set (e := if Double.pow2_le n d _ then _ else _).
  assert (Hinf : 0 <= Double.infinity) by (unfold Double.infinity; lia).
  destruct (e <? -1022) eqn:He.
  - pose proof (scaled_round_nonneg n d 1074 Hn Hd). lia.
  - pose proof (scaled_round_nonneg n d (52 - e) Hn Hd).
    apply Z.ltb_ge in He.
    assert (0 <= (e + 1022) * 2 ^ 52) by (apply Z.mul_nonneg_nonneg; lia).
    lia.
Qed.

Lemma with_sign_is_double neg d :
  0 <= d <= Double.infinity -> Double.is_double (Double.with_sign neg d).
Proof.
  unfold Double.is_double, Double.with_sign, Double.sign_bit, Double.infinity.
  destruct neg; lia.
Qed.

Lemma of_decimal_is_double neg m e : Double.is_double (Double.of_decimal neg m e).
Proof.
  unfold Double.of_decimal. apply with_sign_is_double.
  assert (Hinf : 0 <= Double.infinity) by (unfold Double.infinity; lia).
  destruct (m <=? 0) eqn:Hm; [lia|]. apply Z.leb_gt in Hm.
  destruct (400 <? e); [lia|].
  destruct (_ <? -400); [lia|].
  destruct (0 <=? e) eqn:He.
  - apply of_ratio_range; [|lia].
    apply Z.mul_nonneg_nonneg; [lia | apply Z.pow_nonneg; lia].
  - apply of_ratio_range; [lia | apply Z.pow_nonneg; lia].
Qed.

(** ** [from_chars] returns a suffix of what it was given *)

Lemma suffix_refl (s : list ascii) : suffix_of s s.
Proof. now exists []. Qed.

Lemma suffix_cons c (r s : list ascii) : suffix_of r s -> suffix_of r (c :: s).
Proof. intros [pre ->]. now exists (c :: pre). Qed.

Lemma suffix_trans (a b c : list ascii) : suffix_of a b -> suffix_of b c -> suffix_of a c.
Proof. intros [p ->] [q ->]. exists (q ++ p). now rewrite app_assoc. Qed.

Lemma suffix_length (r s : list ascii) :
  suffix_of r s -> (List.length r <= List.length s)%nat.
Proof. intros [pre ->]. rewrite length_app. lia. Qed.

Lemma suffix_skipn (r s : list ascii) :
  suffix_of r s -> skipn (List.length s - List.length r) s = r.
Proof.
  intros [pre ->]. rewrite length_app.
  replace (List.length pre + List.length r - List.length r)%nat
    with (List.length pre) by lia.
  now rewrite skipn_app, skipn_all, Nat.sub_diag.
Qed.

Create HintDb suffix.
#[local] Hint Resolve suffix_refl suffix_cons : suffix.

Lemma span_digits_eq s ds r : fast_float.span_digits s = (ds, r) -> s = ds ++ r.
Proof.
  revert ds r. induction s as [|c s IH]; cbn; intros ds r H.
  - now inversion H.
  - destruct (Ctype.isdigit c).
    + destruct (fast_float.span_digits s) as [ds' r'] eqn:E.
      inversion H; subst. cbn. f_equal. now apply IH.
    + now inversion H.
Qed.

Lemma span_digits_suffix s ds r : fast_float.span_digits s = (ds, r) -> suffix_of r s.
Proof. intros H. exists ds. now apply span_digits_eq. Qed.

Lemma strip_minus_suffix s neg r : fast_float.strip_minus s = (neg, r) -> suffix_of r s.
Proof.
  unfold fast_float.strip_minus. intros H.
  destruct s as [|c s]; [inversion H; auto with suffix|].
  destruct (ascii_dec c "-") as [->|Hne].
  - inversion H; subst. auto with suffix.
  - assert (r = c :: s) as ->; [|auto with suffix].
    destruct c as [[] [] [] [] [] [] [] []]; inversion H; try reflexivity.
    now elim Hne.
Qed.

Lemma exponent_sign_suffix s neg r : fast_float.exponent_sign s = (neg, r) -> suffix_of r s.
Proof.
  unfold fast_float.exponent_sign. intros H.
  destruct s as [|c u]; [(cbn in H; injection H as _ <-); apply suffix_refl|].
  destruct (ascii_dec c "-") as [->|Hm]; [(cbn in H; injection H as _ <-); auto with suffix|].
  destruct (ascii_dec c "+") as [->|Hp]; [(cbn in H; injection H as _ <-); auto with suffix|].
  assert (r = c :: u) as ->; [|apply suffix_refl].
  destruct c as [[] [] [] [] [] [] [] []];
    first [now elim Hm | now elim Hp | cbn in H; injection H as _ <-; reflexivity].
Qed.

Lemma fraction_suffix s fp r : fast_float.fraction s = (fp, r) -> suffix_of r s.
Proof.
  unfold fast_float.fraction. intros H.
  destruct s as [|c t]; [(cbn in H; injection H as _ <-); apply suffix_refl|].
  destruct (ascii_dec c ".") as [->|Hd].
  - apply span_digits_suffix in H. auto with suffix.
  - assert (r = c :: t) as ->; [|apply suffix_refl].
    destruct c as [[] [] [] [] [] [] [] []];
      first [now elim Hd | cbn in H; injection H as _ <-; reflexivity].
Qed.

Lemma parse_exponent_suffix s e r : fast_float.parse_exponent s = (e, r) -> suffix_of r s.
Proof.
  unfold fast_float.parse_exponent. intros H.
  destruct s as [|c t]; [(cbn in H; injection H as _ <-); apply suffix_refl|].
  destruct (Ascii.eqb _ _); [|(cbn in H; injection H as _ <-); apply suffix_refl].
  destruct (fast_float.exponent_sign t) as [eneg t1] eqn:Esign.
  apply exponent_sign_suffix in Esign.
  destruct (fast_float.span_digits t1) as [ed t2] eqn:Espan.
  apply span_digits_suffix in Espan.
  destruct ed; (cbn in H; injection H as _ <-); [apply suffix_refl|].
  apply suffix_cons. eapply suffix_trans; eauto.
Qed.

Lemma parse_number_string_sound s d r :
  fast_float.parse_number_string s = Some (d, r) ->
  suffix_of r s /\ Double.is_double d.
Proof.
  unfold fast_float.parse_number_string. intros H.
  destruct (fast_float.strip_minus s) as [neg s1] eqn:E1.
  destruct (fast_float.span_digits s1) as [ip s2] eqn:E2.
  destruct (fast_float.fraction s2) as [fp s3] eqn:E3.
  destruct (ip ++ fp)%list eqn:Eds; [discriminate|].
  destruct (fast_float.parse_exponent s3) as [e s4] eqn:E4.
  injection H as <- <-. split; [|apply of_decimal_is_double].
  apply strip_minus_suffix in E1. apply span_digits_suffix in E2.
  apply fraction_suffix in E3. apply parse_exponent_suffix in E4.
  eauto using suffix_trans.
Qed.

Lemma strncasecmp_suffix word s r :
  fast_float.strncasecmp s word = Some r -> suffix_of r s.
Proof.
  revert s. induction word as [|w word IH]; cbn; intros s H.
  - injection H as ->. apply suffix_refl.
  - destruct s as [|c t]; [discriminate|].
    destruct (Ascii.eqb _ _); [|discriminate].
    apply suffix_cons. now apply IH.
Qed.

Lemma nan_payload_suffix s r : fast_float.nan_payload s = Some r -> suffix_of r s.
Proof.
  revert r. induction s as [|c t IH]; cbn; intros r H; [discriminate|].
  destruct (Ascii.eqb c ")").
  - injection H as ->. apply suffix_cons, suffix_refl.
  - destruct (fast_float.is_nchar c); [|discriminate].
    apply suffix_cons. now apply IH.
Qed.

Lemma quiet_nan_range : 0 <= Double.quiet_nan <= Double.infinity + 2 ^ 51.
Proof. unfold Double.quiet_nan, Double.infinity. lia. Qed.

Lemma after_nan_suffix r : suffix_of (fast_float.after_nan r) r.
Proof.
  unfold fast_float.after_nan.
  destruct r as [|c t]; [apply suffix_refl|].
  destruct (ascii_dec c "(") as [->|Hc].
  - destruct (fast_float.nan_payload t) eqn:Ep; [|apply suffix_refl].
    apply nan_payload_suffix in Ep. now apply suffix_cons.
  - destruct c as [[] [] [] [] [] [] [] []]; try apply suffix_refl. now elim Hc.
Qed.

Lemma after_inf_suffix r : suffix_of (fast_float.after_inf r) r.
Proof.
  unfold fast_float.after_inf.
  destruct (fast_float.strncasecmp r _) eqn:Ei; [|apply suffix_refl].
  now apply strncasecmp_suffix in Ei.
Qed.

Lemma parse_infnan_sound s d r :
  fast_float.parse_infnan s = Some (d, r) ->
  suffix_of r s /\ Double.is_double d.
Proof.
  unfold fast_float.parse_infnan. intros H.
  destruct (fast_float.strip_minus s) as [neg s1] eqn:E1.
  apply strip_minus_suffix in E1.
  destruct (fast_float.strncasecmp s1 (list_ascii_of_string "nan")) as [r1|] eqn:Enan.
  - apply strncasecmp_suffix in Enan.
    assert (Hd : d = Double.with_sign neg Double.quiet_nan) by congruence.
    assert (Hr : r = fast_float.after_nan r1) by congruence.
    subst d r. split.
    + eauto using suffix_trans, after_nan_suffix.
    + unfold Double.is_double, Double.with_sign, Double.quiet_nan, Double.sign_bit.
      destruct neg; lia.
  - destruct (fast_float.strncasecmp s1 (list_ascii_of_string "inf")) as [r1|] eqn:Einf;
      [|discriminate].
    apply strncasecmp_suffix in Einf.
    assert (Hd : d = Double.with_sign neg Double.infinity) by congruence.
    assert (Hr : r = fast_float.after_inf r1) by congruence.
    subst d r. split.
    + eauto using suffix_trans, after_inf_suffix.
    + apply with_sign_is_double. unfold Double.infinity. lia.
Qed.

Lemma from_chars_sound s d r :
  fast_float.from_chars s = Some (d, r) ->
  suffix_of r s /\ Double.is_double d.
Proof.
  unfold fast_float.from_chars. intros H.
  destruct (fast_float.parse_number_string s) as [[d' r']|] eqn:E.
  - inversion H; subst. now apply parse_number_string_sound.
  - now apply parse_infnan_sound.
Qed.

(* ================================================================== *)
(** * Lemmas: the reader, operation by operation                       *)
(* ================================================================== *)

Import WKTReader ReaderLogic.
Local Open Scope nat_scope.
Local Open Scope reader_scope.

Lemma remaining_length r : in_bounds r -> List.length (remaining r) = end_ r - cursor r.
Proof. intros _. unfold remaining, end_. now rewrite length_skipn. Qed.

Lemma space_run_le s : space_run s <= List.length s.
Proof. induction s as [|c s IH]; cbn; [lia|]. destruct (Ctype.isspace c); cbn; lia. Qed.

Lemma word_run_le s : word_run s <= List.length s.
Proof. induction s as [|c s IH]; cbn; [lia|]. destruct (_ && _); cbn; lia. Qed.

Lemma not_semicolon_run_le s : not_semicolon_run s <= List.length s.
Proof. induction s as [|c s IH]; cbn; [lia|]. destruct (Ascii.eqb _ _); cbn; lia. Qed.

Lemma moved_refl r : in_bounds r -> moved r r.
Proof. intros H. unfold moved. destruct r; cbn in *. auto. Qed.

Lemma moved_trans r1 r2 r3 : moved r1 r2 -> moved r2 r3 -> moved r1 r3.
Proof.
  intros (E1 & L1 & U1) (E2 & L2 & U2).
  assert (Hi : input r2 = input r1) by (rewrite E1; reflexivity).
  unfold moved, end_ in *. rewrite Hi in U2. repeat split; try lia.
  rewrite E2 at 1. rewrite E1 at 1. reflexivity.
Qed.

Lemma moved_set_cursor r n : cursor r <= n -> n <= end_ r -> moved r (set_cursor n r).
Proof. intros. unfold moved. cbn. auto. Qed.

Lemma moved_facts r r' :
  moved r r' ->
  input r' = input r /\ end_ r' = end_ r /\ has_z r' = has_z r
  /\ has_m r' = has_m r /\ zm_set r' = zm_set r /\ in_bounds r'.
Proof.
  intros (E & L & U).
  assert (Hi : input r' = input r) by (rewrite E; reflexivity).
  assert (Hz : has_z r' = has_z r) by (rewrite E; reflexivity).
  assert (Hm : has_m r' = has_m r) by (rewrite E; reflexivity).
  assert (Hs : zm_set r' = zm_set r) by (rewrite E; reflexivity).
  unfold in_bounds, end_ in *. rewrite Hi. auto 10.
Qed.

Lemma moved_stepped r r' : moved r r' -> stepped r r'.
Proof.
  intros H. pose proof (moved_facts _ _ H) as (Hi & He & Hz & Hm & Hs & Hb).
  destruct H as (_ & L & U). unfold stepped. repeat split; auto; congruence.
Qed.

Lemma stepped_trans r1 r2 r3 : stepped r1 r2 -> stepped r2 r3 -> stepped r1 r3.
Proof.
  intros (I1 & L1 & U1 & Z1) (I2 & L2 & U2 & Z2).
  unfold stepped, end_ in *. rewrite I1 in *.
  split; [assumption|]. split; [lia|]. split; [lia|].
  intros Hs. destruct (Z1 Hs) as (S1 & A1 & B1). destruct (Z2 S1) as (S2 & A2 & B2).
  repeat split; congruence.
Qed.

Lemma stepped_facts r r' :
  stepped r r' -> in_bounds r ->
  input r' = input r /\ end_ r' = end_ r /\ in_bounds r' /\ cursor r <= cursor r'.
Proof.
  intros (Hi & Hl & Hu & _) Hb. unfold in_bounds, end_ in *. rewrite Hi. auto.
Qed.

(** Collects what [moved] and [stepped] hypotheses say, for [lia] and
    [congruence]. *)
Ltac reader_facts :=
  repeat match goal with
  | H : moved ?a ?b |- _ =>
      lazymatch goal with
      | _ : end_ b = end_ a |- _ => fail
      | _ =>
          let Hi := fresh "Hin" in let He := fresh "Hend" in
          let Hz := fresh "Hz" in let Hm := fresh "Hm" in
          let Hs := fresh "Hset" in let Hb := fresh "Hbnd" in
          let Hl := fresh "Hlo" in let Hu := fresh "Hup" in
          pose proof (moved_facts _ _ H) as (Hi & He & Hz & Hm & Hs & Hb);
          pose proof (proj1 (proj2 H)) as Hl;
          pose proof (proj2 (proj2 H)) as Hu
      end
  end;
  unfold in_bounds in *.

Lemma post_ret {A : Type} bytes F (a : A) r (Q : A -> reader -> Prop) :
  Q a r -> post bytes F (ret a r) Q.
Proof. auto. Qed.

Lemma post_bind {A B : Type} bytes F (m : M A) (k : A -> M B) r
    (Q1 : A -> reader -> Prop) (Q2 : B -> reader -> Prop) :
  post bytes F (m r) Q1 ->
  (forall a r', Q1 a r' -> post bytes F (k a r') Q2) ->
  post bytes F (bind m k r) Q2.
Proof.
  intros H Hk. unfold bind. destruct (m r) as [[a r']| | |]; cbn in H |- *; auto.
Qed.

Lemma post_weaken {A : Type} bytes bytes' (F F' : Prop) (res : result (A * reader))
    (Q Q' : A -> reader -> Prop) :
  post bytes' F' res Q' ->
  bytes' = bytes -> (F -> F') -> (forall a r, Q' a r -> Q a r) ->
  post bytes F res Q.
Proof.
  intros H <- HF HQ. destruct res as [[a r']| | |]; cbn in *; auto.
Qed.

(** One step of a sequence: the specification of the first operation,
    then the rest under its postcondition. *)
Ltac step_with lemma :=
  eapply post_bind;
  [ eapply post_weaken;
    [ eapply lemma; try (reader_facts; assumption)
    | reader_facts; try reflexivity; congruence
    | reader_facts; first [tauto | lia]
    | let H := fresh "H" in intros ? ? H; exact H ]
  | cbv beta ].

Lemma post_get {A : Type} bytes F (k : reader -> M A) r (Q : A -> reader -> Prop) :
  post bytes F (k r r) Q -> post bytes F (bind get k r) Q.
Proof. auto. Qed.

Lemma post_move_to {A : Type} bytes F p (k : unit -> M A) r (Q : A -> reader -> Prop) :
  post bytes F (k tt (set_cursor p r)) Q -> post bytes F (bind (move_to p) k r) Q.
Proof. auto. Qed.

Lemma get_post r bytes F : post bytes F (get r) (fun a r' => a = r /\ r' = r).
Proof. cbn. auto. Qed.

Lemma deref_post r :
  in_bounds r ->
  post (input r) True (deref r)
    (fun c r' => r' = r /\ cursor r < end_ r /\ nth_error (input r) (cursor r) = Some c).
Proof.
  intros Hb. unfold deref, post. destruct (nth_error _ _) eqn:E.
  - repeat split; auto. apply nth_error_Some. congruence.
  - apply nth_error_None in E. unfold in_bounds, end_ in Hb. lia.
Qed.

Lemma skip_space_post r :
  in_bounds r -> post (input r) True (skip_space r) (fun _ r' => moved r r').
Proof.
  intros Hb. cbn. apply moved_set_cursor; [lia|].
  pose proof (space_run_le (remaining r)). rewrite remaining_length in H by assumption.
  unfold in_bounds in Hb. lia.
Qed.

Lemma substring_context bytes c :
  c <= List.length bytes ->
  substring (c - 32) (Nat.min (c + 1) (List.length bytes)) bytes
  = string_of_list_ascii (left_context bytes c ++ at_cursor bytes c).
Proof.
  intros Hc. unfold substring, left_context, at_cursor. f_equal.
  destruct (Nat.eq_dec c (List.length bytes)) as [->|Hne].
  - rewrite Nat.min_r by lia. rewrite skipn_all, firstn_nil, app_nil_r.
    rewrite firstn_all. apply firstn_all2. rewrite length_skipn. lia.
  - rewrite Nat.min_l by lia.
    rewrite <- (firstn_skipn c bytes) at 1.
    rewrite skipn_app, firstn_app.
    rewrite length_firstn, Nat.min_l by lia.
    replace (c - 32 - c) with 0 by lia. rewrite skipn_O.
    rewrite length_skipn, length_firstn, Nat.min_l by lia.
    rewrite firstn_all2 by (rewrite length_skipn, length_firstn; lia).
    f_equal. f_equal. lia.
Qed.


Lemma GetErrorContext_post r :
  in_bounds r ->
  post (input r) True (GetErrorContext r)
    (fun ctx r' => r' = r /\ ctx = error_context (input r) (cursor r)).
Proof.
  intros Hb. unfold GetErrorContext, post. split; [reflexivity|].
  unfold error_context, end_. rewrite substring_context by exact Hb.
  destruct (cursor r - 32 =? 0) eqn:E1; destruct (32 <? cursor r) eqn:E2;
    try reflexivity.
  - apply Nat.eqb_eq in E1. apply Nat.ltb_lt in E2. lia.
  - apply Nat.eqb_neq in E1. apply Nat.ltb_ge in E2. lia.
Qed.

(** [throw (message ++ " " ++ context)] at the cursor is a positioned error. *)
Lemma throw_post {A : Type} r message msg (Q : A -> reader -> Prop) F :
  in_bounds r ->
  msg = (message ++ " " ++ error_context (input r) (cursor r))%string ->
  post (input r) F (throw msg r) Q.
Proof. intros Hb ->. cbn. exists message, (cursor r). auto. Qed.

Lemma advance_skip_moved r :
  cursor r < end_ r ->
  let r1 := set_cursor (S (cursor r)) r in
  let r2 := set_cursor (cursor r1 + space_run (remaining r1)) r1 in
  moved r r2 /\ cursor r < cursor r2.
Proof.
  intros Hlt r1 r2.
  assert (Hb1 : in_bounds r1) by (unfold in_bounds, r1; cbn; unfold end_ in *; lia).
  pose proof (space_run_le (remaining r1)) as Hs.
  rewrite remaining_length in Hs by assumption.
  unfold moved, r2, r1, end_ in *; cbn in *. repeat split; lia.
Qed.

Lemma Match_post c r :
  in_bounds r ->
  post (input r) True (Match c r)
    (fun b r' => moved r r' /\ (b = true -> cursor r < cursor r') /\ (b = false -> r' = r)).
Proof.
  intros Hb. unfold Match.
  eapply post_bind; [apply deref_post; assumption|].
  intros x r' (-> & Hlt & _).
  destruct (Ascii.eqb x c).
  - cbn. destruct (advance_skip_moved r Hlt) as [Hm Hc].
    repeat split; auto; try apply Hm. discriminate.
  - cbn. split; [now apply moved_refl|]. split; [discriminate | reflexivity].
Qed.

Lemma MatchCI_chars_post str r :
  in_bounds r ->
  post (input r) True (MatchCI_chars str r)
    (fun b r' => moved r r' /\ (b = true -> cursor r' = cursor r + List.length str)).
Proof.
  revert r. induction str as [|s str IH]; intros r Hb.
  - cbn. split; [now apply moved_refl | intros _; lia].
  - cbn [MatchCI_chars].
    eapply post_bind; [apply deref_post; assumption|].
    intros x r' (-> & Hlt & _).
    destruct (Ascii.eqb _ _).
    + unfold bind at 1, advance.
      assert (Hm1 : moved r (set_cursor (S (cursor r)) r))
        by (apply moved_set_cursor; lia).
      assert (Hb1 : in_bounds (set_cursor (S (cursor r)) r))
        by (unfold in_bounds, end_ in *; cbn; lia).
      eapply post_weaken; [apply (IH _ Hb1) | reflexivity | auto |].
      intros b r' [Hm Hlen]. split; [eapply moved_trans; eauto|].
      intros ->. rewrite Hlen by reflexivity. cbn. lia.
    + cbn. split; [now apply moved_refl | discriminate].
Qed.

Lemma set_cursor_back r r' : moved r r' -> set_cursor (cursor r) r' = r.
Proof. intros (E & _). rewrite E. destruct r; reflexivity. Qed.

Lemma MatchCI_post str r :
  in_bounds r ->
  post (input r) True (MatchCI str r)
    (fun b r' =>
       moved r r'
       /\ (b = true -> cursor r + String.length str <= cursor r')
       /\ (b = false -> r' = r)).
Proof.
  intros Hb. unfold MatchCI. unfold bind at 1, get.
  eapply post_bind; [apply MatchCI_chars_post; assumption|].
  intros ok r1 [Hm Hlen]. reader_facts.
  destruct ok.
  - cbn. specialize (Hlen eq_refl).
    pose proof (space_run_le (remaining r1)) as Hs.
    rewrite remaining_length in Hs by assumption.
    assert (Hm2 : moved r1 (set_cursor (cursor r1 + space_run (remaining r1)) r1))
      by (apply moved_set_cursor; lia).
    split; [eapply moved_trans; eauto|]. split; [|discriminate].
    intros _. cbn. rewrite Hlen. clear. 
    assert (List.length (list_ascii_of_string str) = String.length str).
    { induction str; cbn; auto. }
    lia.
  - cbn. rewrite (set_cursor_back _ _ Hm).
    split; [now apply moved_refl|]. split; [discriminate | reflexivity].
Qed.

Lemma remaining_after r rest :
  in_bounds r -> suffix_of rest (remaining r) ->
  let r' := set_cursor (end_ r - List.length rest) r in
  moved r r' /\ remaining r' = rest.
Proof.
  intros Hb Hsuf r'.
  pose proof (suffix_length _ _ Hsuf) as Hl.
  rewrite remaining_length in Hl by assumption.
  split.
  - apply moved_set_cursor; unfold in_bounds in Hb; lia.
  - unfold r', remaining. cbn. pose proof (suffix_skipn _ _ Hsuf) as Hs.
    unfold remaining in Hs. rewrite skipn_skipn, length_skipn in Hs.
    etransitivity; [|exact Hs]. f_equal. unfold in_bounds, end_ in *.
    lia.
Qed.

Lemma TryParseDouble_post r :
  in_bounds r ->
  post (input r) True (TryParseDouble r)
    (fun o r' =>
       moved r r'
       /\ match o with Some d => Double.is_double d | None => r' = r end).
Proof.
  intros Hb. unfold TryParseDouble. apply post_get.
  destruct (fast_float.from_chars (remaining r)) as [[data rest]|] eqn:E.
  - apply from_chars_sound in E. destruct E as [Hsuf Hd].
    destruct (remaining_after r rest Hb Hsuf) as [Hm _].
    apply post_move_to.
    step_with skip_space_post.
    intros _ r2 Hm2. apply post_ret. split; [|exact Hd].
    eapply moved_trans; eauto.
  - apply post_ret. split; [now apply moved_refl | reflexivity].
Qed.

Lemma ParseDouble_post r :
  in_bounds r ->
  post (input r) True (ParseDouble r) (fun d r' => moved r r' /\ Double.is_double d).
Proof.
  intros Hb. unfold ParseDouble.
  eapply post_bind; [apply TryParseDouble_post; assumption|].
  intros [d|] r1 [Hm Hd].
  - cbn. auto.
  - subst r1.
    eapply post_bind; [apply GetErrorContext_post; assumption|].
    intros ctx r2 [-> ->].
    apply (throw_post r "WKT Parser: Expected double"); [assumption | reflexivity].
Qed.

Lemma Expect_post c r :
  in_bounds r ->
  post (input r) True (Expect c r) (fun _ r' => moved r r' /\ cursor r < cursor r').
Proof.
  intros Hb. unfold Expect.
  eapply post_bind; [apply Match_post; assumption|].
  intros [|] r1 (Hm & Ht & Hf).
  - cbn. auto.
  - rewrite (Hf eq_refl).
    eapply post_bind; [apply GetErrorContext_post; assumption|].
    intros ctx r2 [-> ->].
    apply (throw_post r ("WKT Parser: Expected character '" ++ String c "" ++ "'")%string);
      [assumption | reflexivity].
Qed.

Lemma post_construct {A : Type} (ctor : bool -> bool -> A) r bytes F
    (Q : A -> reader -> Prop) :
  Q (ctor (has_z r) (has_m r)) r -> post bytes F (construct ctor r) Q.
Proof. cbn. auto. Qed.

Lemma post_construct_bind {A B : Type} (ctor : bool -> bool -> A) (k : A -> M B) r bytes F
    (Q : B -> reader -> Prop) :
  post bytes F (k (ctor (has_z r) (has_m r)) r) Q ->
  post bytes F (bind (construct ctor) k r) Q.
Proof. cbn. auto. Qed.

Lemma ParseVertex_post coords r :
  in_bounds r ->
  post (input r) True (ParseVertex coords r)
    (fun coords' r' =>
       moved r r'
       /\ exists new, coords' = (coords ++ new)%list
          /\ List.length new = VertexArray.dimension (has_z r) (has_m r)
          /\ Forall Double.is_double new).
Proof.
  intros Hb. unfold ParseVertex. apply post_get.
  step_with ParseDouble_post. intros x r1 [M1 Dx].
  step_with ParseDouble_post. intros y r2 [M2 Dy].
  assert (D0 : Double.is_double Double.zero)
    by (unfold Double.is_double, Double.zero; lia).
  eapply post_bind with
    (Q1 := fun z r3 => moved r2 r3 /\ Double.is_double z).
  { destruct (has_z r).
    - eapply post_weaken; [eapply ParseDouble_post| | |];
        reader_facts; auto; congruence.
    - apply post_ret. split; [apply moved_refl; reader_facts; assumption | exact D0]. }
  intros z r3 [M3 Dz].
  eapply post_bind with
    (Q1 := fun m r4 => moved r3 r4 /\ Double.is_double m).
  { destruct (has_m r).
    - eapply post_weaken; [eapply ParseDouble_post| | |];
        reader_facts; auto; congruence.
    - apply post_ret. split; [apply moved_refl; reader_facts; assumption | exact D0]. }
  intros m r4 [M4 Dm].
  apply post_ret. split; [eauto using moved_trans|].
  eexists. split; [reflexivity|].
  unfold VertexArray.dimension.
  destruct (has_z r), (has_m r); cbn; split; auto.
Qed.

Lemma comma_loop_post {S : Type} (I : S -> Prop) (body : S -> M S) (nb : nat) r0 n :
  (forall s r1, I s -> moved r0 r1 ->
     post (input r0) (end_ r1 - cursor r1 < nb) (body s r1)
       (fun s' r2 => I s' /\ moved r1 r2)) ->
  forall s r, I s -> moved r0 r ->
    post (input r0) (end_ r - cursor r < n /\ end_ r - cursor r <= nb)
      (comma_loop n body s r) (fun s' r' => I s' /\ moved r r').
Proof.
  intros Hbody. induction n as [|n IH]; intros s r Hs Hm.
  - cbn. lia.
  - cbn [comma_loop]. reader_facts.
    step_with Match_post. intros more r1 (M1 & Ht & Hf).
    destruct more.
    + specialize (Ht eq_refl).
      assert (M01 : moved r0 r1) by eauto using moved_trans.
      eapply post_bind.
      { eapply post_weaken; [apply (Hbody s r1 Hs M01) | reflexivity | |].
        - reader_facts. lia.
        - intros ? ? H; exact H. }
      intros s' r2 [Hs' M2]. cbv beta.
      eapply post_weaken;
        [apply (IH s' r2 Hs'); eauto using moved_trans | reflexivity | |].
      * reader_facts. lia.
      * intros s'' r3 [Hs'' M3]. split; eauto using moved_trans.
    + rewrite (Hf eq_refl). apply post_ret. split; [assumption|].
      apply moved_refl. assumption.
Qed.

Lemma list_production_post {S B : Type} (I : S -> Prop) (P : B -> Prop)
    (first : M S) (body : S -> M S) empty filled fuel r :
  in_bounds r ->
  (forall r1, moved r r1 ->
     post (input r) (end_ r1 - cursor r1 < fuel) (first r1)
       (fun s r2 => I s /\ moved r1 r2)) ->
  (forall s r1, I s -> moved r r1 ->
     post (input r) (end_ r1 - cursor r1 < fuel) (body s r1)
       (fun s' r2 => I s' /\ moved r1 r2)) ->
  P (empty (has_z r) (has_m r)) ->
  (forall s, I s -> P (filled s (has_z r) (has_m r))) ->
  post (input r) (end_ r - cursor r < fuel)
    (list_production first body empty filled fuel r)
    (fun b r' => moved r r' /\ P b).
Proof.
  intros Hb Hfirst Hbody Hempty Hfilled. unfold list_production.
  step_with MatchCI_post. intros is_empty r1 (M1 & _ & _).
  destruct is_empty.
  - apply post_construct.
    reader_facts. split; [assumption|].
    replace (has_z r1) with (has_z r) by congruence.
    replace (has_m r1) with (has_m r) by congruence. assumption.
  - step_with Expect_post. intros _ r2 [M2 _].
    assert (M02 : moved r r2) by eauto using moved_trans.
    eapply post_bind.
    { eapply post_weaken; [apply (Hfirst r2 M02) | reflexivity | |].
      - reader_facts. lia.
      - intros ? ? H; exact H. }
    intros s r3 [Hs M3]. cbv beta.
    assert (M03 : moved r r3) by eauto using moved_trans.
    eapply post_bind.
    { eapply post_weaken;
        [apply (comma_loop_post I body fuel r fuel Hbody s r3 Hs M03) | reflexivity | |].
      - reader_facts. lia.
      - intros ? ? H; exact H. }
    intros s' r4 [Hs' M4]. cbv beta.
    assert (M04 : moved r r4) by eauto using moved_trans.
    step_with Expect_post. intros _ r5 [M5 _].
    assert (M05 : moved r r5) by eauto using moved_trans.
    apply post_construct.
    split; [assumption|]. reader_facts.
    replace (has_z r5) with (has_z r) by congruence.
    replace (has_m r5) with (has_m r) by congruence.
    now apply Hfilled.
Qed.

(** ** The list productions, one by one *)

Lemma has_flags_refl z m : has_flags z m z m = true.
Proof. destruct z, m; reflexivity. Qed.

Lemma uint32_range n : (0 <= uint32 n < 2 ^ 32)%Z.
Proof. unfold uint32. apply Z.mod_pos_bound. lia. Qed.

Lemma uint32_succ n : uint32 (uint32 n + 1) = uint32 (n + 1).
Proof. unfold uint32. apply Zplus_mod_idemp_l. Qed.

Lemma Forall_firstn {A : Type} (P : A -> Prop) n (l : list A) :
  Forall P l -> Forall P (firstn n l).
Proof.
  intros H. revert n. induction H; intros [|n]; cbn; auto.
Qed.

Lemma Copy_well_formed coords count z m n :
  List.length coords = n * VertexArray.dimension z m ->
  count = uint32 (Z.of_nat n) ->
  Forall Double.is_double coords ->
  va_has_zm z m (VertexArray.Copy coords count z m) = true
  /\ VertexArray.well_formed (VertexArray.Copy coords count z m).
Proof.
  intros Hlen -> Hd. split; [apply has_flags_refl|].
  unfold VertexArray.well_formed, VertexArray.Copy. cbn.
  split; [apply uint32_range|]. split; [|now apply Forall_firstn].
  rewrite length_firstn. apply Nat.min_l. rewrite Hlen.
  apply Nat.mul_le_mono_r.
  assert (uint32 (Z.of_nat n) <= Z.of_nat n)%Z
    by (unfold uint32; apply Z.mod_le; lia).
  lia.
Qed.

Lemma Empty_well_formed z m :
  va_has_zm z m (VertexArray.Empty z m) = true
  /\ VertexArray.well_formed (VertexArray.Empty z m).
Proof.
  split; [apply has_flags_refl|].
  unfold VertexArray.well_formed. cbn. repeat split; auto; lia.
Qed.

Lemma ParseVertices_shape fuel r :
  ParseVertices fuel r
  = list_production
      (coords <- ParseVertex [] ;; ret (coords, uint32 (0 + 1)))
      (fun cc : list double * Z =>
         coords' <- ParseVertex (fst cc) ;; ret (coords', uint32 (snd cc + 1)))
      VertexArray.Empty
      (fun cc => VertexArray.Copy (fst cc) (snd cc)) fuel r.
Proof.
  unfold ParseVertices, list_production, bind.
  destruct (MatchCI "EMPTY" r) as [[[] r1]| | |]; try reflexivity.
  destruct (Expect "(" r1) as [[[] r2]| | |]; try reflexivity.
  destruct (ParseVertex [] r2) as [[coords r3]| | |]; reflexivity.
Qed.

Lemma ParseVertices_post fuel r :
  in_bounds r ->
  post (input r) (end_ r - cursor r < fuel) (ParseVertices fuel r)
    (fun v r' =>
       moved r r'
       /\ va_has_zm (has_z r) (has_m r) v = true /\ VertexArray.well_formed v).
Proof.
  intros Hb. rewrite ParseVertices_shape.
  set (dim := VertexArray.dimension (has_z r) (has_m r)).
  apply list_production_post with
    (I := fun cc : list double * Z =>
            exists n, List.length (fst cc) = n * dim
                      /\ snd cc = uint32 (Z.of_nat n)
                      /\ Forall Double.is_double (fst cc)); auto.
  - intros r1 M1. step_with ParseVertex_post.
    intros coords r2 (M2 & new & -> & Hlen & Hd). apply post_ret.
    split; [|assumption]. exists 1. cbn [fst snd app]. reader_facts.
    assert (Hdim : VertexArray.dimension (has_z r1) (has_m r1) = dim)
      by (unfold dim; f_equal; congruence).
    repeat split; auto. rewrite Hlen, Hdim. lia.
  - intros [coords count] r1 (n & Hlen & Hcount & Hd) M1. cbn [fst snd] in *.
    step_with ParseVertex_post.
    intros coords' r2 (M2 & new & -> & Hlen' & Hd'). apply post_ret.
    split; [|assumption]. exists (S n). cbn [fst snd]. reader_facts.
    assert (Hdim : VertexArray.dimension (has_z r1) (has_m r1) = dim)
      by (unfold dim; f_equal; congruence).
    split; [|split].
    + rewrite length_app, Hlen, Hlen', Hdim. lia.
    + rewrite Hcount, uint32_succ. f_equal. lia.
    + apply Forall_app. auto.
  - apply Empty_well_formed.
  - intros [coords count] (n & Hlen & Hcount & Hd). cbn [fst snd] in *.
    eapply Copy_well_formed; eauto.
Qed.

Lemma ParsePoint_post r :
  in_bounds r ->
  post (input r) True (ParsePoint r)
    (fun p r' => moved r r' /\ va_has_zm (has_z r) (has_m r) (point_vertices p) = true).
Proof.
  intros Hb. unfold ParsePoint.
  step_with MatchCI_post. intros is_empty r1 (M1 & _ & _).
  destruct is_empty.
  - apply post_construct. reader_facts. split; [assumption|].
    replace (has_z r1) with (has_z r) by congruence.
    replace (has_m r1) with (has_m r) by congruence. apply has_flags_refl.
  - step_with Expect_post. intros _ r2 [M2 _].
    step_with ParseVertex_post. intros coords r3 (M3 & _).
    step_with Expect_post. intros _ r4 [M4 _].
    apply post_construct. split; [eauto using moved_trans|].
    reader_facts. cbn. replace (has_z r4) with (has_z r) by congruence.
    replace (has_m r4) with (has_m r) by congruence. apply has_flags_refl.
Qed.

Lemma ParseLineString_post fuel r :
  in_bounds r ->
  post (input r) (end_ r - cursor r < fuel) (ParseLineString fuel r)
    (fun l r' => moved r r' /\ va_has_zm (has_z r) (has_m r) (line_vertices l) = true).
Proof.
  intros Hb. unfold ParseLineString.
  step_with ParseVertices_post. intros v r1 (M1 & Hv & _).
  apply post_ret. auto.
Qed.

Lemma ParsePolygon_shape fuel r :
  ParsePolygon fuel r
  = list_production
      (ring <- ParseVertices fuel ;; ret [ring])
      (fun rings => ring' <- ParseVertices fuel ;; ret (rings ++ [ring'])%list)
      Ctor.EmptyPolygon Ctor.FilledPolygon fuel r.
Proof.
  unfold ParsePolygon, list_production, bind.
  destruct (MatchCI "EMPTY" r) as [[[] r1]| | |]; try reflexivity.
  destruct (Expect "(" r1) as [[[] r2]| | |]; try reflexivity.
  destruct (ParseVertices fuel r2) as [[ring r3]| | |]; reflexivity.
Qed.

(** What one list production needs of its items: every item read so
    far satisfies [P]. *)
Lemma item_list_post {A : Type} (P : A -> Prop) (item : M A) fuel r :
  (forall r1, moved r r1 ->
     post (input r) (end_ r1 - cursor r1 < fuel) (item r1)
       (fun a r2 => moved r1 r2 /\ P a)) ->
  (forall r1, moved r r1 ->
     post (input r) (end_ r1 - cursor r1 < fuel)
       ((x <- item ;; ret [x]) r1)
       (fun xs r2 => Forall P xs /\ moved r1 r2))
  /\ (forall xs r1, Forall P xs -> moved r r1 ->
     post (input r) (end_ r1 - cursor r1 < fuel)
       ((x <- item ;; ret (xs ++ [x])%list) r1)
       (fun xs' r2 => Forall P xs' /\ moved r1 r2)).
Proof.
  intros Hitem. split.
  - intros r1 M1. eapply post_bind; [apply (Hitem r1 M1)|].
    intros a r2 [M2 Pa]. apply post_ret. auto.
  - intros xs r1 Hxs M1. eapply post_bind; [apply (Hitem r1 M1)|].
    intros a r2 [M2 Pa]. apply post_ret. split; [|assumption].
    apply Forall_app. auto.
Qed.

Lemma forallb_Forall {A : Type} (f : A -> bool) (P : A -> Prop) xs :
  Forall (fun x => f x = true /\ P x) xs -> forallb f xs = true /\ Forall P xs.
Proof.
  induction 1 as [|x xs [Hf Hp] _ [IH1 IH2]]; cbn; [auto|].
  rewrite Hf, IH1. auto.
Qed.

Lemma ParsePolygon_post fuel r :
  in_bounds r ->
  post (input r) (end_ r - cursor r < fuel) (ParsePolygon fuel r)
    (fun p r' =>
       moved r r'
       /\ polygon_has_zm (has_z r) (has_m r) p = true
       /\ Forall VertexArray.well_formed (polygon_rings p)).
Proof.
  intros Hb. rewrite ParsePolygon_shape.
  destruct (item_list_post
              (fun v => va_has_zm (has_z r) (has_m r) v = true
                        /\ VertexArray.well_formed v)
              (ParseVertices fuel) fuel r) as [Hfirst Hbody].
  { intros r1 M1.
    eapply post_weaken; [apply ParseVertices_post | | |];
      reader_facts; auto; try congruence. }
  eapply list_production_post; eauto.
  - cbn. unfold polygon_has_zm. cbn. now rewrite has_flags_refl.
  - intros rings Hrings. rewrite FilledPolygon_rings.
    apply forallb_Forall in Hrings. destruct Hrings as [H1 H2].
    unfold polygon_has_zm. cbn. now rewrite has_flags_refl, H1.
Qed.

Lemma ParseMultiPoint_item_post points r z m :
  in_bounds r -> has_z r = z -> has_m r = m ->
  Forall (fun p => va_has_zm z m (point_vertices p) = true) points ->
  post (input r) True (ParseMultiPoint_item points r)
    (fun points' r' =>
       Forall (fun p => va_has_zm z m (point_vertices p) = true) points'
       /\ moved r r').
Proof.
  intros Hb Ez Em Hpoints. unfold ParseMultiPoint_item.
  step_with Match_post. intros optional_paren r1 (M1 & _ & _).
  step_with ParseVertex_post. intros coords r2 (M2 & _).
  eapply post_bind with (Q1 := fun _ r3 => moved r2 r3).
  { destruct optional_paren.
    - eapply post_weaken; [eapply Expect_post | | |];
        reader_facts; auto; try congruence.
      now intros _ r3 [M3 _].
    - apply post_ret. apply moved_refl. reader_facts. assumption. }
  intros _ r3 M3. cbv beta.
  apply post_construct_bind. apply post_ret.
  split; [|eauto using moved_trans].
  apply Forall_app. split; [assumption|]. constructor; [|constructor].
  cbn. reader_facts.
  replace (has_z r3) with z by congruence.
  replace (has_m r3) with m by congruence. apply has_flags_refl.
Qed.

Lemma ParseMultiPoint_post fuel r :
  in_bounds r ->
  post (input r) (end_ r - cursor r < fuel) (ParseMultiPoint fuel r)
    (fun mp r' =>
       moved r r' /\ has_zm (has_z r) (has_m r) (GeomMultiPoint mp) = true).
Proof.
  intros Hb.
  change (ParseMultiPoint fuel r)
    with (list_production (ParseMultiPoint_item []) ParseMultiPoint_item
            (fun z m => mkMultiPoint z m []) Ctor.FilledMultiPoint fuel r).
  eapply list_production_post with
    (I := Forall (fun p => va_has_zm (has_z r) (has_m r) (point_vertices p) = true));
    auto.
  - intros r1 M1.
    eapply post_weaken;
      [eapply (ParseMultiPoint_item_post [] r1 (has_z r) (has_m r)) | | |];
      reader_facts; auto; try congruence.
  - intros points r1 Hpoints M1.
    eapply post_weaken;
      [eapply (ParseMultiPoint_item_post points r1 (has_z r) (has_m r)) | | |];
      reader_facts; auto; try congruence.
  - cbn. now rewrite has_flags_refl.
  - intros points Hpoints. rewrite FilledMultiPoint_points. cbn.
    rewrite has_flags_refl. cbn. apply forallb_forall.
    rewrite Forall_forall in Hpoints. exact Hpoints.
Qed.

Lemma ParseMultiLineString_shape fuel r :
  ParseMultiLineString fuel r
  = list_production
      (line <- ParseLineString fuel ;; ret [line])
      (fun lines => line' <- ParseLineString fuel ;; ret (lines ++ [line'])%list)
      (fun z m => mkMultiLineString z m []) Ctor.FilledMultiLineString fuel r.
Proof.
  unfold ParseMultiLineString, list_production, bind.
  destruct (MatchCI "EMPTY" r) as [[[] r1]| | |]; try reflexivity.
  destruct (Expect "(" r1) as [[[] r2]| | |]; try reflexivity.
  destruct (ParseLineString fuel r2) as [[line r3]| | |]; reflexivity.
Qed.

Lemma ParseMultiLineString_post fuel r :
  in_bounds r ->
  post (input r) (end_ r - cursor r < fuel) (ParseMultiLineString fuel r)
    (fun ml r' =>
       moved r r' /\ has_zm (has_z r) (has_m r) (GeomMultiLineString ml) = true).
Proof.
  intros Hb. rewrite ParseMultiLineString_shape.
  destruct (item_list_post
              (fun l => va_has_zm (has_z r) (has_m r) (line_vertices l) = true)
              (ParseLineString fuel) fuel r) as [Hfirst Hbody].
  { intros r1 M1.
    eapply post_weaken; [apply ParseLineString_post | | |];
      reader_facts; auto; try congruence. }
  eapply list_production_post; eauto.
  - cbn. now rewrite has_flags_refl.
  - intros lines Hlines. rewrite FilledMultiLineString_lines. cbn.
    rewrite has_flags_refl. cbn. apply forallb_forall.
    rewrite Forall_forall in Hlines. exact Hlines.
Qed.

Lemma ParseMultiPolygon_shape fuel r :
  ParseMultiPolygon fuel r
  = list_production
      (polygon <- ParsePolygon fuel ;; ret [polygon])
      (fun polygons => polygon' <- ParsePolygon fuel ;; ret (polygons ++ [polygon'])%list)
      (fun z m => mkMultiPolygon z m []) Ctor.FilledMultiPolygon fuel r.
Proof.
  unfold ParseMultiPolygon, list_production, bind.
  destruct (MatchCI "EMPTY" r) as [[[] r1]| | |]; try reflexivity.
  destruct (Expect "(" r1) as [[[] r2]| | |]; try reflexivity.
  destruct (ParsePolygon fuel r2) as [[polygon r3]| | |]; reflexivity.
Qed.

Lemma Forall_flat_map {A B : Type} (P : B -> Prop) (f : A -> list B) xs :
  Forall (fun x => Forall P (f x)) xs -> Forall P (flat_map f xs).
Proof.
  induction 1; cbn; [constructor|]. apply Forall_app. auto.
Qed.

Lemma ParseMultiPolygon_post fuel r :
  in_bounds r ->
  post (input r) (end_ r - cursor r < fuel) (ParseMultiPolygon fuel r)
    (fun mp r' => moved r r' /\ tree_ok (has_z r) (has_m r) (GeomMultiPolygon mp)).
Proof.
  intros Hb. rewrite ParseMultiPolygon_shape.
  destruct (item_list_post
              (fun p => polygon_has_zm (has_z r) (has_m r) p = true
                        /\ Forall VertexArray.well_formed (polygon_rings p))
              (ParsePolygon fuel) fuel r) as [Hfirst Hbody].
  { intros r1 M1.
    eapply post_weaken; [apply ParsePolygon_post | | |];
      reader_facts; auto; try congruence. }
  eapply list_production_post; eauto.
  - split; [cbn; now rewrite has_flags_refl | constructor].
  - intros polygons Hp. rewrite FilledMultiPolygon_polygons.
    apply forallb_Forall in Hp. destruct Hp as [H1 H2]. split.
    + cbn. now rewrite has_flags_refl, H1.
    + cbn. now apply Forall_flat_map.
Qed.

Lemma stepped_moved r r' : zm_set r = true -> stepped r r' -> moved r r'.
Proof.
  intros Hs (Hi & Hl & Hu & Hz). destruct (Hz Hs) as (Hs' & Hz' & Hm').
  unfold moved. repeat split; auto.
  destruct r, r'; cbn in *. subst. reflexivity.
Qed.

Lemma append_assoc (s1 s2 s3 : string) :
  ((s1 ++ s2) ++ s3 = s1 ++ (s2 ++ s3))%string.
Proof. induction s1 as [|c s1 IH]; cbn; [reflexivity | now rewrite IH]. Qed.

Lemma CheckZM_post r :
  in_bounds r ->
  post (input r) True (CheckZM r)
    (fun _ r' => stepped r r' /\ zm_set r' = true).
Proof.
  intros Hb. unfold CheckZM.
  step_with Match_post. intros geom_has_z r1 (M1 & _ & _).
  step_with Match_post. intros geom_has_m r2 (M2 & _ & _).
  assert (M02 : moved r r2) by eauto using moved_trans.
  apply post_get. reader_facts.
  destruct (zm_set r2) eqn:Hset2.
  - destruct (_ || _).
    + step_with GetErrorContext_post. intros ctx r3 [-> ->].
      replace (input r) with (input r2) by congruence.
      apply (throw_post r2
               "WKT Parser: GeometryCollection with mixed Z and M types are not supported, mismatch");
        [assumption | reflexivity].
    + apply post_ret. split; [now apply moved_stepped | assumption].
  - cbn. split; [|reflexivity].
    unfold stepped. cbn. repeat split; try congruence; try lia.
    all: intros Hs; congruence.
Qed.

Lemma ParseWord_post r :
  in_bounds r -> post (input r) True (ParseWord r) (fun _ r' => moved r r').
Proof.
  intros Hb. unfold ParseWord. apply post_get. apply post_move_to. apply post_ret.
  apply moved_set_cursor; [lia|].
  pose proof (word_run_le (remaining r)) as H.
  rewrite remaining_length in H by assumption. unfold in_bounds in Hb. lia.
Qed.

Lemma ParseGeometryCollection_shape (item : M Geometry) fuel r :
  ParseGeometryCollection item fuel r
  = list_production
      (geometry <- item ;; ret [geometry])
      (fun geometries => geometry' <- item ;; ret (geometries ++ [geometry'])%list)
      (fun z m => GeomCollection z m []) Ctor.FilledCollection fuel r.
Proof.
  unfold ParseGeometryCollection, list_production, bind.
  destruct (MatchCI "EMPTY" r) as [[[] r1]| | |]; try reflexivity.
  destruct (Expect "(" r1) as [[[] r2]| | |]; try reflexivity.
  destruct (item r2) as [[geometry r3]| | |]; reflexivity.
Qed.

Lemma tree_ok_collection z m items :
  Forall (tree_ok z m) items -> tree_ok z m (GeomCollection z m items).
Proof.
  intros H. apply forallb_Forall in H. destruct H as [H1 H2]. split.
  - cbn. now rewrite has_flags_refl, H1.
  - cbn. now apply Forall_flat_map.
Qed.

(** ** Geometries *)

(** A keyword was matched: [CheckZM], then the body of that kind. *)
Lemma keyword_branch (m : M Geometry) fuel r r1 :
  in_bounds r -> moved r r1 -> cursor r < cursor r1 ->
  (forall r2, in_bounds r2 -> input r2 = input r -> end_ r2 = end_ r ->
              zm_set r2 = true -> cursor r1 <= cursor r2 ->
     post (input r) (end_ r2 - cursor r2 < fuel) (m r2)
       (fun g r3 => moved r2 r3 /\ tree_ok (has_z r2) (has_m r2) g)) ->
  post (input r) (end_ r - cursor r < S fuel) ((CheckZM ;;; m) r1) (geometry_post r).
Proof.
  intros Hb M1 Hlt Hm. reader_facts.
  step_with CheckZM_post. intros _ r2 [S2 Hset2].
  assert (Hb1 : in_bounds r1) by assumption.
  destruct (stepped_facts _ _ S2 Hb1) as (Hin2 & Hend2 & Hb2 & Hlo2).
  eapply post_weaken;
    [apply (Hm r2); unfold in_bounds in *; congruence || lia | reflexivity | |].
  - unfold in_bounds in *. lia.
  - intros g r3 [M3 Hg]. pose proof (moved_facts _ _ M3) as (_ & _ & Hz3 & Hm3 & Hs3 & _).
    unfold geometry_post. split; [|split].
    + eapply stepped_trans; [apply moved_stepped; exact M1|].
      eapply stepped_trans; [exact S2 | apply moved_stepped; exact M3].
    + congruence.
    + now rewrite Hz3, Hm3.
Qed.

Lemma tree_ok_point z m p :
  va_has_zm z m (point_vertices p) = true -> tree_ok z m (GeomPoint p).
Proof. intros H. split; [exact H | constructor]. Qed.

Lemma tree_ok_linestring z m l :
  va_has_zm z m (line_vertices l) = true -> tree_ok z m (GeomLineString l).
Proof. intros H. split; [exact H | constructor]. Qed.

Lemma tree_ok_multipoint z m mp :
  has_zm z m (GeomMultiPoint mp) = true -> tree_ok z m (GeomMultiPoint mp).
Proof. intros H. split; [exact H | constructor]. Qed.

Lemma tree_ok_multilinestring z m ml :
  has_zm z m (GeomMultiLineString ml) = true -> tree_ok z m (GeomMultiLineString ml).
Proof. intros H. split; [exact H | constructor]. Qed.

(** A leaf production followed by the wrapping into [Geometry]. *)
Ltac leaf_branch lemma ok :=
  let r2 := fresh "r2" in
  intros r2 ? ? ? ? ?;
  eapply post_bind;
  [ eapply post_weaken;
    [ eapply lemma; assumption
    | congruence
    | first [tauto | intros ?; assumption]
    | let H := fresh "H" in intros ? ? H; exact H ]
  | cbv beta; intros ? ? ?; apply post_ret;
    repeat match goal with H : _ /\ _ |- _ => destruct H end;
    split; [assumption | first [apply ok; assumption | assumption | split; assumption]] ].

Lemma ParseGeometry_post n :
  forall r, in_bounds r ->
    post (input r) (end_ r - cursor r < n) (ParseGeometry n r) (geometry_post r).
Proof.
  induction n as [|n IH]; intros r Hb.
  - cbn. lia.
  - cbn [ParseGeometry].
    assert (Hlen : forall (s : string) r1,
               (1 <= String.length s) ->
               cursor r + String.length s <= cursor r1 -> cursor r < cursor r1)
      by (intros; lia).
    step_with MatchCI_post. intros b r1 (M1 & Ht & Hf). destruct b.
    { apply keyword_branch; auto; [apply (Hlen "POINT"%string); cbn; auto|].
      leaf_branch ParsePoint_post tree_ok_point. }
    rewrite (Hf eq_refl). clear r1 M1 Ht Hf.
    step_with MatchCI_post. intros b r1 (M1 & Ht & Hf). destruct b.
    { apply keyword_branch; auto; [apply (Hlen "LINESTRING"%string); cbn; auto; lia|].
      leaf_branch ParseLineString_post tree_ok_linestring. }
    rewrite (Hf eq_refl). clear r1 M1 Ht Hf.
    step_with MatchCI_post. intros b r1 (M1 & Ht & Hf). destruct b.
    { apply keyword_branch; auto; [apply (Hlen "POLYGON"%string); cbn; auto; lia|].
      leaf_branch ParsePolygon_post tree_ok_point. }
    rewrite (Hf eq_refl). clear r1 M1 Ht Hf.
    step_with MatchCI_post. intros b r1 (M1 & Ht & Hf). destruct b.
    { apply keyword_branch; auto; [apply (Hlen "MULTIPOINT"%string); cbn; auto; lia|].
      leaf_branch ParseMultiPoint_post tree_ok_multipoint. }
    rewrite (Hf eq_refl). clear r1 M1 Ht Hf.
    step_with MatchCI_post. intros b r1 (M1 & Ht & Hf). destruct b.
    { apply keyword_branch; auto; [apply (Hlen "MULTILINESTRING"%string); cbn; auto; lia|].
      leaf_branch ParseMultiLineString_post tree_ok_multilinestring. }
    rewrite (Hf eq_refl). clear r1 M1 Ht Hf.
    step_with MatchCI_post. intros b r1 (M1 & Ht & Hf). destruct b.
    { apply keyword_branch; auto; [apply (Hlen "MULTIPOLYGON"%string); cbn; auto; lia|].
      leaf_branch ParseMultiPolygon_post tree_ok_point. }
    rewrite (Hf eq_refl). clear r1 M1 Ht Hf.
    step_with MatchCI_post. intros b r1 (M1 & Ht & Hf). destruct b.
    { apply keyword_branch; auto; [apply (Hlen "GEOMETRYCOLLECTION"%string); cbn; auto; lia|].
      intros r2 Hb2 Hin2 Hend2 Hset2 Hlo2.
      rewrite ParseGeometryCollection_shape. rewrite <- Hin2.
      destruct (item_list_post (tree_ok (has_z r2) (has_m r2))
                  (ParseGeometry n) n r2) as [Hfirst Hbody].
      { intros r3 M3. pose proof (moved_facts _ _ M3) as (Hi3 & He3 & Hz3 & Hm3 & Hs3 & Hb3).
        eapply post_weaken; [apply (IH r3 Hb3) | congruence | auto |].
        intros g r4 (S4 & Hset4 & Hg).
        assert (M4 : moved r3 r4) by (apply stepped_moved; congruence).
        pose proof (moved_facts _ _ M4) as (_ & _ & Hz4 & Hm4 & _).
        split; [assumption|]. rewrite <- Hz3, <- Hm3, <- Hz4, <- Hm4. exact Hg. }
      eapply list_production_post; eauto.
      - apply (tree_ok_collection _ _ []). constructor.
      - intros items Hitems. rewrite FilledCollection_items.
        now apply tree_ok_collection. }
    rewrite (Hf eq_refl). clear r1 M1 Ht Hf.
    step_with GetErrorContext_post. intros context r1 [-> ->].
    step_with ParseWord_post. intros word r2 M2.
    replace (input r) with (input r2) by (reader_facts; congruence).
    eapply post_weaken with (Q' := geometry_post r) (F' := True);
      [ | reflexivity | auto | auto].
    pose proof (moved_facts _ _ M2) as (Hi2 & _ & _ & _ & _ & Hb2).
    cbn. exists ("WKT Parser: Unknown geometry type '" ++ word ++ "'")%string, (cursor r).
    split; [unfold in_bounds, end_ in Hb; congruence|].
    rewrite Hi2. now rewrite !append_assoc.
Qed.

Lemma ParseWKT_post n r :
  in_bounds r ->
  post (input r) (end_ r - cursor r < n) (ParseWKT n r) (geometry_post r).
Proof.
  intros Hb. unfold ParseWKT.
  step_with MatchCI_post. intros srid r1 (M1 & _ & _).
  eapply post_bind with (Q1 := fun _ r2 => moved r r2).
  { destruct srid.
    - apply post_get. apply post_move_to.
      assert (M2 : moved r1 (set_cursor (cursor r1 + not_semicolon_run (remaining r1)) r1)).
      { reader_facts. apply moved_set_cursor; [lia|].
        pose proof (not_semicolon_run_le (remaining r1)) as H.
        rewrite remaining_length in H by assumption. lia. }
      step_with Expect_post. intros _ r3 [M3 _].
      eapply post_weaken; [apply skip_space_post | | auto |].
      + reader_facts. assumption.
      + reader_facts. congruence.
      + intros [] r4 M4. cbv beta in M4. eauto using moved_trans.
    - apply post_ret. assumption. }
  intros _ r2 M2. cbv beta. reader_facts.
  eapply post_weaken; [apply ParseGeometry_post; assumption | congruence | lia |].
  intros g r3 (S3 & Hset3 & Hg). split; [|auto].
  eapply stepped_trans; [apply moved_stepped; eassumption | assumption].
Qed.

(** Every way a call of [Parse] can end. *)
Lemma Parse_post (wkt : string) :
  match Parse wkt with
  | Ok g => exists z m, tree_ok z m g
  | InvalidInputException msg => positioned_error (list_ascii_of_string wkt) msg
  | OutOfBoundsRead pos => pos = List.length (list_ascii_of_string wkt)
  | OutOfFuel => False
  end.
Proof.
  unfold Parse.
  set (bytes := list_ascii_of_string wkt).
  set (r := mkReader bytes 0 false false false).
  assert (Hb : in_bounds r) by (unfold in_bounds; cbn; lia).
  pose proof (ParseWKT_post (S (List.length bytes)) r Hb) as H.
  destruct (ParseWKT _ r) as [[g r']| | |]; cbn in H.
  - destruct H as (_ & _ & Hg). eauto.
  - exact H.
  - exact H.
  - apply H. unfold end_. cbn. lia.
Qed.

Lemma has_flags_eq z m z' m' : has_flags z m z' m' = true -> z' = z /\ m' = m.
Proof. destruct z, m, z', m'; cbn; intros H; auto; discriminate. Qed.



(* ================================================================== *)
(** * Lemmas: the codec                                                *)
(* ================================================================== *)

Section Codec.

Import GeometryFactory.
Local Open Scope Z_scope.

Lemma read_le_bytes n v rest :
  0 <= v < 256 ^ Z.of_nat n ->
  read_le n (le_bytes n v ++ rest) = Decoded v rest.
Proof.
  intros Hv. unfold read_le.
  assert (Hlen : List.length (le_bytes n v) = n) by apply length_le_bytes.
  destruct (Nat.ltb_spec (List.length (le_bytes n v ++ rest)) n) as [Hlt|_].
  - rewrite length_app in Hlt. lia.
  - rewrite firstn_app, skipn_app, Hlen, Nat.sub_diag.
    rewrite firstn_all2 by lia. rewrite skipn_all2 by lia.
    cbn. rewrite app_nil_r. now rewrite le_value_le_bytes.
Qed.

(** [read_n] undoes [flat_map] when the item reader undoes the item
    writer. *)
Lemma read_n_flat_map {A : Type} (read : list Z -> decoded A) (write : A -> list Z)
    (xs : list A) rest :
  Forall (fun x => forall rest', read (write x ++ rest') = Decoded x rest') xs ->
  read_n (List.length xs) read (flat_map write xs ++ rest) = Decoded xs rest.
Proof.
  induction 1 as [|x xs Hx _ IH]; [reflexivity|].
  cbn [List.length flat_map read_n]. rewrite <- app_assoc, Hx. cbn [dbind].
  now rewrite IH.
Qed.

Lemma read_counted_write {A : Type} (read : list Z -> decoded A) (write : A -> list Z)
    (xs : list A) rest :
  fits_uint32 xs = true ->
  Forall (fun x => forall rest', read (write x ++ rest') = Decoded x rest') xs ->
  read_counted read (write_counted write xs ++ rest) = Decoded xs rest.
Proof.
  intros Hfit Hxs. unfold read_counted, write_counted.
  apply Z.ltb_lt in Hfit.
  rewrite <- app_assoc, read_le_bytes by (change (256 ^ Z.of_nat 4) with (2 ^ 32); lia).
  cbn [dbind]. rewrite Nat2Z.id. now apply read_n_flat_map.
Qed.

Lemma is_doubleb_spec d : is_doubleb d = true -> 0 <= d < 256 ^ Z.of_nat 8.
Proof.
  unfold is_doubleb. intros H. apply andb_prop in H. destruct H as [H1 H2].
  apply Z.leb_le in H1. apply Z.ltb_lt in H2.
  change (256 ^ Z.of_nat 8) with (2 ^ 64). lia.
Qed.

Lemma read_vertices_write z m v rest :
  va_has_zm z m v = true -> va_well_formed v = true ->
  read_vertices z m (write_vertices v ++ rest) = Decoded v rest.
Proof.
  intros Hzm Hwf. unfold read_vertices, write_vertices.
  apply has_flags_eq in Hzm. destruct Hzm as [Ez Em].
  unfold va_well_formed in Hwf.
  apply andb_prop in Hwf. destruct Hwf as [Hwf Hd].
  apply andb_prop in Hwf. destruct Hwf as [Hwf Hlen].
  apply andb_prop in Hwf. destruct Hwf as [H0 H32].
  apply Z.leb_le in H0. apply Z.ltb_lt in H32. apply Nat.eqb_eq in Hlen.
  rewrite <- app_assoc, read_le_bytes by (change (256 ^ Z.of_nat 4) with (2 ^ 32); lia).
  cbn [dbind]. rewrite <- Ez, <- Em, <- Hlen.
  rewrite (read_n_flat_map (read_le 8) (le_bytes 8)).
  - cbn [dbind]. destruct v; cbn in *. now subst.
  - rewrite Forall_forall. intros d Hin rest'.
    apply read_le_bytes. apply is_doubleb_spec.
    rewrite forallb_forall in Hd. now apply Hd.
Qed.

Lemma tag_range t z m : 0 <= tag t z m < 32.
Proof. unfold tag. destruct t, z, m; cbn; lia. Qed.

Lemma read_tag_write t z m rest :
  read_tag (tag t z m :: rest) = Decoded (t, z, m) rest.
Proof. destruct t, z, m; reflexivity. Qed.

Lemma expect_tag_write t z m rest :
  expect_tag t z m (tag t z m :: rest) = Decoded tt rest.
Proof.
  unfold expect_tag. rewrite read_tag_write. cbn [dbind].
  now rewrite Z.eqb_refl, has_flags_refl.
Qed.

Lemma read_point_write z m p rest :
  va_has_zm z m (point_vertices p) = true ->
  va_well_formed (point_vertices p) = true ->
  read_point z m (write_point p ++ rest) = Decoded p rest.
Proof.
  intros Hzm Hwf. unfold read_point, write_point.
  destruct (has_flags_eq _ _ _ _ Hzm) as [-> ->].
  cbn [app]. rewrite expect_tag_write. cbn [dbind].
  rewrite read_vertices_write by assumption. cbn [dbind]. now destruct p.
Qed.

Lemma read_linestring_write z m l rest :
  va_has_zm z m (line_vertices l) = true ->
  va_well_formed (line_vertices l) = true ->
  read_linestring z m (write_linestring l ++ rest) = Decoded l rest.
Proof.
  intros Hzm Hwf. unfold read_linestring, write_linestring.
  destruct (has_flags_eq _ _ _ _ Hzm) as [-> ->].
  cbn [app]. rewrite expect_tag_write. cbn [dbind].
  rewrite read_vertices_write by assumption. cbn [dbind]. now destruct l.
Qed.

(** Items that satisfy two boolean checks are read back. *)
Lemma Forall_checked {A : Type} (f g : A -> bool) (P : A -> Prop) xs :
  forallb f xs = true -> forallb g xs = true ->
  (forall x, f x = true -> g x = true -> P x) ->
  Forall P xs.
Proof.
  intros Hf Hg H. rewrite forallb_forall in Hf, Hg.
  apply Forall_forall. auto.
Qed.

Lemma read_rings_write z m p rest :
  polygon_has_zm z m p = true -> polygon_well_formed p = true ->
  read_rings z m (write_counted write_vertices (polygon_rings p) ++ rest)
  = Decoded p rest.
Proof.
  unfold polygon_has_zm, polygon_well_formed. intros Hzm Hwf.
  apply andb_prop in Hzm. destruct Hzm as [Hflags Hrings].
  apply andb_prop in Hwf. destruct Hwf as [Hfit Hwf].
  destruct (has_flags_eq _ _ _ _ Hflags) as [Ez Em].
  unfold read_rings.
  rewrite (read_counted_write (read_vertices z m) write_vertices); [|assumption|].
  - cbn [dbind]. destruct p; cbn in *. now subst.
  - eapply Forall_checked; [exact Hrings | exact Hwf |]. intros v Hv Hw rest'.
    now apply read_vertices_write.
Qed.

Lemma read_polygon_write z m p rest :
  polygon_has_zm z m p = true -> polygon_well_formed p = true ->
  read_polygon z m (write_polygon p ++ rest) = Decoded p rest.
Proof.
  intros Hzm Hwf. unfold read_polygon, write_polygon.
  assert (Hflags : has_flags z m (polygon_has_z p) (polygon_has_m p) = true).
  { unfold polygon_has_zm in Hzm. apply andb_prop in Hzm. tauto. }
  destruct (has_flags_eq _ _ _ _ Hflags) as [Ez Em]. rewrite Ez, Em.
  cbn [app]. rewrite expect_tag_write. cbn [dbind].
  now apply read_rings_write.
Qed.

Lemma depth_item_le item items :
  In item items ->
  (depth item <= fold_right (fun item d => Nat.max (depth item) d) 0 items)%nat.
Proof.
  induction items as [|x items IH]; cbn; [tauto|].
  intros [->|Hin]; [lia|]. specialize (IH Hin). lia.
Qed.

(** An induction principle that reaches the items of a collection. *)
Lemma Geometry_nested_ind (P : Geometry -> Prop) :
  (forall p, P (GeomPoint p)) ->
  (forall l, P (GeomLineString l)) ->
  (forall p, P (GeomPolygon p)) ->
  (forall mp, P (GeomMultiPoint mp)) ->
  (forall ml, P (GeomMultiLineString ml)) ->
  (forall mp, P (GeomMultiPolygon mp)) ->
  (forall z m items, Forall P items -> P (GeomCollection z m items)) ->
  forall g, P g.
Proof.
  intros Hp Hl Hpoly Hmp Hml Hmpoly Hc.
  fix IH 1. intros g. destruct g as [p|l|p|mp|ml|mp|z m items].
  - apply Hp.
  - apply Hl.
  - apply Hpoly.
  - apply Hmp.
  - apply Hml.
  - apply Hmpoly.
  - apply Hc. induction items as [|x items IHitems]; constructor.
    + apply IH.
    + exact IHitems.
Qed.

Lemma read_geometry_write g :
  forall fuel z m parent rest,
    has_zm z m g = true -> well_formed g = true ->
    (parent = None \/ parent = Some (z, m)) ->
    (depth g <= fuel)%nat ->
    read_geometry fuel parent (write_geometry g ++ rest) = Decoded g rest.
Proof.
  induction g as [p|l|p|mp|ml|mp|z' m' items IH] using Geometry_nested_ind;
    intros fuel z m parent rest Hzm Hwf Hparent Hfuel;
    (destruct fuel as [|fuel]; [cbn in Hfuel; lia|]);
    assert (Hpar : match parent with
                   | Some (pz, pm) => negb (has_flags pz pm z m)
                   | None => false
                   end = false)
      by (destruct Hparent as [->| ->]; [reflexivity | now rewrite has_flags_refl]).
  - cbn [write_geometry read_geometry]. unfold write_point.
    cbn in Hzm. destruct (has_flags_eq _ _ _ _ Hzm) as [-> ->].
    cbn [app]. rewrite read_tag_write. cbn [dbind]. rewrite Hpar.
    rewrite read_vertices_write by assumption. cbn [dbind]. now destruct p.
  - cbn [write_geometry read_geometry]. unfold write_linestring.
    cbn in Hzm. destruct (has_flags_eq _ _ _ _ Hzm) as [-> ->].
    cbn [app]. rewrite read_tag_write. cbn [dbind]. rewrite Hpar.
    rewrite read_vertices_write by assumption. cbn [dbind]. now destruct l.
  - cbn [write_geometry read_geometry]. unfold write_polygon.
    cbn in Hzm, Hwf.
    assert (Hflags : has_flags z m (polygon_has_z p) (polygon_has_m p) = true)
      by (unfold polygon_has_zm in Hzm; apply andb_prop in Hzm; tauto).
    destruct (has_flags_eq _ _ _ _ Hflags) as [Ez Em]. rewrite Ez, Em.
    cbn [app]. rewrite read_tag_write. cbn [dbind]. rewrite Hpar.
    rewrite read_rings_write by assumption. reflexivity.
  - cbn [write_geometry read_geometry]. cbn in Hzm, Hwf.
    apply andb_prop in Hzm. destruct Hzm as [Hflags Hitems].
    apply andb_prop in Hwf. destruct Hwf as [Hfit Hwf].
    destruct (has_flags_eq _ _ _ _ Hflags) as [Ez Em]. rewrite Ez, Em.
    cbn [app]. rewrite read_tag_write. cbn [dbind]. rewrite Hpar.
    rewrite (read_counted_write (read_point z m) write_point); [|assumption|].
    + cbn [dbind]. destruct mp; cbn in *. now subst.
    + eapply Forall_checked; [exact Hitems | exact Hwf |]. intros x Hx Hw rest'.
      now apply read_point_write.
  - cbn [write_geometry read_geometry]. cbn in Hzm, Hwf.
    apply andb_prop in Hzm. destruct Hzm as [Hflags Hitems].
    apply andb_prop in Hwf. destruct Hwf as [Hfit Hwf].
    destruct (has_flags_eq _ _ _ _ Hflags) as [Ez Em]. rewrite Ez, Em.
    cbn [app]. rewrite read_tag_write. cbn [dbind]. rewrite Hpar.
    rewrite (read_counted_write (read_linestring z m) write_linestring); [|assumption|].
    + cbn [dbind]. destruct ml; cbn in *. now subst.
    + eapply Forall_checked; [exact Hitems | exact Hwf |]. intros x Hx Hw rest'.
      now apply read_linestring_write.
  - cbn [write_geometry read_geometry]. cbn in Hzm, Hwf.
    apply andb_prop in Hzm. destruct Hzm as [Hflags Hitems].
    apply andb_prop in Hwf. destruct Hwf as [Hfit Hwf].
    destruct (has_flags_eq _ _ _ _ Hflags) as [Ez Em]. rewrite Ez, Em.
    cbn [app]. rewrite read_tag_write. cbn [dbind]. rewrite Hpar.
    rewrite (read_counted_write (read_polygon z m) write_polygon); [|assumption|].
    + cbn [dbind]. destruct mp; cbn in *. now subst.
    + eapply Forall_checked; [exact Hitems | exact Hwf |]. intros x Hx Hw rest'.
      now apply read_polygon_write.
  - cbn [write_geometry read_geometry]. cbn [has_zm well_formed] in Hzm, Hwf.
    apply andb_prop in Hzm. destruct Hzm as [Hflags Hitems].
    apply andb_prop in Hwf. destruct Hwf as [Hfit Hwf].
    destruct (has_flags_eq _ _ _ _ Hflags) as [-> ->].
    cbn [app]. rewrite read_tag_write. cbn [dbind]. rewrite Hpar.
    change (le_bytes 4 (Z.of_nat (List.length items)) ++ flat_map write_geometry items)
      with (write_counted write_geometry items).
    rewrite (read_counted_write (read_geometry fuel (Some (z, m))) write_geometry);
      [reflexivity | assumption |].
    rewrite forallb_forall in Hitems, Hwf.
    rewrite Forall_forall in IH |- *. intros item Hin rest'.
    apply (IH item Hin fuel z m (Some (z, m)) rest'); auto.
    pose proof (depth_item_le item items Hin). cbn [depth] in Hfuel. lia.
Qed.

Lemma depth_le_length g : (depth g <= List.length (write_geometry g))%nat.
Proof.
  induction g as [p|l|p|mp|ml|mp|z m items IH] using Geometry_nested_ind;
    try (cbn; lia).
  cbn [depth write_geometry List.length]. rewrite length_app, length_le_bytes.
  apply le_n_S.
  induction IH as [|x items Hx _ IHitems]; cbn; [lia|].
  rewrite length_app. lia.
Qed.

End Codec.

(* ================================================================== *)
(** * Lemmas: the reader seen from the bytes at its cursor             *)
(* ================================================================== *)

Local Open Scope nat_scope.

Lemma nth_error_remaining r : nth_error (input r) (cursor r) = hd_error (remaining r).
Proof.
  unfold remaining. generalize (cursor r) as n. generalize (input r) as l.
  induction l as [|x l IH]; intros [|n]; cbn; auto.
Qed.

Lemma remaining_shift r k :
  remaining (set_cursor (cursor r + k) r) = skipn k (remaining r).
Proof. unfold remaining. cbn. now rewrite skipn_skipn, Nat.add_comm. Qed.

Lemma set_cursor_set_cursor a b r : set_cursor a (set_cursor b r) = set_cursor a r.
Proof. reflexivity. Qed.

Lemma set_cursor_same r : set_cursor (cursor r) r = r.
Proof. now destruct r. Qed.

Lemma drop_space_idem s : space_run (drop_space s) = 0.
Proof.
  unfold drop_space. induction s as [|c s IH]; cbn; [reflexivity|].
  destruct (Ctype.isspace c) eqn:E; cbn; [exact IH | now rewrite E].
Qed.

Lemma remaining_succ r x rest :
  remaining r = x :: rest -> remaining (set_cursor (S (cursor r)) r) = rest.
Proof.
  intros E. replace (S (cursor r)) with (cursor r + 1) by lia.
  now rewrite remaining_shift, E.
Qed.

Lemma Match_view c r :
  Match c r
  = match remaining r with
    | [] => OutOfBoundsRead (cursor r)
    | x :: rest =>
        if Ascii.eqb x c
        then Ok (true, set_cursor (cursor r + (1 + space_run rest)) r)
        else Ok (false, r)
    end.
Proof.
  unfold Match, bind at 1, deref. rewrite nth_error_remaining.
  destruct (remaining r) as [|x rest] eqn:E; cbn [hd_error]; [reflexivity|].
  destruct (Ascii.eqb x c); [|reflexivity].
  unfold bind, advance, skip_space, ret.
  rewrite (remaining_succ r x rest E).
  cbn [cursor set_cursor]. rewrite set_cursor_set_cursor.
  do 2 f_equal. f_equal. lia.
Qed.

Lemma MatchCI_chars_view str :
  forall r,
    MatchCI_chars str r
    = match ci_prefix str (remaining r) with
      | CiMatched _ => Ok (true, set_cursor (cursor r + List.length str) r)
      | CiMismatch n => Ok (false, set_cursor (cursor r + n) r)
      | CiEnd n => OutOfBoundsRead (cursor r + n)
      end.
Proof.
  induction str as [|k str IH]; intros r.
  - cbn. now rewrite Nat.add_0_r, set_cursor_same.
  - cbn [MatchCI_chars ci_prefix]. unfold bind at 1, deref.
    rewrite nth_error_remaining.
    destruct (remaining r) as [|x rest] eqn:E; cbn [hd_error];
      [now rewrite Nat.add_0_r|].
    destruct (Ascii.eqb _ _).
    + unfold bind, advance. rewrite IH.
      replace (remaining (set_cursor (S (cursor r)) r)) with rest
        by (replace (S (cursor r)) with (cursor r + 1) by lia;
            now rewrite remaining_shift, E).
      cbn [cursor set_cursor List.length].
      destruct (ci_prefix str rest); rewrite ?set_cursor_set_cursor;
        rewrite Nat.add_succ_r; reflexivity.
    + cbn. now rewrite Nat.add_0_r, set_cursor_same.
Qed.

Lemma ci_prefix_matched str s rest :
  ci_prefix str s = CiMatched rest -> rest = skipn (List.length str) s.
Proof.
  revert s. induction str as [|k str IH]; intros s; cbn.
  - now intros [= ->].
  - destruct s as [|x s']; [discriminate|].
    destruct (Ascii.eqb _ _); [|discriminate].
    destruct (ci_prefix str s') eqn:E; try discriminate.
    intros [= ->]. now apply IH.
Qed.

Lemma MatchCI_view (str : string) r :
  MatchCI str r
  = match ci_prefix (list_ascii_of_string str) (remaining r) with
    | CiMatched rest =>
        Ok (true, set_cursor (cursor r + (String.length str + space_run rest)) r)
    | CiMismatch _ => Ok (false, r)
    | CiEnd n => OutOfBoundsRead (cursor r + n)
    end.
Proof.
  unfold MatchCI, bind at 1, get. unfold bind at 1. rewrite MatchCI_chars_view.
  destruct (ci_prefix _ _) as [rest|n|n] eqn:E; [| |reflexivity].
  - unfold bind, skip_space, ret. cbn [cursor set_cursor].
    rewrite remaining_shift, set_cursor_set_cursor.
    rewrite <- (ci_prefix_matched _ _ _ E).
    assert (Hlen : List.length (list_ascii_of_string str) = String.length str)
      by (clear; induction str; cbn; auto).
    rewrite Hlen, Nat.add_assoc. reflexivity.
  - unfold bind, move_to, ret. now rewrite set_cursor_set_cursor, set_cursor_same.
Qed.

Lemma from_chars_nil : fast_float.from_chars [] = None.
Proof. reflexivity. Qed.

Lemma TryParseDouble_view r :
  TryParseDouble r
  = match fast_float.from_chars (remaining r) with
    | Some (d, rest) =>
        Ok (Some d,
            set_cursor
              (cursor r + (List.length (remaining r) - List.length rest + space_run rest))
              r)
    | None => Ok (None, r)
    end.
Proof.
  unfold TryParseDouble, bind at 1, get.
  destruct (fast_float.from_chars (remaining r)) as [[d rest]|] eqn:E; [|reflexivity].
  pose proof (from_chars_sound _ _ _ E) as [Hsuf _].
  assert (Hne : remaining r <> []) by (intros H; rewrite H in E; discriminate).
  assert (Hlt : cursor r < end_ r).
  { unfold end_. destruct (Nat.lt_ge_cases (cursor r) (List.length (input r))); auto.
    elim Hne. unfold remaining. now apply skipn_all2. }
  pose proof (suffix_length _ _ Hsuf) as Hl.
  assert (Hrem : List.length (remaining r) = end_ r - cursor r)
    by (unfold remaining, end_; now rewrite length_skipn).
  unfold bind, move_to, skip_space, ret. cbn [cursor set_cursor].
  rewrite set_cursor_set_cursor.
  replace (end_ r - List.length rest)
    with (cursor r + (List.length (remaining r) - List.length rest)) by lia.
  rewrite remaining_shift.
  replace (skipn (List.length (remaining r) - List.length rest) (remaining r)) with rest
    by (symmetry; now apply suffix_skipn).
  rewrite Nat.add_assoc. reflexivity.
Qed.

(** ** Readers with the same view *)

Lemma same_view_refl r : same_view r r.
Proof. unfold same_view. auto. Qed.

Lemma same_view_shift r1 r2 k :
  same_view r1 r2 ->
  same_view (set_cursor (cursor r1 + k) r1) (set_cursor (cursor r2 + k) r2).
Proof.
  intros (Hr & Hz & Hm & Hs). unfold same_view.
  rewrite !remaining_shift, Hr. cbn. auto.
Qed.

Lemma follows_ret {A : Type} (a : A) : follows (ret a) (ret a).
Proof.
  intros r1 r2 a' r1' Hv H. injection H as <- <-.
  exists r2. split; [reflexivity | assumption].
Qed.

Lemma follows_bind {A B : Type} (m1 m2 : M A) (k1 k2 : A -> M B) :
  follows m1 m2 -> (forall a, follows (k1 a) (k2 a)) ->
  follows (bind m1 k1) (bind m2 k2).
Proof.
  intros Hm Hk r1 r2 b r1' Hv H. unfold bind in *.
  destruct (m1 r1) as [[a ra]| | |] eqn:E1; try discriminate.
  destruct (Hm _ _ _ _ Hv E1) as (rb & -> & Hv').
  eapply Hk; eauto.
Qed.

(** A computation that only reads the flags of the reader. *)
Lemma follows_construct {A : Type} (ctor : bool -> bool -> A) :
  follows (construct ctor) (construct ctor).
Proof.
  intros r1 r2 a r1' Hv H. unfold construct, bind, get, ret in *.
  injection H as <- <-. destruct Hv as (Hr & Hz & Hm & Hs).
  exists r2. rewrite Hz, Hm. split; [reflexivity|]. unfold same_view. auto.
Qed.

Lemma follows_flags {A : Type} (k1 k2 : reader -> M A) :
  (forall ra rb, has_z ra = has_z rb -> has_m ra = has_m rb ->
                 zm_set ra = zm_set rb -> follows (k1 ra) (k2 rb)) ->
  follows (bind get k1) (bind get k2).
Proof.
  intros Hk r1 r2 a r1' Hv H. unfold bind, get in *.
  destruct Hv as (Hr & Hz & Hm & Hs).
  eapply Hk; eauto. unfold same_view. auto.
Qed.

Lemma follows_never {A : Type} (m1 m2 : M A) :
  (forall r a r', m1 r <> Ok (a, r')) -> follows m1 m2.
Proof. intros H r1 r2 a r1' _ E. now apply H in E. Qed.

Lemma follows_Match c : follows (Match c) (Match c).
Proof.
  intros r1 r2 b r1' Hv. rewrite !Match_view.
  pose proof Hv as (Hr & _). rewrite <- Hr.
  destruct (remaining r1) as [|x rest]; [discriminate|].
  destruct (Ascii.eqb x c); intros [= <- <-]; eexists; split; try reflexivity.
  - now apply same_view_shift.
  - assumption.
Qed.

Lemma follows_MatchCI str : follows (MatchCI str) (MatchCI str).
Proof.
  intros r1 r2 b r1' Hv. rewrite !MatchCI_view.
  pose proof Hv as (Hr & _). rewrite <- Hr.
  destruct (ci_prefix _ _); [| |discriminate];
    intros [= <- <-]; eexists; split; try reflexivity.
  - now apply same_view_shift.
  - assumption.
Qed.

Lemma follows_TryParseDouble : follows TryParseDouble TryParseDouble.
Proof.
  intros r1 r2 b r1' Hv. rewrite !TryParseDouble_view.
  pose proof Hv as (Hr & _). rewrite <- Hr.
  destruct (fast_float.from_chars _) as [[d rest]|];
    intros [= <- <-]; eexists; split; try reflexivity.
  - now apply same_view_shift.
  - assumption.
Qed.

Lemma throw_after_context_never {A : Type} (mk : string -> string) r (a : A) r' :
  (ctx <- GetErrorContext ;; throw (mk ctx)) r <> Ok (a, r').
Proof. unfold bind, GetErrorContext, throw. discriminate. Qed.

Lemma follows_ParseDouble : follows ParseDouble ParseDouble.
Proof.
  unfold ParseDouble. apply follows_bind; [apply follows_TryParseDouble|].
  intros [d|]; [apply follows_ret|].
  apply follows_never. intros r a r'. apply throw_after_context_never.
Qed.

Lemma follows_Expect c : follows (Expect c) (Expect c).
Proof.
  unfold Expect. apply follows_bind; [apply follows_Match|].
  intros [|]; [apply follows_ret|].
  apply follows_never. intros r a r'. apply throw_after_context_never.
Qed.

Lemma follows_skip_space : follows skip_space skip_space.
Proof.
  intros r1 r2 [] r1' Hv [= <-]. eexists. split; [reflexivity|].
  pose proof Hv as (Hr & _). rewrite Hr. now apply same_view_shift.
Qed.

Create HintDb follows.
#[local] Hint Resolve follows_ret follows_Match follows_MatchCI follows_ParseDouble
  follows_Expect follows_construct follows_skip_space : follows.

(** Walks down a sequence of operations. *)
Ltac follows_steps :=
  repeat match goal with
  | |- follows (ret _) (ret _) => apply follows_ret
  | |- follows (bind _ _) (bind _ _) => apply follows_bind; [|intros ?]
  | |- follows (if ?b then _ else _) (if ?b then _ else _) => destruct b
  | |- follows _ _ => solve [auto with follows]
  end.

Lemma follows_ParseVertex coords : follows (ParseVertex coords) (ParseVertex coords).
Proof.
  unfold ParseVertex. apply follows_flags. intros ra rb -> -> _.
  follows_steps.
Qed.

#[local] Hint Resolve follows_ParseVertex : follows.

Lemma follows_comma_loop {A : Type} (body1 body2 : A -> M A) n :
  (forall acc, follows (body1 acc) (body2 acc)) ->
  forall m acc, n <= m -> follows (comma_loop n body1 acc) (comma_loop m body2 acc).
Proof.
  intros Hbody. induction n as [|n IH]; intros m acc Hle.
  - apply follows_never. intros r a r'. cbn. discriminate.
  - destruct m as [|m]; [lia|]. cbn [comma_loop].
    apply follows_bind; [apply follows_Match|]. intros [|]; [|apply follows_ret].
    apply follows_bind; [apply Hbody|]. intros acc'. apply IH. lia.
Qed.

(** The same walk, entering the comma loops. *)
Ltac follows_walk :=
  repeat match goal with
  | |- follows (bind GetErrorContext _) _ =>
      apply follows_never; intros ? ? ?;
      unfold bind, GetErrorContext, ParseWord, get, move_to, ret, throw; discriminate
  | |- follows (ret _) (ret _) => apply follows_ret
  | |- follows (bind _ _) (bind _ _) => apply follows_bind; [|intros ?]
  | |- follows (if ?b then _ else _) (if ?b then _ else _) => destruct b
  | |- follows (comma_loop _ _ _) (comma_loop _ _ _) =>
      apply follows_comma_loop; [intros ? | assumption]
  | |- follows _ _ => solve [auto with follows]
  end.

Lemma follows_ParseVertices n m :
  n <= m -> follows (ParseVertices n) (ParseVertices m).
Proof. intros Hle. unfold ParseVertices. follows_walk. Qed.

Lemma follows_ParsePoint : follows ParsePoint ParsePoint.
Proof. unfold ParsePoint. follows_walk. Qed.

#[local] Hint Resolve follows_ParseVertices follows_ParsePoint : follows.

Lemma follows_ParseLineString n m :
  n <= m -> follows (ParseLineString n) (ParseLineString m).
Proof. intros Hle. unfold ParseLineString. follows_walk. Qed.

Lemma follows_ParsePolygon n m :
  n <= m -> follows (ParsePolygon n) (ParsePolygon m).
Proof. intros Hle. unfold ParsePolygon. follows_walk. Qed.

Lemma follows_ParseMultiPoint_item points :
  follows (ParseMultiPoint_item points) (ParseMultiPoint_item points).
Proof. unfold ParseMultiPoint_item. follows_walk. Qed.

#[local] Hint Resolve follows_ParseLineString follows_ParsePolygon
  follows_ParseMultiPoint_item : follows.

Lemma follows_ParseMultiPoint n m :
  n <= m -> follows (ParseMultiPoint n) (ParseMultiPoint m).
Proof. intros Hle. unfold ParseMultiPoint. follows_walk. Qed.

Lemma follows_ParseMultiLineString n m :
  n <= m -> follows (ParseMultiLineString n) (ParseMultiLineString m).
Proof. intros Hle. unfold ParseMultiLineString. follows_walk. Qed.

Lemma follows_ParseMultiPolygon n m :
  n <= m -> follows (ParseMultiPolygon n) (ParseMultiPolygon m).
Proof. intros Hle. unfold ParseMultiPolygon. follows_walk. Qed.

#[local] Hint Resolve follows_ParseMultiPoint follows_ParseMultiLineString
  follows_ParseMultiPolygon : follows.

Lemma follows_CheckZM : follows CheckZM CheckZM.
Proof.
  unfold CheckZM.
  apply follows_bind; [apply follows_Match|]. intros geom_has_z.
  apply follows_bind; [apply follows_Match|]. intros geom_has_m.
  apply follows_flags. intros ra rb -> -> ->.
  destruct (zm_set rb).
  - destruct (_ || _); [|apply follows_ret].
    apply follows_never. intros r x r'. apply throw_after_context_never.
  - intros r1 r2 [] r1' Hv [= <-]. eexists. split; [reflexivity|].
    destruct Hv as (Hr & _). unfold same_view, remaining in *. cbn. auto.
Qed.

Lemma follows_ParseGeometryCollection (item1 item2 : M Geometry) n m :
  follows item1 item2 -> n <= m ->
  follows (ParseGeometryCollection item1 n) (ParseGeometryCollection item2 m).
Proof. intros Hitem Hle. unfold ParseGeometryCollection. follows_walk. Qed.

#[local] Hint Resolve follows_CheckZM : follows.

Lemma follows_ParseGeometry n :
  forall m, n <= m -> follows (ParseGeometry n) (ParseGeometry m).
Proof.
  induction n as [|n IH]; intros m Hle.
  - apply follows_never. intros r a r'. cbn. discriminate.
  - destruct m as [|m]; [lia|]. assert (Hnm : n <= m) by lia.
    cbn [ParseGeometry]. follows_walk.
    apply follows_ParseGeometryCollection; auto.
Qed.

(* ================================================================== *)
(** * Lemmas: the SRID prefix                                          *)
(* ================================================================== *)

Lemma list_ascii_of_string_app (a b : string) :
  list_ascii_of_string (a ++ b) = (list_ascii_of_string a ++ list_ascii_of_string b)%list.
Proof. induction a as [|c a IH]; cbn; [reflexivity | now rewrite IH]. Qed.

Lemma MatchCI_first_mismatch k kw r c rest :
  remaining r = c :: rest ->
  Ascii.eqb (Ctype.tolower k) (Ctype.tolower c) = false ->
  MatchCI (String k kw) r = Ok (false, r).
Proof.
  intros E H. rewrite MatchCI_view, E. cbn [list_ascii_of_string ci_prefix].
  now rewrite H.
Qed.

Lemma keyword_initial_facts c :
  keyword_initial c = true ->
  Ctype.isspace c = false
  /\ Ascii.eqb (Ctype.tolower "S") (Ctype.tolower c) = false.
Proof.
  destruct c as [[] [] [] [] [] [] [] []]; vm_compute; intros H;
    first [discriminate H | split; reflexivity].
Qed.

Lemma not_keyword_initial c :
  keyword_initial c = false ->
  Ascii.eqb (Ctype.tolower "P") (Ctype.tolower c) = false
  /\ Ascii.eqb (Ctype.tolower "L") (Ctype.tolower c) = false
  /\ Ascii.eqb (Ctype.tolower "M") (Ctype.tolower c) = false
  /\ Ascii.eqb (Ctype.tolower "G") (Ctype.tolower c) = false.
Proof.
  destruct c as [[] [] [] [] [] [] [] []]; vm_compute; intros H;
    first [discriminate H | repeat split; reflexivity].
Qed.

(** A geometry starts with the first letter of a keyword. *)
Lemma ParseGeometry_first n r g r' :
  ParseGeometry n r = Ok (g, r') ->
  exists c rest, remaining r = c :: rest /\ keyword_initial c = true.
Proof.
  destruct n as [|n]; [discriminate|]. cbn [ParseGeometry].
  destruct (remaining r) as [|c rest] eqn:E.
  - unfold bind at 1. rewrite MatchCI_view, E. discriminate.
  - intros H. exists c, rest. split; [reflexivity|].
    destruct (keyword_initial c) eqn:K; [reflexivity|].
    destruct (not_keyword_initial c K) as (Hp & Hl & Hm & Hg).
    exfalso. revert H. unfold bind.
    rewrite (MatchCI_first_mismatch "P" _ r c rest E Hp).
    rewrite (MatchCI_first_mismatch "L" _ r c rest E Hl).
    rewrite (MatchCI_first_mismatch "P" _ r c rest E Hp).
    rewrite !(MatchCI_first_mismatch "M" _ r c rest E Hm).
    rewrite (MatchCI_first_mismatch "G" _ r c rest E Hg).
    unfold GetErrorContext, ParseWord, get, move_to, ret, throw. discriminate.
Qed.

Lemma not_semicolon_run_app t W :
  no_semicolon t = true -> not_semicolon_run (t ++ ";"%char :: W) = List.length t.
Proof.
  induction t as [|c t IH]; cbn; [reflexivity|].
  intros H. apply andb_prop in H. destruct H as [Hc Ht].
  destruct (Ascii.eqb c ";"); [discriminate|]. now rewrite IH.
Qed.

(** Skipping the white space after SRID and then everything up to the
    semicolon stops at the semicolon. *)
Lemma skip_to_semicolon t W :
  no_semicolon t = true ->
  space_run (t ++ ";"%char :: W)
  + not_semicolon_run (skipn (space_run (t ++ ";"%char :: W)) (t ++ ";"%char :: W))
  = List.length t.
Proof.
  induction t as [|c t IH]; intros H.
  - reflexivity.
  - pose proof H as H'. cbn in H'. apply andb_prop in H'. destruct H' as [Hc Ht].
    cbn [app space_run]. destruct (Ctype.isspace c).
    + cbn [skipn Nat.add List.length]. now rewrite IH.
    + cbn [skipn Nat.add].
      change (c :: t ++ ";"%char :: W) with ((c :: t) ++ ";"%char :: W).
      now apply not_semicolon_run_app.
Qed.

Lemma skipn_app_exact {A : Type} (a b : list A) : skipn (List.length a) (a ++ b) = b.
Proof. induction a; cbn; auto. Qed.

Lemma skipn_srid_prefix (t w : list ascii) (a b c d e : ascii) :
  skipn (5 + List.length t) (a :: b :: c :: d :: t ++ e :: w) = w.
Proof.
  change (5 + List.length t) with (S (S (S (S (S (List.length t)))))).
  cbn [skipn]. induction t as [|x t IH]; cbn; auto.
Qed.

(** The reader of [ParseWKT] after an SRID prefix: at the body. *)
Lemma ParseWKT_srid_prefix fuel r t W :
  remaining r = ("S"%char :: "R"%char :: "I"%char :: "D"%char :: t ++ ";"%char :: W) ->
  no_semicolon t = true ->
  space_run W = 0 ->
  ParseWKT fuel r
  = ParseGeometry fuel (set_cursor (cursor r + (5 + List.length t)) r).
Proof.
  intros E Ht HW. unfold ParseWKT. unfold bind at 1.
  rewrite MatchCI_view, E. cbn [list_ascii_of_string ci_prefix].
  change (Ascii.eqb (Ctype.tolower "S") (Ctype.tolower "S")) with true.
  change (Ascii.eqb (Ctype.tolower "R") (Ctype.tolower "R")) with true.
  change (Ascii.eqb (Ctype.tolower "I") (Ctype.tolower "I")) with true.
  change (Ascii.eqb (Ctype.tolower "D") (Ctype.tolower "D")) with true.
  cbv iota. cbn [String.length].
  set (k := space_run (t ++ ";"%char :: W)).
  set (r1 := set_cursor (cursor r + (4 + k)) r).
  assert (E1 : remaining r1 = skipn k (t ++ ";"%char :: W)).
  { unfold r1. rewrite remaining_shift, E.
    replace (4 + k) with (k + 4) by lia. rewrite <- skipn_skipn. reflexivity. }
  unfold bind at 1. unfold bind at 1, get. unfold bind at 1, move_to.
  rewrite E1.
  set (j := not_semicolon_run (skipn k (t ++ ";"%char :: W))).
  assert (Hkj : k + j = List.length t) by (apply skip_to_semicolon; assumption).
  set (r2 := set_cursor (cursor r1 + j) r1).
  assert (E2 : remaining r2 = ";"%char :: W).
  { unfold r2. rewrite remaining_shift, E1, skipn_skipn.
    replace (j + k) with (List.length t) by lia. apply skipn_app_exact. }
  unfold bind at 1. unfold Expect, bind at 1. rewrite Match_view, E2.
  change (Ascii.eqb ";" ";") with true. cbv iota. unfold ret at 1.
  rewrite HW.
  set (r3 := set_cursor (cursor r2 + (1 + 0)) r2).
  assert (E3 : remaining r3 = W).
  { unfold r3. rewrite remaining_shift, E2. reflexivity. }
  unfold skip_space. rewrite E3, HW.
  f_equal. unfold r3, r2, r1. cbn [cursor set_cursor].
  rewrite !set_cursor_set_cursor. f_equal. lia.
Qed.

Lemma isdigit_no_semicolon ds :
  forallb Ctype.isdigit ds = true -> no_semicolon ds = true.
Proof.
  unfold no_semicolon. induction ds as [|c ds IH]; cbn; [reflexivity|].
  intros H. apply andb_prop in H. destruct H as [Hc Hds].
  rewrite IH by assumption. rewrite andb_true_r.
  destruct c as [[] [] [] [] [] [] [] []]; try reflexivity; discriminate Hc.
Qed.

(** The general form of C6: any text without a semicolon between SRID
    and the semicolon is discarded. *)
Lemma srid_text_is_discarded (t W : string) (g : Geometry) :
  no_semicolon (list_ascii_of_string t) = true ->
  ParseBody W = Ok g ->
  Parse W = Ok g /\ Parse ("SRID" ++ t ++ ";" ++ W) = Ok g.
Proof.
  intros Ht. unfold ParseBody.
  set (w := list_ascii_of_string W).
  set (r0 := mkReader w 0 false false false).
  destruct (ParseGeometry (S (List.length w)) r0) as [[g0 r0']| | |] eqn:EG;
    try discriminate.
  intros [= ->].
  destruct (ParseGeometry_first _ _ _ _ EG) as (c & rest & Er0 & Kc).
  destruct (keyword_initial_facts c Kc) as [Hsp Hs].
  assert (Ew : w = c :: rest) by exact Er0.
  split.
  - unfold Parse. fold w. fold r0. unfold ParseWKT, bind at 1.
    rewrite (MatchCI_first_mismatch "S" _ r0 c rest Er0 Hs).
    unfold bind at 1, ret at 1. now rewrite EG.
  - unfold Parse.
    rewrite !list_ascii_of_string_app. fold w.
    set (bytes := (list_ascii_of_string "SRID" ++ list_ascii_of_string t
                   ++ list_ascii_of_string ";" ++ w)%list).
    set (r := mkReader bytes 0 false false false).
    assert (HW : space_run w = 0) by (rewrite Ew; cbn; now rewrite Hsp).
    rewrite (ParseWKT_srid_prefix _ r (list_ascii_of_string t) w);
      [|reflexivity | assumption | assumption].
    set (r1 := set_cursor _ r).
    assert (Hv : same_view r0 r1).
    { unfold same_view. repeat split; try reflexivity.
      unfold r1. rewrite remaining_shift.
      change (remaining r)
        with ("S"%char :: "R"%char :: "I"%char :: "D"%char
              :: list_ascii_of_string t ++ ";"%char :: w).
      now rewrite skipn_srid_prefix. }
    assert (Hle : S (List.length w) <= S (List.length bytes)).
    { unfold bytes. rewrite !length_app. lia. }
    destruct (follows_ParseGeometry _ _ Hle r0 r1 g r0' Hv EG) as (r1' & -> & _).
    reflexivity.
Qed.

(* ================================================================== *)
(** * Lemmas: number tokens followed by a delimiter                    *)
(* ================================================================== *)

Section Tokens.

Import fast_float.

Variable d : ascii.
Variable rest : list ascii.
Hypothesis d_delimiter : is_delimiter d = true.

Lemma delimiter_cases : d = " "%char \/ d = ","%char \/ d = ")"%char.
Proof.
  unfold is_delimiter in d_delimiter.
  destruct (Ascii.eqb_spec d " "); [auto|].
  destruct (Ascii.eqb_spec d ","); [auto|].
  destruct (Ascii.eqb_spec d ")"); [auto|]. discriminate.
Qed.

(** Goals about the delimiter are settled on the three bytes. *)
Ltac by_delimiter :=
  destruct delimiter_cases as [-> | [-> | ->]]; reflexivity.

Lemma span_digits_app s ds r :
  span_digits s = (ds, r) -> span_digits (s ++ d :: rest) = (ds, r ++ d :: rest).
Proof.
  assert (Hd : Ctype.isdigit d = false) by by_delimiter.
  revert ds r. induction s as [|c s IH]; intros ds r H.
  - cbn in H. injection H as <- <-. cbn. now rewrite Hd.
  - cbn in H |- *. destruct (Ctype.isdigit c).
    + destruct (span_digits s) as [ds' r'] eqn:E. injection H as <- <-.
      now rewrite (IH _ _ eq_refl).
    + now injection H as <- <-.
Qed.

Lemma strip_minus_app s :
  strip_minus (s ++ d :: rest)
  = (fst (strip_minus s), snd (strip_minus s) ++ d :: rest).
Proof.
  destruct s as [|c s].
  - destruct delimiter_cases as [-> | [-> | ->]]; reflexivity.
  - destruct c as [[] [] [] [] [] [] [] []]; reflexivity.
Qed.

Lemma exponent_sign_app s :
  exponent_sign (s ++ d :: rest)
  = (fst (exponent_sign s), snd (exponent_sign s) ++ d :: rest).
Proof.
  destruct s as [|c s].
  - destruct delimiter_cases as [-> | [-> | ->]]; reflexivity.
  - destruct c as [[] [] [] [] [] [] [] []]; reflexivity.
Qed.

Lemma fraction_app s fp r :
  fraction s = (fp, r) -> fraction (s ++ d :: rest) = (fp, r ++ d :: rest).
Proof.
  destruct s as [|c s].
  - cbn. intros [= <- <-].
    destruct delimiter_cases as [-> | [-> | ->]]; reflexivity.
  - destruct (ascii_dec c ".") as [->|Hc].
    + cbn. apply span_digits_app.
    + intros H.
      assert (E : forall t, fraction (c :: t) = ([], c :: t)).
      { intros t. destruct c as [[] [] [] [] [] [] [] []]; try reflexivity.
        now elim Hc. }
      rewrite E in H. injection H as <- <-. cbn [app]. apply E.
Qed.

Lemma parse_exponent_app s e r :
  parse_exponent s = (e, r) -> parse_exponent (s ++ d :: rest) = (e, r ++ d :: rest).
Proof.
  assert (He : Ascii.eqb (Ctype.tolower d) "e" = false) by by_delimiter.
  destruct s as [|c t].
  - cbn. intros [= <- <-]. now rewrite He.
  - cbn [app parse_exponent]. destruct (Ascii.eqb (Ctype.tolower c) "e").
    + rewrite exponent_sign_app.
      destruct (exponent_sign t) as [eneg t1]. cbn [fst snd].
      destruct (span_digits t1) as [ed t2] eqn:E.
      rewrite (span_digits_app _ _ _ E).
      destruct ed; now intros [= <- <-].
    + now intros [= <- <-].
Qed.

Lemma parse_number_string_app s :
  parse_number_string (s ++ d :: rest)
  = match parse_number_string s with
    | Some (v, r) => Some (v, r ++ d :: rest)
    | None => None
    end.
Proof.
  unfold parse_number_string. rewrite strip_minus_app.
  destruct (strip_minus s) as [neg s1]. cbn [fst snd].
  destruct (span_digits s1) as [ip s2] eqn:E2. rewrite (span_digits_app _ _ _ E2).
  destruct (fraction s2) as [fp s3] eqn:E3. rewrite (fraction_app _ _ _ E3).
  destruct (ip ++ fp)%list; [reflexivity|].
  destruct (parse_exponent s3) as [e s4] eqn:E4. now rewrite (parse_exponent_app _ _ _ E4).
Qed.

Lemma strncasecmp_app word s r :
  strncasecmp s word = Some r -> strncasecmp (s ++ d :: rest) word = Some (r ++ d :: rest).
Proof.
  revert s. induction word as [|w word IH]; intros s; cbn.
  - now intros [= ->].
  - destruct s as [|c t]; [discriminate|]. cbn.
    destruct (Ascii.eqb _ _); [apply IH | discriminate].
Qed.

(** A keyword that the token does not spell is not completed by the
    delimiter. *)
Lemma strncasecmp_app_none word s :
  forallb Ctype.isalpha word = true ->
  strncasecmp s word = None -> strncasecmp (s ++ d :: rest) word = None.
Proof.
  revert s. induction word as [|w word IH]; intros s Hw; cbn; [discriminate|].
  cbn in Hw. apply andb_prop in Hw. destruct Hw as [Hw Hword].
  destruct s as [|c t].
  - intros _. cbn.
    replace (Ascii.eqb (Ctype.tolower d) w) with false; [reflexivity|].
    symmetry. apply Ascii.eqb_neq. intros <-.
    destruct delimiter_cases as [E | [E | E]]; rewrite E in Hw; discriminate Hw.
  - cbn. destruct (Ascii.eqb _ _); [now apply IH | reflexivity].
Qed.

Lemma nan_payload_app s r :
  nan_payload s = Some r -> nan_payload (s ++ d :: rest) = Some (r ++ d :: rest).
Proof.
  revert r. induction s as [|c t IH]; intros r; cbn; [discriminate|].
  destruct (Ascii.eqb c ")"); [now intros [= ->]|].
  destruct (is_nchar c); [apply IH | discriminate].
Qed.

Lemma after_nan_app r :
  after_nan r = [] -> after_nan (r ++ d :: rest) = d :: rest.
Proof.
  destruct r as [|c t].
  - intros _. destruct delimiter_cases as [-> | [-> | ->]]; reflexivity.
  - destruct (ascii_dec c "(") as [->|Hc].
    + cbn. destruct (nan_payload t) as [u|] eqn:E; [|discriminate].
      intros ->. now rewrite (nan_payload_app _ _ E).
    + intros H. exfalso.
      assert (E : after_nan (c :: t) = c :: t).
      { destruct c as [[] [] [] [] [] [] [] []]; try reflexivity. now elim Hc. }
      rewrite E in H. discriminate.
Qed.

Lemma after_inf_app r :
  after_inf r = [] -> after_inf (r ++ d :: rest) = d :: rest.
Proof.
  unfold after_inf.
  destruct (strncasecmp r (list_ascii_of_string "inity")) as [u|] eqn:E.
  - intros ->. now rewrite (strncasecmp_app _ _ _ E).
  - intros ->.
    now rewrite (strncasecmp_app_none (list_ascii_of_string "inity") [] eq_refl E).
Qed.

Lemma parse_infnan_token s v :
  parse_infnan s = Some (v, []) -> parse_infnan (s ++ d :: rest) = Some (v, d :: rest).
Proof.
  unfold parse_infnan. rewrite strip_minus_app.
  destruct (strip_minus s) as [neg s1]. cbn [fst snd].
  destruct (strncasecmp s1 (list_ascii_of_string "nan")) as [r|] eqn:Enan.
  - rewrite (strncasecmp_app _ _ _ Enan).
    intros H. assert (Hv : v = Double.with_sign neg Double.quiet_nan) by congruence.
    assert (Hr : after_nan r = []) by congruence.
    now rewrite (after_nan_app r Hr), Hv.
  - rewrite (strncasecmp_app_none (list_ascii_of_string "nan") s1 eq_refl Enan).
    destruct (strncasecmp s1 (list_ascii_of_string "inf")) as [r|] eqn:Einf;
      [|discriminate].
    rewrite (strncasecmp_app _ _ _ Einf).
    intros H. assert (Hv : v = Double.with_sign neg Double.infinity) by congruence.
    assert (Hr : after_inf r = []) by congruence.
    now rewrite (after_inf_app r Hr), Hv.
Qed.

(** A number token is read the same way when a delimiter follows it. *)
Lemma from_chars_token t :
  is_number_token t = true ->
  from_chars (t ++ d :: rest) = Some (token_value t, d :: rest).
Proof.
  unfold is_number_token, token_value, from_chars.
  rewrite parse_number_string_app.
  destruct (parse_number_string t) as [[v r]|].
  - destruct r; [reflexivity | discriminate].
  - destruct (parse_infnan t) as [[v r]|] eqn:E; [|discriminate].
    destruct r; [|discriminate]. intros _. now apply parse_infnan_token.
Qed.

End Tokens.

(** A number token starts with a byte that is neither white space nor
    a parenthesis nor a comma. *)
Lemma token_first t :
  is_number_token t = true ->
  exists c t', t = c :: t'
    /\ Ctype.isspace c = false
    /\ Ascii.eqb c "(" = false /\ Ascii.eqb c "," = false /\ Ascii.eqb c ")" = false.
Proof.
  unfold is_number_token. destruct t as [|c t']; [discriminate|].
  intros H. exists c, t'. split; [reflexivity|].
  destruct (Ctype.isspace c || Ascii.eqb c "(" || Ascii.eqb c "," || Ascii.eqb c ")")
    eqn:E.
  - exfalso.
    assert (N : fast_float.from_chars (c :: t') = None).
    { destruct c as [[] [] [] [] [] [] [] []]; try discriminate E; reflexivity. }
    now rewrite N in H.
  - apply orb_false_elim in E. destruct E as [E E3].
    apply orb_false_elim in E. destruct E as [E E2].
    apply orb_false_elim in E. destruct E as [E0 E1]. auto.
Qed.

(* ================================================================== *)
(** * Lemmas: running the reader over the text of a multipoint         *)
(* ================================================================== *)

Lemma runs_ret {A : Type} (a : A) r (P : reader -> Prop) : P r -> runs (ret a) r a P.
Proof. intros H. exists r. auto. Qed.

Lemma runs_bind {A B : Type} (m : M A) (k : A -> M B) r a b
    (P Q : reader -> Prop) :
  runs m r a P -> (forall r', P r' -> runs (k a) r' b Q) -> runs (bind m k) r b Q.
Proof.
  intros (r1 & E & H1) Hk. destruct (Hk r1 H1) as (r2 & E2 & H2).
  exists r2. unfold bind. rewrite E. auto.
Qed.

Lemma runs_weaken {A : Type} (m : M A) r a (P Q : reader -> Prop) :
  runs m r a P -> (forall r', P r' -> Q r') -> runs m r a Q.
Proof. intros (r1 & E & H) HPQ. exists r1. auto. Qed.

Lemma runs_get {A : Type} (k : reader -> M A) r a (P : reader -> Prop) :
  runs (k r) r a P -> runs (bind get k) r a P.
Proof. intros H. exact H. Qed.

Lemma at_shift s z m r k :
  at_ s z m r -> at_ (skipn k s) z m (set_cursor (cursor r + k) r).
Proof.
  intros (E & Hz & Hm & Hs). unfold at_. rewrite remaining_shift, E. cbn. auto.
Qed.

Lemma drop_space_nonspace c s : Ctype.isspace c = false -> drop_space (c :: s) = c :: s.
Proof. intros H. unfold drop_space. cbn. now rewrite H. Qed.

Lemma drop_space_space s : drop_space (" "%char :: s) = drop_space s.
Proof. reflexivity. Qed.

Lemma runs_Match_hit c s z m r :
  at_ (c :: s) z m r -> runs (Match c) r true (at_ (drop_space s) z m).
Proof.
  intros H. pose proof H as (E & _). eexists. rewrite Match_view, E, Ascii.eqb_refl.
  split; [reflexivity|].
  apply (at_shift _ _ _ _ (1 + space_run s)) in H. exact H.
Qed.

Lemma runs_Match_miss c x s z m r :
  at_ (x :: s) z m r -> Ascii.eqb x c = false ->
  runs (Match c) r false (at_ (x :: s) z m).
Proof.
  intros H Hx. pose proof H as (E & _). exists r. rewrite Match_view, E, Hx. auto.
Qed.

Lemma runs_Expect c s z m r :
  at_ (c :: s) z m r -> runs (Expect c) r tt (at_ (drop_space s) z m).
Proof.
  intros H. unfold Expect.
  eapply runs_bind; [apply runs_Match_hit; exact H|].
  intros r' H'. now apply runs_ret.
Qed.

Lemma runs_construct {A : Type} (ctor : bool -> bool -> A) s z m r :
  at_ s z m r -> runs (construct ctor) r (ctor z m) (at_ s z m).
Proof.
  intros H. pose proof H as (_ & Hz & Hm & _). exists r.
  unfold construct, bind, get, ret. cbv beta iota. rewrite Hz, Hm. auto.
Qed.

Lemma runs_ParseDouble t d s z m r :
  is_number_token t = true -> is_delimiter d = true ->
  at_ (t ++ d :: s) z m r ->
  runs ParseDouble r (token_value t) (at_ (drop_space (d :: s)) z m).
Proof.
  intros Ht Hd H. pose proof H as (E & _).
  unfold ParseDouble. eapply runs_bind with (a := Some (token_value t));
    [|intros r' H'; apply runs_ret; exact H'].
  eexists. rewrite TryParseDouble_view, E, (from_chars_token d s Hd t Ht).
  split; [reflexivity|].
  apply (at_shift _ _ _ _
           (List.length (t ++ d :: s) - List.length (d :: s) + space_run (d :: s))) in H.
  replace (skipn (List.length (t ++ d :: s) - List.length (d :: s) + space_run (d :: s))
             (t ++ d :: s))
    with (drop_space (d :: s)) in H; [exact H|].
  unfold drop_space. rewrite Nat.add_comm, <- skipn_skipn. f_equal.
  rewrite length_app.
  replace (List.length t + List.length (d :: s) - List.length (d :: s))
    with (List.length t) by lia.
  symmetry. apply skipn_app_exact.
Qed.

Lemma drop_space_token t x :
  is_number_token t = true -> drop_space (" "%char :: t ++ x) = t ++ x.
Proof.
  intros Ht. destruct (token_first t Ht) as (c & t' & -> & Hsp & _).
  rewrite drop_space_space. now apply drop_space_nonspace.
Qed.

Lemma delimiter_space : is_delimiter " " = true.
Proof. reflexivity. Qed.

(** A vertex of the reader's dimension, followed by a comma or a
    closing parenthesis. *)
Lemma runs_ParseVertex v d s z m r :
  is_vertex z m v = true ->
  is_delimiter d = true -> Ctype.isspace d = false ->
  at_ (vertex_text v ++ d :: s) z m r ->
  runs (ParseVertex []) r (map token_value v) (at_ (d :: s) z m).
Proof.
  intros Hv Hd Hsp H. pose proof H as (_ & Hz & Hm & _).
  unfold is_vertex in Hv. apply andb_prop in Hv. destruct Hv as [Hlen Htok].
  apply Nat.eqb_eq in Hlen.
  unfold ParseVertex. apply runs_get. rewrite Hz, Hm.
  assert (Step : forall t x r1,
             is_number_token t = true ->
             at_ (t ++ " "%char :: x) z m r1 ->
             forall t2, is_number_token t2 = true -> forall y, x = t2 ++ y ->
             runs ParseDouble r1 (token_value t) (at_ (t2 ++ y) z m)).
  { intros t x r1 Ht H1 t2 Ht2 y ->.
    eapply runs_weaken; [apply (runs_ParseDouble t " " _ z m r1 Ht delimiter_space H1)|].
    intros r' H'. now rewrite drop_space_token in H'. }
  assert (Last : forall t r1,
             is_number_token t = true ->
             at_ (t ++ d :: s) z m r1 ->
             runs ParseDouble r1 (token_value t) (at_ (d :: s) z m)).
  { intros t r1 Ht H1.
    eapply runs_weaken; [apply (runs_ParseDouble t d s z m r1 Ht Hd H1)|].
    intros r' H'. now rewrite drop_space_nonspace in H'. }
  destruct z, m; cbn in Hlen.
  - destruct v as [|t1 [|t2 [|t3 [|t4 [|]]]]]; try discriminate Hlen.
    cbn in Htok. repeat (apply andb_prop in Htok; destruct Htok as [? Htok]).
    unfold vertex_text in H. cbn [join] in H.
    repeat (rewrite <- app_assoc in H; cbn [app] in H).
    eapply runs_bind; [refine (Step t1 _ r _ H t2 _ _ eq_refl); assumption|].
    intros r1 K1.
    eapply runs_bind; [refine (Step t2 _ r1 _ K1 t3 _ _ eq_refl); assumption|].
    intros r2 K2.
    eapply runs_bind; [refine (Step t3 _ r2 _ K2 t4 _ _ eq_refl); assumption|].
    intros r3 K3.
    eapply runs_bind; [refine (Last t4 r3 _ K3); assumption|].
    intros r4 K4.
    now apply runs_ret.
  - destruct v as [|t1 [|t2 [|t3 [|]]]]; try discriminate Hlen.
    cbn in Htok. repeat (apply andb_prop in Htok; destruct Htok as [? Htok]).
    unfold vertex_text in H. cbn [join] in H.
    repeat (rewrite <- app_assoc in H; cbn [app] in H).
    eapply runs_bind; [refine (Step t1 _ r _ H t2 _ _ eq_refl); assumption|].
    intros r1 K1.
    eapply runs_bind; [refine (Step t2 _ r1 _ K1 t3 _ _ eq_refl); assumption|].
    intros r2 K2.
    eapply runs_bind; [refine (Last t3 r2 _ K2); assumption|].
    intros r3 K3.
    eapply runs_bind; [apply runs_ret; exact K3|].
    intros r4 K4.
    now apply runs_ret.
  - destruct v as [|t1 [|t2 [|t3 [|]]]]; try discriminate Hlen.
    cbn in Htok. repeat (apply andb_prop in Htok; destruct Htok as [? Htok]).
    unfold vertex_text in H. cbn [join] in H.
    repeat (rewrite <- app_assoc in H; cbn [app] in H).
    eapply runs_bind; [refine (Step t1 _ r _ H t2 _ _ eq_refl); assumption|].
    intros r1 K1.
    eapply runs_bind; [refine (Step t2 _ r1 _ K1 t3 _ _ eq_refl); assumption|].
    intros r2 K2.
    eapply runs_bind; [apply runs_ret; exact K2|].
    intros r3 K3.
    eapply runs_bind; [refine (Last t3 r3 _ K3); assumption|].
    intros r4 K4.
    now apply runs_ret.
  - destruct v as [|t1 [|t2 [|]]]; try discriminate Hlen.
    cbn in Htok. repeat (apply andb_prop in Htok; destruct Htok as [? Htok]).
    unfold vertex_text in H. cbn [join] in H.
    repeat (rewrite <- app_assoc in H; cbn [app] in H).
    eapply runs_bind; [refine (Step t1 _ r _ H t2 _ _ eq_refl); assumption|].
    intros r1 K1.
    eapply runs_bind; [refine (Last t2 r1 _ K1); assumption|].
    intros r2 K2.
    eapply runs_bind; [apply runs_ret; exact K2|].
    intros r3 K3.
    eapply runs_bind; [apply runs_ret; exact K3|].
    intros r4 K4.
    now apply runs_ret.
Qed.

Lemma vertex_first z m v :
  is_vertex z m v = true ->
  exists c x, vertex_text v = c :: x
              /\ Ctype.isspace c = false /\ Ascii.eqb c "(" = false.
Proof.
  unfold is_vertex. intros H. apply andb_prop in H. destruct H as [Hlen Htok].
  apply Nat.eqb_eq in Hlen.
  destruct v as [|t v]; [destruct z, m; discriminate Hlen|].
  cbn in Htok. apply andb_prop in Htok. destruct Htok as [Ht _].
  destruct (token_first t Ht) as (c & t' & -> & Hsp & Hp & _).
  unfold vertex_text. destruct v; cbn; eauto.
Qed.

Lemma Copy_vertex z m v :
  is_vertex z m v = true ->
  VertexArray.Copy (map token_value v) 1 z m = mkVertexArray z m 1 (map token_value v).
Proof.
  unfold is_vertex. intros H. apply andb_prop in H. destruct H as [Hlen _].
  apply Nat.eqb_eq in Hlen. unfold VertexArray.Copy. f_equal.
  apply firstn_all2. rewrite length_map, Hlen. cbn. lia.
Qed.

Lemma point_first z m pv :
  is_vertex z m (snd pv) = true ->
  exists c x, point_text pv = c :: x /\ Ctype.isspace c = false.
Proof.
  intros Hv. destruct pv as [[|] v]; unfold point_text; cbn [fst snd].
  - eauto.
  - destruct (vertex_first z m v Hv) as (c & x & -> & Hsp & _). eauto.
Qed.

(** One point, written either way, followed by a comma or a closing
    parenthesis. *)
Lemma runs_ParseMultiPoint_item points pv d s z m r :
  is_vertex z m (snd pv) = true ->
  is_delimiter d = true -> Ctype.isspace d = false ->
  at_ (point_text pv ++ d :: s) z m r ->
  runs (ParseMultiPoint_item points) r
    (points ++ [mkPoint (mkVertexArray z m 1 (map token_value (snd pv)))])
    (at_ (d :: s) z m).
Proof.
  intros Hv Hd Hsp H. destruct pv as [paren v]. cbn [fst snd] in *.
  destruct (vertex_first z m v Hv) as (c & x & Ev & Hc & Hparen).
  unfold ParseMultiPoint_item, point_text in *. cbn [fst snd] in H.
  destruct paren.
  - cbn [app] in H. rewrite <- app_assoc in H. cbn [app] in H.
    eapply runs_bind; [apply (runs_Match_hit _ _ _ _ _ H)|]. intros r1 K1.
    rewrite Ev in K1. cbn [app] in K1. rewrite drop_space_nonspace in K1 by exact Hc.
    change (c :: x ++ ")"%char :: d :: s) with ((c :: x) ++ ")"%char :: d :: s) in K1.
    rewrite <- Ev in K1.
    eapply runs_bind;
      [apply (runs_ParseVertex v ")" (d :: s) z m r1 Hv eq_refl eq_refl K1)|].
    intros r2 K2.
    eapply runs_bind; [apply (runs_Expect _ _ _ _ _ K2)|]. intros r3 K3.
    rewrite drop_space_nonspace in K3 by exact Hsp.
    eapply runs_bind; [apply (runs_construct _ _ _ _ _ K3)|]. intros r4 K4.
    cbv beta. rewrite (Copy_vertex z m v Hv). now apply runs_ret.
  - pose proof H as H'. rewrite Ev in H'. cbn [app] in H'.
    eapply runs_bind; [apply (runs_Match_miss "(" _ _ _ _ _ H' Hparen)|].
    intros r1 K1. change (c :: x ++ d :: s) with ((c :: x) ++ d :: s) in K1.
    rewrite <- Ev in K1.
    eapply runs_bind; [apply (runs_ParseVertex v d s z m r1 Hv Hd Hsp K1)|].
    intros r2 K2.
    eapply runs_bind; [apply runs_ret; exact K2|]. intros r3 K3.
    eapply runs_bind; [apply (runs_construct _ _ _ _ _ K3)|]. intros r4 K4.
    cbv beta. rewrite (Copy_vertex z m v Hv). now apply runs_ret.
Qed.

(** What follows a point is a comma or the closing parenthesis. *)
Lemma tail_head pvs s :
  exists d x, tail_text pvs ++ ")"%char :: s = d :: x
              /\ is_delimiter d = true /\ Ctype.isspace d = false.
Proof. destruct pvs as [|pv pvs]; cbn; eauto. Qed.

Lemma runs_comma_loop pvs :
  forall fuel points s z m r,
    forallb (fun pv => is_vertex z m (snd pv)) pvs = true ->
    List.length pvs < fuel ->
    at_ (tail_text pvs ++ ")"%char :: s) z m r ->
    runs (comma_loop fuel ParseMultiPoint_item points) r
      (points ++ map (fun pv => mkPoint (mkVertexArray z m 1 (map token_value (snd pv)))) pvs)
      (at_ (")"%char :: s) z m).
Proof.
  induction pvs as [|pv pvs IH]; intros fuel points s z m r Hv Hfuel H;
    (destruct fuel as [|fuel]; [cbn in Hfuel; lia|]); cbn [comma_loop].
  - cbn in H. eapply runs_bind; [apply (runs_Match_miss "," _ _ _ _ _ H eq_refl)|].
    intros r1 K1. cbn [map]. rewrite app_nil_r. now apply runs_ret.
  - cbn in Hv. apply andb_prop in Hv. destruct Hv as [Hpv Hpvs].
    cbn [tail_text app] in H. cbn [map].
    match goal with
    | |- runs _ _ (points ++ ?a :: ?l) _ =>
        replace (points ++ a :: l) with ((points ++ [a]) ++ l)
          by (now rewrite <- app_assoc)
    end.
    eapply runs_bind; [apply (runs_Match_hit _ _ _ _ _ H)|]. intros r1 K1.
    rewrite drop_space_space in K1.
    destruct (point_first z m pv Hpv) as (c & x & Ep & Hc).
    rewrite <- app_assoc in K1.
    pose proof K1 as K1'. rewrite Ep in K1'. cbn [app] in K1'.
    rewrite drop_space_nonspace in K1' by exact Hc.
    change (c :: x ++ tail_text pvs ++ ")"%char :: s)
      with ((c :: x) ++ tail_text pvs ++ ")"%char :: s) in K1'.
    rewrite <- Ep in K1'. clear K1.
    destruct (tail_head pvs s) as (d & y & Et & Hd & Hsp). rewrite Et in K1'.
    eapply runs_bind;
      [apply (runs_ParseMultiPoint_item points pv d y z m r1 Hpv Hd Hsp K1')|].
    intros r2 K2. rewrite <- Et in K2.
    eapply runs_weaken; [apply (IH fuel _ s z m r2 Hpvs); [cbn in Hfuel; lia | exact K2]|].
    intros r3 K3. exact K3.
Qed.

Lemma join_tail pv pvs :
  join [","%char; " "%char] (map point_text (pv :: pvs)) = point_text pv ++ tail_text pvs.
Proof.
  revert pv. induction pvs as [|pv' pvs IH]; intros pv.
  - cbn. now rewrite app_nil_r.
  - change (map point_text (pv :: pv' :: pvs))
      with (point_text pv :: map point_text (pv' :: pvs)).
    cbn [join]. change (map point_text (pv' :: pvs))
      with (point_text pv' :: map point_text pvs).
    change (point_text pv' :: map point_text pvs) with (map point_text (pv' :: pvs)).
    rewrite IH. reflexivity.
Qed.

Lemma tail_text_length pvs : List.length pvs <= List.length (tail_text pvs).
Proof.
  induction pvs as [|pv pvs IH]; cbn; [lia|]. rewrite length_app. lia.
Qed.

(** The body of a multipoint, from its opening parenthesis on. *)
Lemma runs_ParseMultiPoint pv pvs fuel s z m r :
  forallb (fun pv => is_vertex z m (snd pv)) (pv :: pvs) = true ->
  List.length pvs < fuel ->
  at_ ("("%char :: point_text pv ++ tail_text pvs ++ ")"%char :: s) z m r ->
  runs (ParseMultiPoint fuel) r
    (mkMultiPoint z m
       (map (fun pv => mkPoint (mkVertexArray z m 1 (map token_value (snd pv))))
            (pv :: pvs)))
    (at_ (drop_space s) z m).
Proof.
  intros Hv Hfuel H. pose proof H as (E & _).
  pose proof Hv as Hv'. cbn in Hv'. apply andb_prop in Hv'. destruct Hv' as [Hpv Hpvs].
  unfold ParseMultiPoint.
  eapply runs_bind with (a := false) (P := at_ _ z m).
  { exists r. split; [|exact H]. now apply (MatchCI_first_mismatch "E" _ r _ _ E). }
  intros r0 K0.
  eapply runs_bind; [apply (runs_Expect _ _ _ _ _ K0)|]. intros r1 K1.
  destruct (point_first z m pv Hpv) as (c & x & Ep & Hc).
  pose proof K1 as K1'. rewrite Ep in K1'. cbn [app] in K1'.
  rewrite drop_space_nonspace in K1' by exact Hc.
  change (c :: x ++ tail_text pvs ++ ")"%char :: s)
    with ((c :: x) ++ tail_text pvs ++ ")"%char :: s) in K1'.
  rewrite <- Ep in K1'. clear K1.
  destruct (tail_head pvs s) as (d & y & Et & Hd & Hsp). rewrite Et in K1'.
  eapply runs_bind;
    [apply (runs_ParseMultiPoint_item [] pv d y z m r1 Hpv Hd Hsp K1')|].
  intros r2 K2. rewrite <- Et in K2.
  eapply runs_bind; [apply (runs_comma_loop pvs fuel _ s z m r2 Hpvs Hfuel K2)|].
  intros r3 K3.
  eapply runs_bind; [apply (runs_Expect _ _ _ _ _ K3)|]. intros r4 K4.
  rewrite <- (FilledMultiPoint_points _ z m).
  apply (runs_construct (Ctor.FilledMultiPoint _) _ _ _ _ K4).
Qed.

Lemma Match_hit_eq c s r :
  remaining r = c :: s ->
  Match c r = Ok (true, set_cursor (cursor r + (1 + space_run s)) r).
Proof. intros E. now rewrite Match_view, E, Ascii.eqb_refl. Qed.

Lemma Match_miss_eq c x s r :
  remaining r = x :: s -> Ascii.eqb x c = false -> Match c r = Ok (false, r).
Proof. intros E H. now rewrite Match_view, E, H. Qed.

Lemma remaining_fix_zm z m r : remaining (fix_zm z m r) = remaining r.
Proof. reflexivity. Qed.

(** [CheckZM] on the first keyword, followed by its suffix and the
    opening parenthesis. *)
Lemma runs_CheckZM_first z m s r :
  remaining r = drop_space (zm_text z m ++ "("%char :: s) ->
  zm_set r = false ->
  runs CheckZM r tt (at_ ("("%char :: s) z m).
Proof.
  intros E Hs. unfold CheckZM, runs.
  destruct z, m.
  - (* ZM *)
    change (remaining r = "Z"%char :: "M"%char :: "("%char :: s) in E.
    unfold bind at 1. rewrite (Match_hit_eq _ _ _ E). cbn [space_run].
    change (Ctype.isspace "M") with false. cbv iota.
    set (r1 := set_cursor _ r).
    assert (E1 : remaining r1 = "M"%char :: "("%char :: s)
      by (unfold r1; now rewrite remaining_shift, E).
    unfold bind at 1. rewrite (Match_hit_eq _ _ _ E1). cbn [space_run].
    change (Ctype.isspace "(") with false. cbv iota.
    set (r2 := set_cursor _ r1).
    assert (E2 : remaining r2 = "("%char :: s)
      by (unfold r2; now rewrite remaining_shift, E1).
    unfold bind, get. change (zm_set r2) with (zm_set r). rewrite Hs.
    eexists. split; [reflexivity|]. unfold at_. now rewrite <- E2.
  - (* Z *)
    change (remaining r = "Z"%char :: "("%char :: s) in E.
    unfold bind at 1. rewrite (Match_hit_eq _ _ _ E). cbn [space_run].
    change (Ctype.isspace "(") with false. cbv iota.
    set (r1 := set_cursor _ r).
    assert (E1 : remaining r1 = "("%char :: s)
      by (unfold r1; now rewrite remaining_shift, E).
    unfold bind at 1. rewrite (Match_miss_eq "M" _ _ _ E1 eq_refl).
    unfold bind, get. change (zm_set r1) with (zm_set r). rewrite Hs.
    eexists. split; [reflexivity|]. unfold at_. now rewrite <- E1.
  - (* M *)
    change (remaining r = "M"%char :: "("%char :: s) in E.
    unfold bind at 1. rewrite (Match_miss_eq "Z" _ _ _ E eq_refl).
    unfold bind at 1. rewrite (Match_hit_eq _ _ _ E). cbn [space_run].
    change (Ctype.isspace "(") with false. cbv iota.
    set (r1 := set_cursor _ r).
    assert (E1 : remaining r1 = "("%char :: s)
      by (unfold r1; now rewrite remaining_shift, E).
    unfold bind, get. change (zm_set r1) with (zm_set r). rewrite Hs.
    eexists. split; [reflexivity|]. unfold at_. now rewrite <- E1.
  - (* XY *)
    change (remaining r = "("%char :: s) in E.
    unfold bind at 1. rewrite (Match_miss_eq "Z" _ _ _ E eq_refl).
    unfold bind at 1. rewrite (Match_miss_eq "M" _ _ _ E eq_refl).
    unfold bind, get. rewrite Hs.
    eexists. split; [reflexivity|]. unfold at_. now rewrite <- E.
Qed.

Lemma ci_prefix_multipoint rest :
  ci_prefix (list_ascii_of_string "MULTIPOINT")
    (list_ascii_of_string "MULTIPOINT" ++ rest)
  = CiMatched rest.
Proof. reflexivity. Qed.

(** The text of a non-empty multipoint parses to its tree, whichever
    points are written in parentheses. *)
Lemma Parse_multipoint_text z m pv pvs :
  forallb (fun pv => is_vertex z m (snd pv)) (pv :: pvs) = true ->
  Parse (multipoint_text z m (pv :: pvs))
  = Ok (multipoint_of z m (map snd (pv :: pvs))).
Proof.
  intros Hv. unfold Parse, multipoint_text.
  rewrite list_ascii_of_string_of_list_ascii, join_tail.
  rewrite <- !app_assoc.
  change ([")"%char]) with (")"%char :: []) at 1.
  set (body := point_text pv ++ tail_text pvs ++ ")"%char :: []).
  set (rest := zm_text z m ++ "("%char :: body).
  set (bytes := list_ascii_of_string "MULTIPOINT" ++ rest).
  set (r0 := mkReader bytes 0 false false false).
  assert (E0 : remaining r0 = "M"%char :: list_ascii_of_string "ULTIPOINT" ++ rest)
    by reflexivity.
  unfold ParseWKT. unfold bind at 1.
  rewrite (MatchCI_first_mismatch "S" _ r0 _ _ E0 eq_refl).
  unfold bind at 1, ret at 1. cbn [ParseGeometry].
  unfold bind at 1. rewrite (MatchCI_first_mismatch "P" _ r0 _ _ E0 eq_refl).
  unfold bind at 1. rewrite (MatchCI_first_mismatch "L" _ r0 _ _ E0 eq_refl).
  unfold bind at 1. rewrite (MatchCI_first_mismatch "P" _ r0 _ _ E0 eq_refl).
  unfold bind at 1. rewrite MatchCI_view.
  change (remaining r0) with (list_ascii_of_string "MULTIPOINT" ++ rest).
  rewrite ci_prefix_multipoint.
  set (r1 := set_cursor _ r0).
  assert (E1 : remaining r1 = drop_space rest).
  { unfold r1. rewrite remaining_shift.
    change (remaining r0) with (list_ascii_of_string "MULTIPOINT" ++ rest).
    change (String.length "MULTIPOINT") with (List.length (list_ascii_of_string "MULTIPOINT")).
    rewrite Nat.add_comm, <- skipn_skipn, skipn_app_exact. reflexivity. }
  destruct (runs_CheckZM_first z m body r1 E1 eq_refl) as (r2 & EC & K2).
  unfold bind at 1. rewrite EC.
  assert (Hfuel : List.length pvs < List.length bytes).
  { unfold bytes, rest, body. rewrite !length_app. cbn [List.length].
    rewrite !length_app. pose proof (tail_text_length pvs). lia. }
  destruct (runs_ParseMultiPoint pv pvs (List.length bytes) [] z m r2 Hv Hfuel K2)
    as (r3 & EP & _).
  unfold bind at 1. rewrite EP. unfold ret.
  unfold multipoint_of. now rewrite map_map.
Qed.

(* ================================================================== *)
(** * Lemmas: running the reader over the text of a polygon            *)
(* ================================================================== *)

(** ** Comma-lists *)

Section CommaList.

Context {A X : Type}.
Variable text : X -> list ascii.
Variable body : A -> M A.
Variable step : A -> X -> A.
Variable ok : X -> Prop.
Variables z m : bool.

Hypothesis text_first :
  forall x, ok x -> exists c t, text x = c :: t /\ Ctype.isspace c = false.

Hypothesis body_runs :
  forall acc x d s r,
    ok x -> is_delimiter d = true -> Ctype.isspace d = false ->
    at_ (text x ++ d :: s) z m r ->
    runs (body acc) r (step acc x) (at_ (d :: s) z m).

(** What follows an element is a comma or the closing parenthesis. *)
Lemma comma_tail_head (xs : list X) s :
  exists d y, comma_tail text xs ++ ")"%char :: s = d :: y
              /\ is_delimiter d = true /\ Ctype.isspace d = false.
Proof. destruct xs as [|x xs]; cbn; eauto. Qed.

Lemma runs_comma_list (xs : list X) :
  forall fuel acc s r,
    Forall ok xs ->
    List.length xs < fuel ->
    at_ (comma_tail text xs ++ ")"%char :: s) z m r ->
    runs (comma_loop fuel body acc) r (fold_left step xs acc) (at_ (")"%char :: s) z m).
Proof.
  induction xs as [|x xs IH]; intros fuel acc s r Hok Hfuel H;
    (destruct fuel as [|fuel]; [cbn in Hfuel; lia|]); cbn [comma_loop].
  - cbn in H. eapply runs_bind; [apply (runs_Match_miss "," _ _ _ _ _ H eq_refl)|].
    intros r1 K1. now apply runs_ret.
  - inversion Hok as [|? ? Hx Hxs]; subst.
    unfold comma_tail in H. cbn [flat_map app] in H. fold (comma_tail text xs) in H.
    cbn [fold_left].
    eapply runs_bind; [apply (runs_Match_hit _ _ _ _ _ H)|]. intros r1 K1.
    rewrite drop_space_space in K1.
    destruct (text_first x Hx) as (c & t & Et & Hc).
    rewrite <- app_assoc in K1.
    pose proof K1 as K1'. rewrite Et in K1'. cbn [app] in K1'.
    rewrite drop_space_nonspace in K1' by exact Hc.
    change (c :: t ++ comma_tail text xs ++ ")"%char :: s)
      with ((c :: t) ++ comma_tail text xs ++ ")"%char :: s) in K1'.
    rewrite <- Et in K1'. clear K1.
    destruct (comma_tail_head xs s) as (d & y & Ed & Hd & Hsp). rewrite Ed in K1'.
    eapply runs_bind; [apply (body_runs acc x d y r1 Hx Hd Hsp K1')|].
    intros r2 K2. rewrite <- Ed in K2.
    apply (IH fuel _ s r2 Hxs); [cbn in Hfuel; lia | exact K2].
Qed.

Lemma join_comma_tail x (xs : list X) :
  join [","%char; " "%char] (map text (x :: xs)) = text x ++ comma_tail text xs.
Proof.
  revert x. induction xs as [|x' xs IH]; intros x.
  - cbn. now rewrite app_nil_r.
  - change (map text (x :: x' :: xs)) with (text x :: map text (x' :: xs)).
    cbn [join]. change (map text (x' :: xs)) with (text x' :: map text xs).
    change (text x' :: map text xs) with (map text (x' :: xs)).
    rewrite IH. reflexivity.
Qed.

Lemma comma_tail_length (xs : list X) : List.length xs <= List.length (comma_tail text xs).
Proof.
  induction xs as [|x xs IH]; cbn; [lia|]. rewrite length_app. unfold comma_tail in IH. lia.
Qed.

Lemma comma_tail_element x (xs : list X) :
  In x xs -> List.length (text x) <= List.length (comma_tail text xs).
Proof.
  induction xs as [|x' xs IH]; intros Hin; [destruct Hin|].
  cbn. rewrite length_app. unfold comma_tail in IH.
  destruct Hin as [->|Hin]; [lia|]. specialize (IH Hin). lia.
Qed.

End CommaList.

Lemma fold_left_snoc {A X : Type} (f : X -> A) (xs : list X) :
  forall acc, fold_left (fun acc x => acc ++ [f x])%list xs acc = (acc ++ map f xs)%list.
Proof.
  induction xs as [|x xs IH]; intros acc; cbn; [now rewrite app_nil_r|].
  now rewrite IH, <- app_assoc.
Qed.

(** ** Vertices *)

(** [ParseVertex] appends to the coordinates it is given. *)
Lemma ParseVertex_append coords r :
  ParseVertex coords r = (c <- ParseVertex [] ;; ret (coords ++ c)%list)%reader r.
Proof.
  unfold ParseVertex, bind, get, ret.
  destruct (ParseDouble r) as [[x r1]|msg|pos|]; try reflexivity.
  destruct (ParseDouble r1) as [[y r2]|msg|pos|]; try reflexivity.
  destruct (has_z r), (has_m r); cbn [app].
  - destruct (ParseDouble r2) as [[z r3]|msg|pos|]; try reflexivity.
    destruct (ParseDouble r3) as [[m r4]|msg|pos|]; reflexivity.
  - destruct (ParseDouble r2) as [[z r3]|msg|pos|]; reflexivity.
  - destruct (ParseDouble r2) as [[m r3]|msg|pos|]; reflexivity.
  - reflexivity.
Qed.

Lemma runs_ParseVertex_append coords v d s z m r :
  is_vertex z m v = true ->
  is_delimiter d = true -> Ctype.isspace d = false ->
  at_ (vertex_text v ++ d :: s) z m r ->
  runs (ParseVertex coords) r (coords ++ map token_value v)%list (at_ (d :: s) z m).
Proof.
  intros Hv Hd Hsp H.
  destruct (runs_ParseVertex v d s z m r Hv Hd Hsp H) as (r' & E & H').
  exists r'. rewrite ParseVertex_append. unfold bind. rewrite E. auto.
Qed.

(** The loop of [ParseVertices] counts the vertices it appends. *)
Lemma fold_vertices (vs : list vertex_tokens) :
  forall coords count,
    (0 <= count)%Z -> (count + Z.of_nat (List.length vs) < 2 ^ 32)%Z ->
    fold_left (fun (cc : list double * Z) v =>
                 (fst cc ++ map token_value v, uint32 (snd cc + 1))%list)
      vs (coords, count)
    = ((coords ++ flat_map (map token_value) vs)%list,
       (count + Z.of_nat (List.length vs))%Z).
Proof.
  induction vs as [|v vs IH]; intros coords count H0 Hc.
  - cbn. now rewrite app_nil_r, Z.add_0_r.
  - cbn [fold_left fst snd flat_map]. cbn [List.length] in Hc.
    replace (uint32 (count + 1)) with (count + 1)%Z
      by (unfold uint32; now rewrite Z.mod_small by lia).
    rewrite IH by lia. rewrite <- app_assoc. f_equal.
    cbn [List.length]. lia.
Qed.

Lemma is_vertex_length z m v :
  is_vertex z m v = true -> List.length v = VertexArray.dimension z m.
Proof.
  unfold is_vertex. intros H. apply andb_prop in H. destruct H as [H _].
  now apply Nat.eqb_eq in H.
Qed.

Lemma length_vertices z m (vs : list vertex_tokens) :
  forallb (is_vertex z m) vs = true ->
  List.length (flat_map (map token_value) vs)
  = List.length vs * VertexArray.dimension z m.
Proof.
  induction vs as [|v vs IH]; intros H; [reflexivity|].
  cbn in H. apply andb_prop in H. destruct H as [Hv Hvs].
  cbn [flat_map List.length]. rewrite length_app, length_map, IH by exact Hvs.
  rewrite (is_vertex_length z m v Hv). lia.
Qed.

Lemma is_ring_facts z m vs :
  is_ring z m vs = true ->
  forallb (is_vertex z m) vs = true /\ (Z.of_nat (List.length vs) < 2 ^ 32)%Z.
Proof.
  unfold is_ring. intros H. apply andb_prop in H. destruct H as [Hv Hc].
  split; [exact Hv | now apply Z.ltb_lt].
Qed.

(** Copying exactly the vertices that were read keeps them all. *)
Lemma Copy_ring z m v vs :
  forallb (is_vertex z m) (v :: vs) = true ->
  VertexArray.Copy (map token_value v ++ flat_map (map token_value) vs)%list
    (1 + Z.of_nat (List.length vs))%Z z m
  = ring_of z m (v :: vs).
Proof.
  intros H. unfold VertexArray.Copy, ring_of. f_equal.
  - cbn [List.length]. lia.
  - change (map token_value v ++ flat_map (map token_value) vs)%list
      with (flat_map (map token_value) (v :: vs)).
    apply firstn_all2. rewrite (length_vertices z m _ H). cbn [List.length].
    replace (Z.to_nat (1 + Z.of_nat (List.length vs))) with (S (List.length vs)) by lia.
    lia.
Qed.



(** ** Polygons *)






(** ** Closure *)




(* ================================================================== *)
(** * The claims                                                       *)
(* ================================================================== *)

Local Open Scope string_scope.

(** ** Concrete runs of the reader *)

Example Parse_point_z :
  Parse "POINT Z(1 2 3)"
  = Ok (GeomPoint (mkPoint (mkVertexArray true false 1
         [4607182418800017408; 4611686018427387904; 4613937818241073152]%Z))).
Proof. vm_compute. reflexivity. Qed.

Example Parse_polygon_with_empty_ring :
  Parse "POLYGON(EMPTY)"
  = Ok (GeomPolygon (mkPolygon false false [VertexArray.Empty false false])).
Proof. vm_compute. reflexivity. Qed.

Example Parse_srid_prefix :
  Parse "SRID=4326;POINT(1 2)" = Parse "POINT(1 2)".
Proof. vm_compute. reflexivity. Qed.

(** ** C2: dimension consistency *)





(** ** C3: rings *)




(** The ring of that text is the one written POLYGON((0 0, 1 1)). *)
Example two_vertex_ring_text :
  polygon_text false false [two_vertex_ring] = "POLYGON((0 0, 1 1))".
Proof. reflexivity. Qed.

(** ** C5: error reports *)




(** ** C7: POLYGON EMPTY *)

(** C7.  Parsing POLYGON EMPTY succeeds and returns a Polygon with zero
    rings; the bounding box derived from it is the empty mark, which is
    not the zero box (0,0)-(0,0). *)
Theorem Parse_polygon_empty :
  Parse "POLYGON EMPTY" = Ok (GeomPolygon (mkPolygon false false []))
  /\ List.length (polygon_rings (mkPolygon false false [])) = 0%nat
  /\ Bounds.BoundingBoxOf (GeomPolygon (mkPolygon false false [])) = None
  /\ Bounds.BoundingBoxOf (GeomPolygon (mkPolygon false false []))
     <> Some (mkBoundingBox Double.zero Double.zero Double.zero Double.zero).
Proof.
  repeat split; try reflexivity.
  cbn. discriminate.
Qed.

(** ** C8: reads at the end of the input *)

(** [Match] evaluates [*cursor] whatever the cursor is: with the cursor
    at [end] it reads the byte after the input. *)
Lemma Match_at_end_reads_past_input c r :
  cursor r = end_ r -> Match c r = OutOfBoundsRead (end_ r).
Proof.
  intros H. unfold Match, bind, deref.
  replace (nth_error (input r) (cursor r)) with (@None ascii); [now rewrite H|].
  symmetry. apply nth_error_None. unfold end_ in H. lia.
Qed.

(** The same for [MatchCI] and any non-empty keyword. *)
Lemma MatchCI_at_end_reads_past_input c str r :
  cursor r = end_ r -> MatchCI (String c str) r = OutOfBoundsRead (end_ r).
Proof.
  intros H. unfold MatchCI, bind, get. cbn [list_ascii_of_string MatchCI_chars].
  unfold bind, deref.
  replace (nth_error (input r) (cursor r)) with (@None ascii); [now rewrite H|].
  symmetry. apply nth_error_None. unfold end_ in H. lia.
Qed.

(** C8, violated.  On the input "POINT" the keyword takes all five
    bytes; [CheckZM] then calls [Match('Z')], which evaluates [*cursor]
    at offset 5, the end of the input.  The same happens after any
    keyword that ends the input, at offset 18 for "GEOMETRYCOLLECTION".
    The empty input is read at offset 0 by the first [MatchCI]. *)
Theorem Parse_reads_past_end :
  Parse "POINT" = OutOfBoundsRead 5
  /\ List.length (list_ascii_of_string "POINT") = 5%nat
  /\ Parse "GEOMETRYCOLLECTION" = OutOfBoundsRead 18
  /\ List.length (list_ascii_of_string "GEOMETRYCOLLECTION") = 18%nat
  /\ Parse "" = OutOfBoundsRead 0.
Proof. repeat split; vm_compute; reflexivity. Qed.

(** A read outside the input can only be a read at [end]. *)
Lemma Parse_reads_at_most_end (wkt : string) (pos : nat) :
  Parse wkt = OutOfBoundsRead pos -> pos = List.length (list_ascii_of_string wkt).
Proof.
  intros H. pose proof (Parse_post wkt) as P. now rewrite H in P.
Qed.

(** The model's loop bounds are never what stops [Parse]. *)
Lemma Parse_fuel_suffices (wkt : string) : Parse wkt <> OutOfFuel.
Proof.
  intros H. pose proof (Parse_post wkt) as P. now rewrite H in P.
Qed.

(** ** C1: the codec round trip *)

(** C1.  For every valid Geometry Tree [g] (uniform dimension flags,
    well-formed vertex arrays, counts that fit 32 bits), deserializing
    the serialization of [g] yields [g] itself, with no byte left over;
    empty rings and empty geometries are included. *)
Theorem Deserialize_Serialize (g : Geometry) :
  valid_tree g = true ->
  GeometryFactory.Deserialize (GeometryFactory.Serialize g)
  = GeometryFactory.Decoded g [].
Proof.
  unfold valid_tree, uniform_zm. intros H.
  apply andb_prop in H. destruct H as [Hzm Hwf].
  unfold GeometryFactory.Deserialize, GeometryFactory.Serialize.
  rewrite <- (app_nil_r (GeometryFactory.write_geometry g)) at 2.
  rewrite (read_geometry_write g _ _ _ None [] Hzm Hwf); [reflexivity | now left |].
  apply depth_le_length.
Qed.

Lemma Deserialize_Serialize_witness :
  valid_tree sample_tree = true
  /\ GeometryFactory.Deserialize (GeometryFactory.Serialize sample_tree)
     = GeometryFactory.Decoded sample_tree [].
Proof.
  split; [vm_compute; reflexivity|].
  apply (Deserialize_Serialize sample_tree). vm_compute. reflexivity.
Defined.

Example Serialize_empty_polygon :
  GeometryFactory.Serialize (GeomPolygon (Ctor.EmptyPolygon false false))
  = [2; 0; 0; 0; 0]%Z.
Proof. reflexivity. Qed.

Example Deserialize_truncated :
  GeometryFactory.Deserialize [2; 1; 0; 0; 0; 1; 0]%Z
  = GeometryFactory.DecodeError GeometryFactory.Truncated.
Proof. reflexivity. Qed.

Example Deserialize_mixed_dimension :
  GeometryFactory.Deserialize [6; 1; 0; 0; 0; 8; 0; 0; 0; 0]%Z
  = GeometryFactory.DecodeError GeometryFactory.InconsistentTag.
Proof. reflexivity. Qed.

(** ** C9: ST_TileEnvelope *)

(** C9.  Whatever x, y, z and bounds are (and whatever the fresh arena
    memory holds), ST_TileEnvelope returns the serialization of the XY
    Polygon with exactly one ring of five vertices, each (0, 0); the
    result is the same for all arguments, and it deserializes to that
    polygon. *)
Theorem TileEnvelope_is_constant
    (allocator : TileEnvelope.Arena) (x y z : Z) (bounds : geometry_t) :
  TileEnvelope.TileEnvelopeFunction allocator x y z bounds
  = GeometryFactory.Serialize (GeomPolygon zero_envelope)
  /\ GeometryFactory.Deserialize
       (TileEnvelope.TileEnvelopeFunction allocator x y z bounds)
     = GeometryFactory.Decoded (GeomPolygon zero_envelope) []
  /\ List.length (polygon_rings zero_envelope) = 1%nat
  /\ Forall (fun ring =>
               va_count ring = 5%Z
               /\ forall i, (i < 5)%nat ->
                    VertexArray.vertex_at ring i = [Double.zero; Double.zero])
       (polygon_rings zero_envelope).
Proof.
  assert (E : TileEnvelope.TileEnvelopeFunction allocator x y z bounds
              = GeometryFactory.Serialize (GeomPolygon zero_envelope))
    by reflexivity.
  split; [exact E|]. split; [rewrite E; reflexivity|]. split; [reflexivity|].
  constructor; [|constructor]. split; [reflexivity|].
  intros i Hi.
  destruct i as [|[|[|[|[|i]]]]]; try reflexivity. lia.
Qed.

(** ** C10: the coordinate loop of PolygonArea *)

(** On a ring with at least one vertex the loop reads the vertices
    0 .. Count() - 2 and nothing else. *)
Lemma add_points_in_range ring fuel :
  forall i added,
    (0 <= i <= va_count ring - 1)%Z -> (va_count ring < 2 ^ 32)%Z ->
    (Z.to_nat (va_count ring - 1 - i) <= fuel)%nat ->
    exists points,
      Spheroid.add_points fuel ring i added = Spheroid.Done (added ++ points)%list
      /\ List.length points = Z.to_nat (va_count ring - 1 - i).
Proof.
  induction fuel as [|fuel IH]; intros i added Hi Hc Hfuel.
  - assert (i = va_count ring - 1)%Z by lia. subst i.
    exists []. cbn. unfold VertexArray.Count, uint32.
    rewrite Z.mod_small by lia. rewrite Z.ltb_irrefl, app_nil_r.
    split; [reflexivity|]. now rewrite Z.sub_diag.
  - cbn [Spheroid.add_points]. unfold VertexArray.Count, uint32 at 1.
    rewrite Z.mod_small by lia.
    destruct (Z.ltb_spec i (va_count ring - 1)) as [Hlt|Hge].
    + unfold Spheroid.Get, VertexArray.Count.
      replace ((0 <=? i)%Z && (i <? va_count ring)%Z) with true
        by (symmetry; apply andb_true_intro; split;
            [apply Z.leb_le | apply Z.ltb_lt]; lia).
      unfold uint32. rewrite Z.mod_small by lia.
      destruct (IH (i + 1)%Z
                  (added ++ [(nth (Z.to_nat i * VertexArray.dimension (va_has_z ring) (va_has_m ring))
                                  (va_data ring) Double.zero,
                              nth (Z.to_nat i * VertexArray.dimension (va_has_z ring) (va_has_m ring) + 1)
                                  (va_data ring) Double.zero)])%list)
        as (points & Hp & Hl); try lia.
      eexists (_ :: points). rewrite Hp, <- app_assoc. split; [reflexivity|].
      cbn [List.length]. rewrite Hl. lia.
    + exists []. rewrite app_nil_r. split; [reflexivity|].
      cbn. replace (va_count ring - 1 - i)%Z with 0%Z by lia. reflexivity.
Qed.

Lemma ring_points_in_range ring :
  (1 <= va_count ring < 2 ^ 32)%Z ->
  exists points,
    Spheroid.ring_points ring = Spheroid.Done points
    /\ List.length points = Z.to_nat (va_count ring - 1).
Proof.
  intros Hc. unfold Spheroid.ring_points, VertexArray.Count.
  destruct (add_points_in_range ring (Z.to_nat (va_count ring)) 0%Z [])
    as (points & Hp & Hl); try lia.
  exists points. rewrite Z.sub_0_r in Hl. auto.
Qed.

(** C10, violated.  The ring of POLYGON(EMPTY) has Count() = 0; the
    32-bit bound Count() - 1 wraps to 4294967295, the loop is entered
    and [Get(0)] reads a vertex the ring does not have. *)
Theorem PolygonArea_empty_ring_wraps :
  Parse "POLYGON(EMPTY)"
  = Ok (GeomPolygon (mkPolygon false false [VertexArray.Empty false false]))
  /\ uint32 (VertexArray.Count (VertexArray.Empty false false) - 1) = 4294967295%Z
  /\ forall Compute fabs fadd fsub,
       Spheroid.PolygonArea Compute fabs fadd fsub
         (mkPolygon false false [VertexArray.Empty false false])
       = Spheroid.OutOfRange 0 0.
Proof.
  split; [vm_compute; reflexivity|]. split; reflexivity.
Qed.

(** ** C6: the SRID prefix *)

(** C6.  For every WKT body W (an input the Geometry production
    accepts) and every prefix made of SRID, digits and a semicolon,
    parsing the prefixed input yields the tree that parsing W alone
    yields: the prefix is recognized and discarded. *)
Theorem srid_prefix_is_discarded (digits W : string) (g : Geometry) :
  forallb Ctype.isdigit (list_ascii_of_string digits) = true ->
  ParseBody W = Ok g ->
  Parse W = Ok g /\ Parse ("SRID" ++ digits ++ ";" ++ W) = Ok g.
Proof.
  intros Hd. apply srid_text_is_discarded. now apply isdigit_no_semicolon.
Qed.

Lemma srid_prefix_is_discarded_witness :
  Parse "POINT(1 2)"
  = Ok (GeomPoint (mkPoint (mkVertexArray false false 1
          [4607182418800017408; 4611686018427387904]%Z)))
  /\ Parse "SRID4326;POINT(1 2)"
     = Ok (GeomPoint (mkPoint (mkVertexArray false false 1
             [4607182418800017408; 4611686018427387904]%Z))).
Proof.
  apply (srid_prefix_is_discarded "4326" "POINT(1 2)").
  - vm_compute. reflexivity.
  - vm_compute. reflexivity.
Defined.

(** ** C4: the parentheses of a multipoint *)

(** C4.  For every list of vertices of the dimension the keyword
    declares, each coordinate a number token, the multipoint written
    with parentheses around every vertex and the one written without
    parse to the same result; when the list is not empty that result is
    the MultiPoint tree of the vertices. *)
Theorem multipoint_parentheses_optional (z m : bool) (vs : list vertex_tokens) :
  forallb (is_vertex z m) vs = true ->
  Parse (multipoint_text z m (map (pair false) vs))
  = Parse (multipoint_text z m (map (pair true) vs))
  /\ (vs <> [] ->
      Parse (multipoint_text z m (map (pair false) vs)) = Ok (multipoint_of z m vs)).
Proof.
  intros Hv. destruct vs as [|v vs].
  - split; [reflexivity | congruence].
  - assert (Hsnd : forall b : bool,
               map (@snd bool vertex_tokens) (map (pair b) (v :: vs)) = v :: vs).
    { intros b. rewrite map_map. cbn [snd]. apply map_id. }
    assert (Hvs : forall b : bool,
               forallb (fun pv : bool * vertex_tokens => is_vertex z m (snd pv))
                 (map (pair b) (v :: vs)) = true).
    { intros b. rewrite forallb_forall in Hv |- *. intros pv Hin.
      apply in_map_iff in Hin. destruct Hin as (v' & <- & Hin). now apply Hv. }
    pose proof (Parse_multipoint_text z m (false, v) (map (pair false) vs) (Hvs false))
      as Hplain.
    pose proof (Parse_multipoint_text z m (true, v) (map (pair true) vs) (Hvs true))
      as Hparen.
    change ((false, v) :: map (pair false) vs) with (map (pair false) (v :: vs))
      in Hplain.
    change ((true, v) :: map (pair true) vs) with (map (pair true) (v :: vs))
      in Hparen.
    rewrite Hsnd in Hplain, Hparen. rewrite Hplain, Hparen. auto.
Qed.

Lemma multipoint_parentheses_optional_witness :
  Parse "MULTIPOINT(1 1, 2 2)" = Parse "MULTIPOINT((1 1), (2 2))".
Proof.
  refine (proj1 (multipoint_parentheses_optional false false
                   [[["1"%char]; ["1"%char]]; [["2"%char]; ["2"%char]]] _)).
  vm_compute. reflexivity.
Defined.

(** Every mix of written and omitted parentheses gives the same tree. *)
Lemma multipoint_mixed_parentheses (z m : bool) (points : list (bool * vertex_tokens)) :
  points <> [] ->
  forallb (fun pv => is_vertex z m (snd pv)) points = true ->
  Parse (multipoint_text z m points) = Ok (multipoint_of z m (map snd points)).
Proof.
  intros Hne Hv. destruct points as [|pv pvs]; [congruence|].
  now apply Parse_multipoint_text.
Qed.

Example Parse_multipoint_mixed :
  Parse "MULTIPOINT Z(1 1 0, (2.5 -2 1e3))"
  = Ok (multipoint_of true false
          [[["1"]; ["1"]; ["0"]];
           [["2"; "."; "5"]; ["-"; "2"]; ["1"; "e"; "3"]]]%char).
Proof. vm_compute. reflexivity. Qed.

(* ================================================================== *)
(** * ST_Area_Spheroid: which vertices are read                        *)
(* ================================================================== *)

Local Open Scope list_scope.
Local Open Scope Z_scope.

(** The x and y of vertex [i] of a ring. *)
Lemma Get_in_range ring i :
  0 <= i < va_count ring ->
  Spheroid.Get ring i
  = Some (nth (Z.to_nat i * VertexArray.dimension (va_has_z ring) (va_has_m ring))
              (va_data ring) Double.zero,
          nth (Z.to_nat i * VertexArray.dimension (va_has_z ring) (va_has_m ring) + 1)
              (va_data ring) Double.zero).
Proof.
  intros Hi. unfold Spheroid.Get, VertexArray.Count.
  replace ((0 <=? i) && (i <? va_count ring)) with true; [reflexivity|].
  symmetry. apply andb_true_intro. split; [apply Z.leb_le | apply Z.ltb_lt]; lia.
Qed.

Lemma add_points_vertices ring fuel :
  forall i added,
    0 <= i <= va_count ring - 1 -> va_count ring < 2 ^ 32 ->
    (Z.to_nat (va_count ring - 1 - i) <= fuel)%nat ->
    Spheroid.add_points fuel ring i added
    = Spheroid.Done
        (added ++ map (fun k => match Spheroid.Get ring (Z.of_nat k) with
                                | Some p => p
                                | None => (Double.zero, Double.zero)
                                end)
                      (seq (Z.to_nat i) (Z.to_nat (va_count ring - 1 - i)))).
Proof.
  induction fuel as [|fuel IH]; intros i added Hi Hc Hfuel.
  - assert (i = va_count ring - 1) by lia. subst i.
    rewrite Z.sub_diag. cbn. unfold VertexArray.Count, uint32.
    rewrite Z.mod_small by lia. now rewrite Z.ltb_irrefl, app_nil_r.
  - cbn [Spheroid.add_points]. unfold VertexArray.Count.
    replace (uint32 (va_count ring - 1)) with (va_count ring - 1)
      by (unfold uint32; now rewrite Z.mod_small by lia).
    destruct (Z.ltb_spec i (va_count ring - 1)) as [Hlt|Hge].
    + rewrite Get_in_range by lia.
      replace (uint32 (i + 1)) with (i + 1)
        by (unfold uint32; now rewrite Z.mod_small by lia).
      rewrite IH by lia. rewrite <- app_assoc. f_equal. f_equal.
      replace (Z.to_nat (va_count ring - 1 - i))
        with (S (Z.to_nat (va_count ring - 1 - (i + 1)))) by lia.
      cbn [seq map]. rewrite Z2Nat.id by lia. rewrite Get_in_range by lia.
      cbn [app]. f_equal. f_equal. f_equal. lia.
    + replace (va_count ring - 1 - i) with 0 by lia. cbn. now rewrite app_nil_r.
Qed.

(** X1.  On a ring that has at least one vertex, the coordinate loop of
    [PolygonArea] passes to GeographicLib the x and y of the vertices
    0 .. Count() - 2, in that order: every vertex but the last, which a
    closed ring repeats.  It reads no other vertex, and Z and M are not
    read. *)
Theorem PolygonArea_skips_last_vertex (ring : VertexArray) :
  1 <= va_count ring < 2 ^ 32 ->
  exists points,
    Spheroid.ring_points ring = Spheroid.Done points
    /\ List.length points = Z.to_nat (va_count ring - 1)
    /\ forall k, (k < List.length points)%nat ->
         Spheroid.Get ring (Z.of_nat k) = Some (nth k points (Double.zero, Double.zero))
         /\ nth k points (Double.zero, Double.zero)
            = (nth (k * VertexArray.dimension (va_has_z ring) (va_has_m ring))
                   (va_data ring) Double.zero,
               nth (k * VertexArray.dimension (va_has_z ring) (va_has_m ring) + 1)
                   (va_data ring) Double.zero).
Proof.
  intros Hc. unfold Spheroid.ring_points, VertexArray.Count.
  rewrite add_points_vertices by lia. cbn [app]. rewrite Z.sub_0_r.
  eexists. split; [reflexivity|].
  split; [now rewrite length_map, length_seq|].
  intros k Hk. rewrite length_map, length_seq in Hk.
  set (f := fun k => match Spheroid.Get ring (Z.of_nat k) with
                     | Some p => p
                     | None => (Double.zero, Double.zero)
                     end).
  change (Z.to_nat 0) with 0%nat.
  rewrite (nth_indep _ _ (f 0%nat)) by (now rewrite length_map, length_seq).
  rewrite (map_nth f), seq_nth by exact Hk. cbn [Nat.add]. unfold f.
  rewrite Get_in_range by lia. rewrite Nat2Z.id. split; reflexivity.
Qed.

Lemma PolygonArea_skips_last_vertex_witness :
  exists points,
    Spheroid.ring_points (mkVertexArray true false 3 [1; 2; 3; 4; 5; 6; 1; 2; 3])
    = Spheroid.Done points
    /\ points = [(1, 2); (4, 5)].
Proof.
  destruct (PolygonArea_skips_last_vertex
              (mkVertexArray true false 3 [1; 2; 3; 4; 5; 6; 1; 2; 3]))
    as (points & E & _); [cbn; lia|].
  exists points. split; [exact E|].
  vm_compute in E. now injection E as <-.
Defined.

(** ** Which trees have an area *)

Lemma ring_points_nonempty ring :
  1 <= va_count ring < 2 ^ 32 -> exists points, Spheroid.ring_points ring = Spheroid.Done points.
Proof.
  intros Hc. destruct (PolygonArea_skips_last_vertex ring Hc) as (points & E & _). eauto.
Qed.

Lemma ring_points_empty ring :
  va_count ring = 0 -> Spheroid.ring_points ring = Spheroid.OutOfRange 0 0.
Proof.
  intros Hc. unfold Spheroid.ring_points, VertexArray.Count. rewrite Hc.
  cbn [Z.to_nat Spheroid.add_points]. unfold Spheroid.Get, VertexArray.Count.
  rewrite Hc. reflexivity.
Qed.

Section AreaOfTrees.

Variable Compute : list (double * double) -> double.
Variable fabs : double -> double.
Variable fadd fsub : double -> double -> double.

Lemma PolygonArea_rings_returns rings :
  forall ring_idx total_area,
    Forall counted rings ->
    ((exists area,
         Spheroid.PolygonArea_rings Compute fabs fadd fsub ring_idx rings total_area
         = Spheroid.Done area)
     <-> Forall inhabited rings).
Proof.
  induction rings as [|ring rings IH]; intros ring_idx total_area Hc.
  - cbn. split; [constructor | eauto].
  - inversion Hc as [|? ? Hring Hrings]; subst. cbn [Spheroid.PolygonArea_rings].
    unfold counted in Hring.
    destruct (Z.eq_dec (va_count ring) 0) as [H0|H0].
    + rewrite ring_points_empty by exact H0. split.
      * intros (area & E). discriminate E.
      * intros H. inversion H as [|? ? Hin _]; subst. unfold inhabited in Hin. lia.
    + destruct (ring_points_nonempty ring) as (points & E); [lia|]. rewrite E.
      rewrite IH by exact Hrings. split.
      * intros H. constructor; [unfold inhabited; lia | exact H].
      * intros H. now inversion H.
Qed.

Lemma MultiPolygonArea_returns polygons :
  forall total_area,
    Forall counted (flat_map polygon_rings polygons) ->
    ((exists area,
         Geodesic.MultiPolygonArea Compute fabs fadd fsub polygons total_area
         = Spheroid.Done area)
     <-> Forall inhabited (flat_map polygon_rings polygons)).
Proof.
  induction polygons as [|poly polygons IH]; intros total_area Hc.
  - cbn. split; [constructor | eauto].
  - cbn [flat_map] in *. apply Forall_app in Hc. destruct Hc as [Hpoly Hrest].
    cbn [Geodesic.MultiPolygonArea]. unfold Spheroid.PolygonArea.
    pose proof (PolygonArea_rings_returns (polygon_rings poly) 0 Double.zero Hpoly) as P.
    destruct (Spheroid.PolygonArea_rings Compute fabs fadd fsub 0 (polygon_rings poly)
                Double.zero) as [area|i n|].
    + rewrite IH by exact Hrest. rewrite Forall_app.
      destruct P as [P _]. specialize (P (ex_intro _ area eq_refl)). tauto.
    + split.
      * intros (area & E). discriminate E.
      * intros H. apply Forall_app in H. destruct H as [H _].
        apply P in H. destruct H as (area & E). discriminate E.
    + split.
      * intros (area & E). discriminate E.
      * intros H. apply Forall_app in H. destruct H as [H _].
        apply P in H. destruct H as (area & E). discriminate E.
Qed.

End AreaOfTrees.

(** X2.  [GeometryArea] returns an area exactly when no ring of the
    tree is empty: on a tree whose polygons, however deeply nested in
    multipolygons and collections, have rings of at least one vertex
    each, every read is inside a ring; if some ring has no vertex, the
    coordinate loop reads outside that ring.  Points and lines are never
    read. *)
Theorem GeometryArea_returns_iff_no_empty_ring
    (Compute : list (double * double) -> double) (fabs : double -> double)
    (fadd fsub : double -> double -> double) (geom : Geometry) :
  Forall counted (rings_of geom) ->
  ((exists area, Geodesic.GeometryArea Compute fabs fadd fsub geom = Spheroid.Done area)
   <-> Forall inhabited (rings_of geom)).
Proof.
  induction geom as [p|l|p|mp|ml|mp|z m items IH] using Geometry_nested_ind; intros Hc.
  - cbn. split; [constructor | eauto].
  - cbn. split; [constructor | eauto].
  - cbn [Geodesic.GeometryArea rings_of] in *. unfold Spheroid.PolygonArea.
    now apply PolygonArea_rings_returns.
  - cbn. split; [constructor | eauto].
  - cbn. split; [constructor | eauto].
  - cbn [Geodesic.GeometryArea rings_of] in *. now apply MultiPolygonArea_returns.
  - cbn [Geodesic.GeometryArea rings_of] in *.
    generalize Double.zero at 1 as total_area.
    induction IH as [|item items Hitem _ IHitems]; intros total_area.
    + cbn. split; [constructor | eauto].
    + cbn [flat_map] in *. apply Forall_app in Hc. destruct Hc as [Hi Hrest].
      specialize (Hitem Hi).
      destruct (Geodesic.GeometryArea Compute fabs fadd fsub item) as [area|i n|].
      * rewrite (IHitems Hrest). rewrite Forall_app.
        destruct Hitem as [P _]. specialize (P (ex_intro _ area eq_refl)). tauto.
      * split.
        -- intros (area & E). discriminate E.
        -- intros H. apply Forall_app in H. destruct H as [H _].
           apply Hitem in H. destruct H as (area & E). discriminate E.
      * split.
        -- intros (area & E). discriminate E.
        -- intros H. apply Forall_app in H. destruct H as [H _].
           apply Hitem in H. destruct H as (area & E). discriminate E.
Qed.

Lemma GeometryArea_returns_iff_no_empty_ring_witness :
  exists area,
    Geodesic.GeometryArea (fun _ => Double.zero) (fun a => a) Z.add Z.sub
      (GeomCollection false false
         [GeomPoint (Ctor.EmptyPoint false false);
          GeomPolygon (mkPolygon false false
                         [mkVertexArray false false 3 [0; 0; 1; 1; 0; 0]])])
    = Spheroid.Done area.
Proof.
  refine (proj2 (GeometryArea_returns_iff_no_empty_ring _ _ _ _ _ _) _).
  - repeat constructor; cbn; lia.
  - repeat constructor; unfold inhabited; cbn; lia.
Defined.

(** X3.  A multipolygon has the area of the collection of its
    polygons: both loops start from 0 and add [PolygonArea] of each
    polygon in order, and they stop at the same out-of-range read. *)
Theorem GeometryArea_multipolygon_as_collection
    (Compute : list (double * double) -> double) (fabs : double -> double)
    (fadd fsub : double -> double -> double)
    (z m z' m' : bool) (polygons : list Polygon) :
  Geodesic.GeometryArea Compute fabs fadd fsub
    (GeomMultiPolygon (mkMultiPolygon z m polygons))
  = Geodesic.GeometryArea Compute fabs fadd fsub
      (GeomCollection z' m' (map GeomPolygon polygons)).
Proof.
  cbn [Geodesic.GeometryArea multipolygon_polygons].
  generalize Double.zero as total_area.
  induction polygons as [|poly polygons IH]; intros total_area; [reflexivity|].
  cbn [map Geodesic.MultiPolygonArea Geodesic.GeometryArea].
  destruct (Spheroid.PolygonArea Compute fabs fadd fsub poly) as [area|i n|];
    [apply IH | reflexivity | reflexivity].
Qed.

(** ** POLYGON_2D: the coordinates of a ring *)

Lemma at_index_nth {A : Type} (data : list A) (i : nat) (d : A) :
  (i < List.length data)%nat -> Geodesic.at_index data (Z.of_nat i) = Some (nth i data d).
Proof.
  intros Hi. unfold Geodesic.at_index.
  replace (0 <=? Z.of_nat i) with true by (symmetry; apply Z.leb_le; lia).
  rewrite Nat2Z.id. now apply nth_error_nth'.
Qed.

Lemma at_index_outside {A : Type} (data : list A) (i : Z) :
  Z.of_nat (List.length data) <= i -> Geodesic.at_index data i = None.
Proof.
  intros Hi. unfold Geodesic.at_index.
  replace (0 <=? i) with true by (symmetry; apply Z.leb_le; lia).
  apply nth_error_None. lia.
Qed.

(** The loop from [i] up to a bound inside the two buffers. *)
Lemma add_coords_inside x_data y_data (bound : nat) fuel :
  forall (i : nat) added,
    (i <= bound)%nat -> (bound <= List.length x_data)%nat ->
    (bound <= List.length y_data)%nat ->
    Z.of_nat (List.length x_data) < 2 ^ 64 ->
    (bound - i <= fuel)%nat ->
    Geodesic.add_coords fuel x_data y_data (Z.of_nat bound) (Z.of_nat i) added
    = Spheroid.Done
        (added ++ map (fun k => (nth k x_data Double.zero, nth k y_data Double.zero))
                      (seq i (bound - i))).
Proof.
  induction fuel as [|fuel IH]; intros i added Hi Hx Hy Hlen Hfuel.
  - assert (i = bound) by lia. subst i. cbn. rewrite Z.ltb_irrefl.
    now rewrite Nat.sub_diag, app_nil_r.
  - cbn [Geodesic.add_coords].
    destruct (Z.ltb_spec (Z.of_nat i) (Z.of_nat bound)) as [Hlt|Hge].
    + rewrite (at_index_nth x_data i Double.zero), (at_index_nth y_data i Double.zero) by lia.
      replace (Geodesic.idx_t (Z.of_nat i + 1)) with (Z.of_nat (S i))
        by (unfold Geodesic.idx_t; rewrite Z.mod_small; lia).
      rewrite IH by lia. rewrite <- app_assoc. f_equal.
      replace (bound - i)%nat with (S (bound - S i)) by lia. reflexivity.
    + replace (bound - i)%nat with 0%nat by lia. cbn. now rewrite app_nil_r.
Qed.

(** X4.  For a ring of a POLYGON_2D that has at least one coordinate
    and lies inside the coordinate vectors, the loop passes to
    GeographicLib the coordinates of the ring but the last, in order,
    and reads nothing else. *)
Theorem ring_coords_skips_last
    (x_data y_data : list double) (offset length : nat) :
  (1 <= length)%nat ->
  (offset + length <= List.length x_data)%nat ->
  (offset + length <= List.length y_data)%nat ->
  Z.of_nat (List.length x_data) < 2 ^ 64 ->
  Geodesic.ring_coords x_data y_data
    (Geodesic.mk_list_entry (Z.of_nat offset) (Z.of_nat length))
  = Spheroid.Done
      (combine (firstn (length - 1) (skipn offset x_data))
               (firstn (length - 1) (skipn offset y_data))).
Proof.
  intros Hl Hx Hy Hlen. unfold Geodesic.ring_coords.
  cbn [Geodesic.entry_offset Geodesic.entry_length].
  replace (Geodesic.idx_t (Z.of_nat offset + Z.of_nat length - 1))
    with (Z.of_nat (offset + length - 1))
    by (unfold Geodesic.idx_t; rewrite Z.mod_small; lia).
  rewrite add_coords_inside by lia. cbn [app]. f_equal.
  replace (offset + length - 1 - offset)%nat with (length - 1)%nat by lia.
  apply nth_ext with (d := (Double.zero, Double.zero)) (d' := (Double.zero, Double.zero)).
  - rewrite length_map, length_seq, length_combine, !length_firstn, !length_skipn. lia.
  - intros k Hk. rewrite length_map, length_seq in Hk.
    rewrite (nth_indep _ _ ((fun k => (nth k x_data Double.zero, nth k y_data Double.zero)) 0%nat))
      by (now rewrite length_map, length_seq).
    rewrite (map_nth (fun k => (nth k x_data Double.zero, nth k y_data Double.zero))).
    rewrite seq_nth by exact Hk.
    rewrite combine_nth by (rewrite !length_firstn, !length_skipn; lia).
    rewrite !nth_firstn.
    replace (k <? length - 1)%nat with true by (symmetry; apply Nat.ltb_lt; lia).
    now rewrite !nth_skipn.
Qed.

Lemma ring_coords_skips_last_witness :
  Geodesic.ring_coords [9; 0; 4; 4; 0] [9; 0; 0; 3; 0]
    (Geodesic.mk_list_entry 1 4)
  = Spheroid.Done [(0, 0); (4, 0); (4, 3)].
Proof.
  apply (ring_coords_skips_last [9; 0; 4; 4; 0] [9; 0; 0; 3; 0] 1 4); cbn; lia.
Defined.

(** The loop with the bound that an empty ring at offset 0 gives it. *)
Lemma add_coords_wrapped x_data y_data fuel :
  forall (i : nat) added,
    List.length x_data = List.length y_data ->
    Z.of_nat (List.length x_data) < 2 ^ 64 - 1 ->
    (i <= List.length x_data)%nat ->
    (List.length x_data - i <= fuel)%nat ->
    Geodesic.add_coords fuel x_data y_data (2 ^ 64 - 1) (Z.of_nat i) added
    = Spheroid.OutOfRange (Z.of_nat (List.length x_data)) (Z.of_nat (List.length x_data)).
Proof.
  induction fuel as [|fuel IH]; intros i added Hxy Hlen Hi Hfuel.
  - assert (i = List.length x_data) by lia. subst i. cbn [Geodesic.add_coords].
    replace (Z.of_nat (List.length x_data) <? 2 ^ 64 - 1) with true
      by (symmetry; apply Z.ltb_lt; lia).
    now rewrite at_index_outside by lia.
  - cbn [Geodesic.add_coords].
    replace (Z.of_nat i <? 2 ^ 64 - 1) with true by (symmetry; apply Z.ltb_lt; lia).
    destruct (Nat.eq_dec i (List.length x_data)) as [->|Hne].
    + now rewrite at_index_outside by lia.
    + rewrite (at_index_nth x_data i Double.zero), (at_index_nth y_data i Double.zero) by lia.
      replace (Geodesic.idx_t (Z.of_nat i + 1)) with (Z.of_nat (S i))
        by (unfold Geodesic.idx_t; rewrite Z.mod_small; lia).
      apply IH; lia.
Qed.

(** X5.  An empty ring of a POLYGON_2D is skipped only when it does
    not start at offset 0: there the bound
    [ring_offset + ring_length - 1] is [ring_offset - 1] and no
    coordinate is read.  At offset 0 the bound wraps to 2^64 - 1, and
    the loop reads every coordinate of the vector and then the slot
    after the last one. *)
Theorem ring_coords_empty_ring (x_data y_data : list double) :
  List.length x_data = List.length y_data ->
  Z.of_nat (List.length x_data) < 2 ^ 64 - 1 ->
  (forall ring_offset,
      0 < ring_offset < 2 ^ 64 ->
      Geodesic.ring_coords x_data y_data (Geodesic.mk_list_entry ring_offset 0)
      = Spheroid.Done [])
  /\ Geodesic.idx_t (0 + 0 - 1) = 2 ^ 64 - 1
  /\ Geodesic.ring_coords x_data y_data (Geodesic.mk_list_entry 0 0)
     = Spheroid.OutOfRange (Z.of_nat (List.length x_data)) (Z.of_nat (List.length x_data)).
Proof.
  intros Hxy Hlen. split; [|split; [reflexivity|]].
  - intros ring_offset Ho. unfold Geodesic.ring_coords.
    cbn [Geodesic.entry_offset Geodesic.entry_length Geodesic.add_coords].
    replace (Geodesic.idx_t (ring_offset + 0 - 1)) with (ring_offset - 1)
      by (unfold Geodesic.idx_t; rewrite Z.mod_small; lia).
    replace (ring_offset <? ring_offset - 1) with false
      by (symmetry; apply Z.ltb_ge; lia).
    reflexivity.
  - unfold Geodesic.ring_coords. cbn [Geodesic.entry_offset Geodesic.entry_length].
    change (Geodesic.idx_t (0 + 0 - 1)) with (2 ^ 64 - 1).
    apply (add_coords_wrapped x_data y_data _ 0%nat []); try assumption; lia.
Qed.

Lemma ring_coords_empty_ring_witness :
  Geodesic.ring_coords [1; 2] [3; 4] (Geodesic.mk_list_entry 0 0)
  = Spheroid.OutOfRange 2 2.
Proof.
  refine (proj2 (proj2 (ring_coords_empty_ring [1; 2] [3; 4] _ _))).
  - reflexivity.
  - cbn. lia.
Defined.

(** ** POLYGON_2D: the rings of a polygon *)

Lemma ring_coords_inside x_data y_data ring :
  ring_inside x_data y_data ring ->
  Z.of_nat (List.length x_data) < 2 ^ 64 ->
  Geodesic.ring_coords x_data y_data ring = Spheroid.Done (open_ring x_data y_data ring).
Proof.
  intros (Ho & Hl & Hx & Hy) Hlen. destruct ring as [offset length].
  cbn [Geodesic.entry_offset Geodesic.entry_length] in *.
  rewrite <- (Z2Nat.id offset), <- (Z2Nat.id length) by lia.
  rewrite ring_coords_skips_last by lia.
  unfold open_ring. cbn [Geodesic.entry_offset Geodesic.entry_length].
  now rewrite !Nat2Z.id.
Qed.

Lemma skipn_nth_cons {A : Type} (l : list A) (d : A) :
  forall i, (i < List.length l)%nat -> skipn i l = nth i l d :: skipn (S i) l.
Proof.
  induction l as [|x l IH]; intros i Hi; [cbn in Hi; lia|].
  destruct i as [|i]; [reflexivity|]. cbn [skipn nth List.length] in *. apply IH. lia.
Qed.

Section Polygon2D.

Variable Compute : list (double * double) -> double.
Variable fabs : double -> double.
Variable fadd fsub : double -> double -> double.

Lemma polygon_2d_rings_inside ring_entries x_data y_data (bound : nat) fuel :
  forall (i : nat) first area,
    (i <= bound)%nat -> (bound <= List.length ring_entries)%nat ->
    Z.of_nat (List.length ring_entries) < 2 ^ 64 ->
    Z.of_nat (List.length x_data) < 2 ^ 64 ->
    Forall (ring_inside x_data y_data) (firstn (bound - i) (skipn i ring_entries)) ->
    (bound - i <= fuel)%nat ->
    Geodesic.polygon_2d_rings Compute fabs fadd fsub fuel ring_entries x_data y_data
      (Z.of_nat bound) (Z.of_nat i) first area
    = Spheroid.Done
        (fabs (snd (fold_left
                      (fun (s : bool * double) ring =>
                         let ring_area := Compute (open_ring x_data y_data ring) in
                         (false, if fst s then fadd (snd s) (fabs ring_area)
                                 else fsub (snd s) (fabs ring_area)))
                      (firstn (bound - i) (skipn i ring_entries)) (first, area)))).
Proof.
  induction fuel as [|fuel IH]; intros i first area Hi Hb He Hx Hin Hfuel.
  - assert (i = bound) by lia. subst i. cbn [Geodesic.polygon_2d_rings].
    rewrite Z.ltb_irrefl, Nat.sub_diag. reflexivity.
  - cbn [Geodesic.polygon_2d_rings].
    destruct (Z.ltb_spec (Z.of_nat i) (Z.of_nat bound)) as [Hlt|Hge].
    + assert (Hi' : (i < List.length ring_entries)%nat) by lia.
      rewrite (at_index_nth ring_entries i (Geodesic.mk_list_entry 0 0)) by exact Hi'.
      replace (bound - i)%nat with (S (bound - S i)) in * by lia.
      assert (Es : skipn i ring_entries
                   = nth i ring_entries (Geodesic.mk_list_entry 0 0)
                     :: skipn (S i) ring_entries).
      { now apply skipn_nth_cons. }
      rewrite Es in Hin |- *. cbn [firstn fold_left fst snd] in Hin |- *.
      inversion Hin as [|? ? Hring Hrest]; subst.
      rewrite ring_coords_inside by assumption.
      replace (Geodesic.idx_t (Z.of_nat i + 1)) with (Z.of_nat (S i))
        by (unfold Geodesic.idx_t; rewrite Z.mod_small; lia).
      rewrite IH; [reflexivity | lia | lia | lia | lia | exact Hrest | lia].
    + replace (bound - i)%nat with 0%nat by lia. reflexivity.
Qed.

End Polygon2D.

(** X6.  For a polygon of a POLYGON_2D vector whose rings are in the
    ring vector, lie inside the coordinate vectors and have at least one
    coordinate each, the function reads nothing outside the vectors and
    returns the absolute value of the outer ring's area less the areas
    of the holes, each computed by GeographicLib from the ring without
    its last coordinate. *)
Theorem GeodesicPolygon2DFunction_inside
    (Compute : list (double * double) -> double) (fabs : double -> double)
    (fadd fsub : double -> double -> double)
    (ring_entries : list Geodesic.list_entry_t) (x_data y_data : list double)
    (polygon_offset polygon_length : nat) :
  (polygon_offset + polygon_length <= List.length ring_entries)%nat ->
  Z.of_nat (List.length ring_entries) < 2 ^ 64 ->
  Z.of_nat (List.length x_data) < 2 ^ 64 ->
  Forall (ring_inside x_data y_data)
    (firstn polygon_length (skipn polygon_offset ring_entries)) ->
  Geodesic.GeodesicPolygon2DFunction Compute fabs fadd fsub ring_entries x_data y_data
    (Geodesic.mk_list_entry (Z.of_nat polygon_offset) (Z.of_nat polygon_length))
  = Spheroid.Done
      (fabs (outer_less_holes fabs fadd fsub
               (map (fun ring => Compute (open_ring x_data y_data ring))
                    (firstn polygon_length (skipn polygon_offset ring_entries))))).
Proof.
  intros Hb He Hx Hin. unfold Geodesic.GeodesicPolygon2DFunction.
  cbn [Geodesic.entry_offset Geodesic.entry_length].
  replace (Geodesic.idx_t (Z.of_nat polygon_offset + Z.of_nat polygon_length))
    with (Z.of_nat (polygon_offset + polygon_length))
    by (unfold Geodesic.idx_t; rewrite Z.mod_small; lia).
  rewrite polygon_2d_rings_inside;
    replace (polygon_offset + polygon_length - polygon_offset)%nat
      with polygon_length by lia; try assumption; try lia.
  f_equal. unfold outer_less_holes.
  destruct (firstn polygon_length (skipn polygon_offset ring_entries)) as [|outer holes];
    [reflexivity|].
  cbn [map fold_left fst snd]. clear Hin.
  generalize (fadd Double.zero (fabs (Compute (open_ring x_data y_data outer)))) as area.
  induction holes as [|hole holes IH]; intros area; [reflexivity|].
  cbn [map fold_left fst snd]. apply IH.
Qed.

Lemma GeodesicPolygon2DFunction_inside_witness :
  Geodesic.GeodesicPolygon2DFunction (fun _ => 7) (fun a => a) Z.add Z.sub
    [Geodesic.mk_list_entry 0 4] [0; 4; 4; 0] [0; 0; 3; 0]
    (Geodesic.mk_list_entry 0 1)
  = Spheroid.Done 7.
Proof.
  apply (GeodesicPolygon2DFunction_inside (fun _ => 7) (fun a => a) Z.add Z.sub
           [Geodesic.mk_list_entry 0 4] [0; 4; 4; 0] [0; 0; 3; 0] 0 1).
  - cbn. lia.
  - cbn. lia.
  - cbn. lia.
  - repeat constructor; cbn; lia.
Defined.

(* ================================================================== *)
(** * The reader on the text of a geometry                             *)
(* ================================================================== *)

Import Written.

Local Open Scope nat_scope.

(** ** List productions *)

Lemma drop_space_delimiter d s : Ctype.isspace d = false -> drop_space (d :: s) = d :: s.
Proof. apply drop_space_nonspace. Qed.

Lemma ci_prefix_empty s :
  ci_prefix (list_ascii_of_string "EMPTY") (list_ascii_of_string "EMPTY" ++ s) = CiMatched s.
Proof. reflexivity. Qed.

(** EMPTY at the cursor. *)
Lemma runs_MatchCI_empty s z m r :
  at_ (list_ascii_of_string "EMPTY" ++ s) z m r ->
  runs (MatchCI "EMPTY") r true (at_ (drop_space s) z m).
Proof.
  intros H. pose proof H as (E & _). eexists. rewrite MatchCI_view, E, ci_prefix_empty.
  split; [reflexivity|].
  apply (at_shift _ _ _ _ (String.length "EMPTY" + space_run s)) in H.
  replace (skipn (String.length "EMPTY" + space_run s) (list_ascii_of_string "EMPTY" ++ s))
    with (drop_space s) in H; [exact H|].
  rewrite Nat.add_comm, <- skipn_skipn.
  change (String.length "EMPTY") with (List.length (list_ascii_of_string "EMPTY")).
  now rewrite skipn_app_exact.
Qed.

(** An opening parenthesis at the cursor is not EMPTY. *)
Lemma runs_MatchCI_not_empty s z m r :
  at_ ("("%char :: s) z m r ->
  runs (MatchCI "EMPTY") r false (at_ ("("%char :: s) z m).
Proof.
  intros H. pose proof H as (E & _). exists r. split; [|exact H].
  now apply (MatchCI_first_mismatch "E" _ r _ _ E).
Qed.

Section ListProduction.

Context {A X B : Type}.
Variable text : X -> list ascii.
Variable first : M A.
Variable body : A -> M A.
Variable init : X -> A.
Variable step : A -> X -> A.
Variable empty : bool -> bool -> B.
Variable filled : A -> bool -> bool -> B.
Variable ok : X -> Prop.
Variables z m : bool.

Hypothesis text_first :
  forall x, ok x -> exists c t, text x = c :: t /\ Ctype.isspace c = false.

Hypothesis first_runs :
  forall x d s r,
    ok x -> is_delimiter d = true -> Ctype.isspace d = false ->
    at_ (text x ++ d :: s) z m r ->
    runs first r (init x) (at_ (d :: s) z m).

Hypothesis body_runs :
  forall acc x d s r,
    ok x -> is_delimiter d = true -> Ctype.isspace d = false ->
    at_ (text x ++ d :: s) z m r ->
    runs (body acc) r (step acc x) (at_ (d :: s) z m).

Lemma list_text_length (xs : list X) : List.length xs <= List.length (list_text text xs).
Proof.
  destruct xs as [|x xs]; [cbn; lia|].
  unfold list_text. rewrite (join_comma_tail text).
  cbn [List.length]. rewrite !length_app.
  pose proof (comma_tail_length text xs). lia.
Qed.

Lemma list_text_element x (xs : list X) :
  In x xs -> List.length (text x) < List.length (list_text text xs).
Proof.
  destruct xs as [|x' xs]; intros Hin; [destruct Hin|].
  unfold list_text. rewrite (join_comma_tail text).
  cbn [List.length]. rewrite !length_app.
  destruct Hin as [->|Hin]; [lia|].
  pose proof (comma_tail_element text x xs Hin). lia.
Qed.

Lemma list_text_first (xs : list X) :
  exists c t, list_text text xs = c :: t
              /\ Ctype.isspace c = false
              /\ Ascii.eqb c "Z" = false /\ Ascii.eqb c "M" = false.
Proof. destruct xs; cbn; eauto 10. Qed.

Lemma runs_list_production (xs : list X) fuel s r :
  Forall ok xs ->
  List.length xs <= fuel ->
  at_ (list_text text xs ++ s) z m r ->
  runs (list_production first body empty filled fuel) r
    (match xs with
     | [] => empty z m
     | x :: rest => filled (fold_left step rest (init x)) z m
     end)
    (at_ (drop_space s) z m).
Proof.
  intros Hok Hfuel H. unfold list_production. destruct xs as [|x xs].
  - eapply runs_bind; [apply (runs_MatchCI_empty _ _ _ _ H)|].
    intros r1 K1. apply (runs_construct empty _ _ _ _ K1).
  - inversion Hok as [|? ? Hx Hxs]; subst. cbn [List.length] in Hfuel.
    unfold list_text in H. rewrite (join_comma_tail text) in H.
    cbn [app] in H. rewrite <- !app_assoc in H. cbn [app] in H.
    eapply runs_bind; [apply (runs_MatchCI_not_empty _ _ _ _ H)|]. intros r0 K0.
    eapply runs_bind; [apply (runs_Expect _ _ _ _ _ K0)|]. intros r1 K1.
    destruct (text_first x Hx) as (c & t & Et & Hc).
    pose proof K1 as K1'. rewrite Et in K1'. cbn [app] in K1'.
    rewrite drop_space_nonspace in K1' by exact Hc.
    change (c :: t ++ comma_tail text xs ++ ")"%char :: s)
      with ((c :: t) ++ comma_tail text xs ++ ")"%char :: s) in K1'.
    rewrite <- Et in K1'. clear K1.
    destruct (comma_tail_head text xs s) as (d & y & Ed & Hd & Hsp). rewrite Ed in K1'.
    eapply runs_bind; [apply (first_runs x d y r1 Hx Hd Hsp K1')|].
    intros r2 K2. rewrite <- Ed in K2.
    eapply runs_bind.
    { refine (runs_comma_list text body step ok z m text_first body_runs
                xs fuel (init x) s r2 Hxs _ K2). lia. }
    intros r3 K3.
    eapply runs_bind; [apply (runs_Expect _ _ _ _ _ K3)|]. intros r4 K4.
    apply (runs_construct (filled _) _ _ _ _ K4).
Qed.

End ListProduction.

Lemma runs_result {A : Type} (p : M A) r (a b : A) (P : reader -> Prop) :
  a = b -> runs p r a P -> runs p r b P.
Proof. now intros ->. Qed.

Lemma runs_same {A : Type} (p q : M A) r (a : A) (P : reader -> Prop) :
  q r = p r -> runs p r a P -> runs q r a P.
Proof. intros E (r' & H & K). exists r'. now rewrite E. Qed.

(** The list productions whose elements are read by one parser and
    collected in order. *)
Section ItemList.

Context {E X B : Type}.
Variable text : X -> list ascii.
Variable item : M E.
Variable tree : X -> E.
Variable empty : bool -> bool -> B.
Variable filled : list E -> bool -> bool -> B.
Variable ok : X -> Prop.
Variables z m : bool.

Hypothesis text_first :
  forall x, ok x -> exists c t, text x = c :: t /\ Ctype.isspace c = false.

Hypothesis item_runs :
  forall x d s r,
    ok x -> is_delimiter d = true -> Ctype.isspace d = false ->
    at_ (text x ++ d :: s) z m r ->
    runs item r (tree x) (at_ (d :: s) z m).

Lemma runs_item_list (xs : list X) fuel s r :
  Forall ok xs ->
  List.length xs <= fuel ->
  at_ (list_text text xs ++ s) z m r ->
  runs (list_production
          (x <- item ;; ret [x])
          (fun xs => x' <- item ;; ret (xs ++ [x'])%list)
          empty filled fuel) r
    (match xs with
     | [] => empty z m
     | _ :: _ => filled (map tree xs) z m
     end)
    (at_ (drop_space s) z m).
Proof.
  intros Hok Hfuel H.
  eapply runs_result;
    [|apply (runs_list_production text _ _ (fun x => [tree x])
               (fun acc x => acc ++ [tree x])%list empty filled ok z m
               text_first) with (xs := xs) (fuel := fuel) (s := s); try assumption].
  - destruct xs as [|x xs]; [reflexivity|]. now rewrite fold_left_snoc.
  - intros x d s0 r0 Hx Hd Hsp H0.
    eapply runs_bind; [apply (item_runs x d s0 r0 Hx Hd Hsp H0)|].
    intros r1 K1. now apply runs_ret.
  - intros acc x d s0 r0 Hx Hd Hsp H0.
    eapply runs_bind; [apply (item_runs x d s0 r0 Hx Hd Hsp H0)|].
    intros r1 K1. now apply runs_ret.
Qed.

End ItemList.

(** ** Vertex lists *)

Lemma runs_ring vs fuel s z m r :
  is_ring z m vs = true ->
  List.length vs <= fuel ->
  at_ (list_text vertex_text vs ++ s) z m r ->
  runs (ParseVertices fuel) r (ring_of z m vs) (at_ (drop_space s) z m).
Proof.
  intros Hring Hfuel H. destruct (is_ring_facts z m vs Hring) as [Hvs Hcount].
  eapply runs_same; [apply ParseVertices_shape|].
  eapply runs_result;
    [|apply (runs_list_production vertex_text _ _
               (fun v => (map token_value v, uint32 (0 + 1)))
               (fun (cc : list double * Z) v =>
                  (fst cc ++ map token_value v, uint32 (snd cc + 1))%list)
               VertexArray.Empty (fun cc => VertexArray.Copy (fst cc) (snd cc))
               (fun v => is_vertex z m v = true) z m)
        with (xs := vs) (fuel := fuel) (s := s); try assumption].
  - destruct vs as [|v vs]; [reflexivity|].
    change (uint32 (0 + 1)) with 1%Z. cbn [List.length] in Hcount.
    rewrite fold_vertices by lia. cbn [fst snd].
    apply Copy_ring. exact Hvs.
  - intros v Hv. destruct (vertex_first z m v Hv) as (c & x & -> & Hc & _). eauto.
  - intros v d s0 r0 Hv Hd Hsp H0.
    eapply runs_bind; [apply (runs_ParseVertex v d s0 z m r0 Hv Hd Hsp H0)|].
    intros r1 K1. now apply runs_ret.
  - intros acc v d s0 r0 Hv Hd Hsp H0.
    eapply runs_bind;
      [apply (runs_ParseVertex_append (fst acc) v d s0 z m r0 Hv Hd Hsp H0)|].
    intros r1 K1. now apply runs_ret.
  - apply Forall_forall. intros v Hin. rewrite forallb_forall in Hvs. now apply Hvs.
Qed.

Lemma runs_line vs fuel s z m r :
  is_ring z m vs = true ->
  List.length vs <= fuel ->
  at_ (list_text vertex_text vs ++ s) z m r ->
  runs (ParseLineString fuel) r (mkLineString (ring_of z m vs)) (at_ (drop_space s) z m).
Proof.
  intros Hring Hfuel H. unfold ParseLineString.
  eapply runs_bind; [apply (runs_ring vs fuel s z m r Hring Hfuel H)|].
  intros r1 K1. now apply runs_ret.
Qed.

(** A list of vertex lists, each read by [item]. *)
Lemma rings_ok z m fuel (rings : list (list vertex_tokens)) :
  forallb (is_ring z m) rings = true ->
  List.length (list_text (list_text vertex_text) rings) <= fuel ->
  Forall (fun vs => is_ring z m vs = true /\ List.length vs <= fuel) rings
  /\ List.length rings <= fuel.
Proof.
  intros Hv Hfuel. split.
  - apply Forall_forall. intros vs Hin. split.
    + rewrite forallb_forall in Hv. now apply Hv.
    + pose proof (list_text_length vertex_text vs).
      pose proof (list_text_element (list_text vertex_text) vs rings Hin). lia.
  - pose proof (list_text_length (list_text vertex_text) rings). lia.
Qed.

Lemma ring_list_first (vs : list vertex_tokens) :
  exists c t, list_text vertex_text vs = c :: t /\ Ctype.isspace c = false.
Proof. destruct (list_text_first vertex_text vs) as (c & t & E & H & _). eauto. Qed.

Lemma runs_polygon rings fuel s z m r :
  forallb (is_ring z m) rings = true ->
  List.length (list_text (list_text vertex_text) rings) <= fuel ->
  at_ (list_text (list_text vertex_text) rings ++ s) z m r ->
  runs (ParsePolygon fuel) r (polygon_tree z m rings) (at_ (drop_space s) z m).
Proof.
  intros Hv Hfuel H. destruct (rings_ok z m fuel rings Hv Hfuel) as [Hok Hlen].
  eapply runs_same; [apply ParsePolygon_shape|].
  eapply runs_result;
    [|apply (runs_item_list (list_text vertex_text) (ParseVertices fuel) (ring_of z m)
               Ctor.EmptyPolygon Ctor.FilledPolygon
               (fun vs => is_ring z m vs = true /\ List.length vs <= fuel) z m)
        with (xs := rings) (fuel := fuel) (s := s); try assumption].
  - destruct rings as [|ring rings]; [reflexivity|]. apply FilledPolygon_rings.
  - intros vs _. apply ring_list_first.
  - intros vs d s0 r0 [Hring Hl] Hd Hsp H0.
    eapply runs_weaken; [apply (runs_ring vs fuel (d :: s0) z m r0 Hring Hl H0)|].
    intros r1 K1. now rewrite drop_space_delimiter in K1.
Qed.

Lemma runs_multilinestring lines fuel s z m r :
  forallb (is_ring z m) lines = true ->
  List.length (list_text (list_text vertex_text) lines) <= fuel ->
  at_ (list_text (list_text vertex_text) lines ++ s) z m r ->
  runs (ParseMultiLineString fuel) r
    (mkMultiLineString z m (map (fun vs => mkLineString (ring_of z m vs)) lines))
    (at_ (drop_space s) z m).
Proof.
  intros Hv Hfuel H. destruct (rings_ok z m fuel lines Hv Hfuel) as [Hok Hlen].
  eapply runs_same; [apply ParseMultiLineString_shape|].
  eapply runs_result;
    [|apply (runs_item_list (list_text vertex_text) (ParseLineString fuel)
               (fun vs => mkLineString (ring_of z m vs))
               (fun z m => mkMultiLineString z m []) Ctor.FilledMultiLineString
               (fun vs => is_ring z m vs = true /\ List.length vs <= fuel) z m)
        with (xs := lines) (fuel := fuel) (s := s); try assumption].
  - destruct lines as [|line lines]; [reflexivity|]. apply FilledMultiLineString_lines.
  - intros vs _. apply ring_list_first.
  - intros vs d s0 r0 [Hring Hl] Hd Hsp H0.
    eapply runs_weaken; [apply (runs_line vs fuel (d :: s0) z m r0 Hring Hl H0)|].
    intros r1 K1. now rewrite drop_space_delimiter in K1.
Qed.

Lemma runs_multipolygon polygons fuel s z m r :
  forallb (forallb (is_ring z m)) polygons = true ->
  List.length (list_text (list_text (list_text vertex_text)) polygons) <= fuel ->
  at_ (list_text (list_text (list_text vertex_text)) polygons ++ s) z m r ->
  runs (ParseMultiPolygon fuel) r
    (mkMultiPolygon z m (map (polygon_tree z m) polygons))
    (at_ (drop_space s) z m).
Proof.
  intros Hv Hfuel H.
  eapply runs_same; [apply ParseMultiPolygon_shape|].
  eapply runs_result;
    [|apply (runs_item_list (list_text (list_text vertex_text)) (ParsePolygon fuel)
               (polygon_tree z m)
               (fun z m => mkMultiPolygon z m []) Ctor.FilledMultiPolygon
               (fun rings => forallb (is_ring z m) rings = true
                             /\ List.length (list_text (list_text vertex_text) rings)
                                <= fuel) z m)
        with (xs := polygons) (fuel := fuel) (s := s); try assumption].
  - destruct polygons as [|polygon polygons]; [reflexivity|].
    apply FilledMultiPolygon_polygons.
  - intros rings _.
    destruct (list_text_first (list_text vertex_text) rings) as (c & t & E & Hc & _). eauto.
  - intros rings d s0 r0 [Hrings Hl] Hd Hsp H0.
    eapply runs_weaken; [apply (runs_polygon rings fuel (d :: s0) z m r0 Hrings Hl H0)|].
    intros r1 K1. now rewrite drop_space_delimiter in K1.
  - apply Forall_forall. intros rings Hin. split.
    + rewrite forallb_forall in Hv. now apply Hv.
    + pose proof (list_text_element (list_text (list_text vertex_text)) rings polygons Hin).
      lia.
  - pose proof (list_text_length (list_text (list_text vertex_text)) polygons). lia.
Qed.

Lemma runs_multipoint points fuel s z m r :
  forallb (is_vertex z m) points = true ->
  List.length (list_text parenthesized points) <= fuel ->
  at_ (list_text parenthesized points ++ s) z m r ->
  runs (ParseMultiPoint fuel) r
    (mkMultiPoint z m (map (fun v => mkPoint (vertex_of z m v)) points))
    (at_ (drop_space s) z m).
Proof.
  intros Hv Hfuel H.
  eapply runs_result;
    [|apply (runs_list_production parenthesized (ParseMultiPoint_item [])
               ParseMultiPoint_item
               (fun v => [mkPoint (vertex_of z m v)])
               (fun acc v => acc ++ [mkPoint (vertex_of z m v)])%list
               (fun z m => mkMultiPoint z m []) Ctor.FilledMultiPoint
               (fun v => is_vertex z m v = true) z m)
        with (xs := points) (fuel := fuel) (s := s); try assumption].
  - destruct points as [|v points]; [reflexivity|].
    rewrite fold_left_snoc. apply FilledMultiPoint_points.
  - intros v _. unfold parenthesized. eauto.
  - intros v d s0 r0 Hx Hd Hsp H0.
    apply (runs_ParseMultiPoint_item [] (true, v) d s0 z m r0 Hx Hd Hsp H0).
  - intros acc v d s0 r0 Hx Hd Hsp H0.
    apply (runs_ParseMultiPoint_item acc (true, v) d s0 z m r0 Hx Hd Hsp H0).
  - apply Forall_forall. intros v Hin. rewrite forallb_forall in Hv. now apply Hv.
  - pose proof (list_text_length parenthesized points). lia.
Qed.

Lemma runs_point_empty s z m r :
  at_ (list_ascii_of_string "EMPTY" ++ s) z m r ->
  runs ParsePoint r (Ctor.EmptyPoint z m) (at_ (drop_space s) z m).
Proof.
  intros H. unfold ParsePoint.
  eapply runs_bind; [apply (runs_MatchCI_empty _ _ _ _ H)|].
  intros r1 K1. apply (runs_construct Ctor.EmptyPoint _ _ _ _ K1).
Qed.

Lemma runs_point v s z m r :
  is_vertex z m v = true ->
  at_ (parenthesized v ++ s) z m r ->
  runs ParsePoint r (mkPoint (vertex_of z m v)) (at_ (drop_space s) z m).
Proof.
  intros Hv H. unfold ParsePoint, parenthesized in *.
  cbn [app] in H. rewrite <- app_assoc in H. cbn [app] in H.
  eapply runs_bind; [apply (runs_MatchCI_not_empty _ _ _ _ H)|]. intros r0 K0.
  eapply runs_bind; [apply (runs_Expect _ _ _ _ _ K0)|]. intros r1 K1.
  destruct (vertex_first z m v Hv) as (c & x & Ev & Hc & _).
  rewrite Ev in K1. cbn [app] in K1. rewrite drop_space_nonspace in K1 by exact Hc.
  change (c :: x ++ ")"%char :: s) with ((c :: x) ++ ")"%char :: s) in K1.
  rewrite <- Ev in K1.
  eapply runs_bind; [apply (runs_ParseVertex v ")" s z m r1 Hv eq_refl eq_refl K1)|].
  intros r2 K2.
  eapply runs_bind; [apply (runs_Expect _ _ _ _ _ K2)|]. intros r3 K3.
  unfold vertex_of. rewrite <- (Copy_vertex z m v Hv).
  apply (runs_construct (fun z m => mkPoint (VertexArray.Copy _ 1 z m)) _ _ _ _ K3).
Qed.

(** ** Keywords and the dimension suffix *)

Lemma Match_hit_state c s r :
  remaining r = c :: s ->
  exists r1, Match c r = Ok (true, r1)
             /\ remaining r1 = drop_space s
             /\ has_z r1 = has_z r /\ has_m r1 = has_m r /\ zm_set r1 = zm_set r.
Proof.
  intros E. eexists. split; [apply (Match_hit_eq _ _ _ E)|].
  rewrite remaining_shift, E. repeat split.
Qed.

Lemma space_then c t : Ctype.isspace c = false -> drop_space (" "%char :: c :: t) = c :: t.
Proof. intros H. rewrite drop_space_space. now apply drop_space_nonspace. Qed.

(** The suffix the text writes is the one [CheckZM] finds. *)
Lemma declared_zm_text z m c t r :
  Ascii.eqb c "Z" = false -> Ascii.eqb c "M" = false -> Ctype.isspace c = false ->
  remaining r = drop_space (zm_text z m ++ " "%char :: c :: t) ->
  exists r2, declared_zm r = Ok ((z, m), r2)
             /\ remaining r2 = c :: t
             /\ has_z r2 = has_z r /\ has_m r2 = has_m r /\ zm_set r2 = zm_set r.
Proof.
  intros HZ HM Hsp E. unfold declared_zm. destruct z, m.
  - change (remaining r = "Z"%char :: "M"%char :: " "%char :: c :: t) in E.
    destruct (Match_hit_state _ _ _ E) as (r1 & E1 & R1 & F1).
    change (drop_space ("M"%char :: " "%char :: c :: t))
      with ("M"%char :: " "%char :: c :: t) in R1.
    destruct (Match_hit_state _ _ _ R1) as (r2 & E2 & R2 & F2).
    rewrite space_then in R2 by exact Hsp.
    exists r2. unfold bind, ret. rewrite E1, E2. intuition congruence.
  - change (remaining r = "Z"%char :: " "%char :: c :: t) in E.
    destruct (Match_hit_state _ _ _ E) as (r1 & E1 & R1 & F1).
    rewrite space_then in R1 by exact Hsp.
    exists r1. unfold bind, ret. rewrite E1, (Match_miss_eq "M" _ _ _ R1 HM).
    intuition congruence.
  - change (remaining r = "M"%char :: " "%char :: c :: t) in E.
    destruct (Match_hit_state _ _ _ E) as (r1 & E1 & R1 & F1).
    rewrite space_then in R1 by exact Hsp.
    exists r1. unfold bind, ret. rewrite (Match_miss_eq "Z" _ _ _ E eq_refl), E1.
    intuition congruence.
  - change (zm_text false false ++ " "%char :: c :: t) with (" "%char :: c :: t) in E.
    rewrite space_then in E by exact Hsp.
    exists r. unfold bind, ret.
    rewrite (Match_miss_eq "Z" _ _ _ E HZ), (Match_miss_eq "M" _ _ _ E HM). auto.
Qed.

Lemma runs_CheckZM_ready z m c t r :
  Ascii.eqb c "Z" = false -> Ascii.eqb c "M" = false -> Ctype.isspace c = false ->
  remaining r = drop_space (zm_text z m ++ " "%char :: c :: t) ->
  ready z m r ->
  runs CheckZM r tt (at_ (c :: t) z m).
Proof.
  intros HZ HM Hsp E Hready.
  destruct (declared_zm_text z m c t r HZ HM Hsp E) as (r2 & D & E2 & Fz & Fm & Fs).
  unfold declared_zm in D. unfold CheckZM, runs. unfold bind in *.
  destruct (Match "Z" r) as [[gz r1]| | |]; try discriminate D.
  destruct (Match "M" r1) as [[gm r2']| | |]; try discriminate D.
  unfold ret in D. injection D as -> -> ->. unfold get.
  destruct Hready as [Hs|(Hz & Hm & Hs)].
  - rewrite Fs, Hs. eexists. split; [reflexivity|].
    unfold at_. cbn [has_z has_m zm_set]. repeat split. exact E2.
  - rewrite Fs, Hs, Fz, Fm, Hz, Hm, !Bool.eqb_reflx. cbn [negb orb].
    exists r2. split; [reflexivity|]. unfold at_. repeat split; congruence.
Qed.

Lemma length_list_ascii_of_string (s : string) :
  List.length (list_ascii_of_string s) = String.length s.
Proof. induction s as [|c s IH]; cbn; [reflexivity | now rewrite IH]. Qed.

Lemma MatchCI_other kw text rest r n :
  remaining r = list_ascii_of_string text ++ rest ->
  ci_prefix (list_ascii_of_string kw) (list_ascii_of_string text ++ rest) = CiMismatch n ->
  MatchCI kw r = Ok (false, r).
Proof. intros E H. now rewrite MatchCI_view, E, H. Qed.

Lemma MatchCI_keyword kw rest r :
  remaining r = list_ascii_of_string kw ++ rest ->
  ci_prefix (list_ascii_of_string kw) (list_ascii_of_string kw ++ rest) = CiMatched rest ->
  exists r1, MatchCI kw r = Ok (true, r1)
             /\ remaining r1 = drop_space rest
             /\ has_z r1 = has_z r /\ has_m r1 = has_m r /\ zm_set r1 = zm_set r.
Proof.
  intros E H. eexists. rewrite MatchCI_view, E, H. split; [reflexivity|].
  split; [|repeat split].
  rewrite remaining_shift, E, Nat.add_comm, <- skipn_skipn.
  rewrite <- length_list_ascii_of_string. now rewrite skipn_app_exact.
Qed.

Lemma ci_prefix_self (k rest : list ascii) : ci_prefix k (k ++ rest) = CiMatched rest.
Proof.
  induction k as [|c k IH]; [reflexivity|].
  cbn [app ci_prefix]. now rewrite Ascii.eqb_refl, IH.
Qed.

(** The reader passes over a keyword that the text does not start
    with. *)
Lemma runs_keyword_skip {A : Type} kw text rest (K K' : M A) r a (P : reader -> Prop) n :
  remaining r = list_ascii_of_string text ++ rest ->
  ci_prefix (list_ascii_of_string kw) (list_ascii_of_string text ++ rest) = CiMismatch n ->
  runs K' r a P ->
  runs (b <- MatchCI kw ;; if b then K else K') r a P.
Proof.
  intros E H (r' & EK & HP). exists r'. unfold bind.
  rewrite (MatchCI_other kw text rest r n E H). auto.
Qed.

(** The reader takes the keyword of the text and its suffix, and goes
    on with the body. *)
Lemma runs_keyword_then {A : Type} kw (K K' : M A) z m c t r a (P : reader -> Prop) :
  remaining r = list_ascii_of_string kw ++ zm_text z m ++ " "%char :: c :: t ->
  ready z m r ->
  Ascii.eqb c "Z" = false -> Ascii.eqb c "M" = false -> Ctype.isspace c = false ->
  (forall r2, at_ (c :: t) z m r2 -> runs K r2 a P) ->
  runs (b <- MatchCI kw ;; if b then CheckZM ;;; K else K') r a P.
Proof.
  intros E Hready HZ HM Hsp HK.
  destruct (MatchCI_keyword kw _ r E (ci_prefix_self _ _)) as (r1 & EM & E1 & Fz & Fm & Fs).
  assert (Hready1 : ready z m r1).
  { destruct Hready as [Hs|(Hz & Hm & Hs)]; [left | right]; repeat split; congruence. }
  destruct (runs_CheckZM_ready z m c t r1 HZ HM Hsp E1 Hready1) as (r2 & EC & K2).
  destruct (HK r2 K2) as (r3 & EK & HP).
  exists r3. unfold bind. rewrite EM. unfold bind in EC |- *. rewrite EC. auto.
Qed.

Lemma render_first z m w :
  exists c t, render z m w = c :: t /\ Ctype.isspace c = false.
Proof. destruct w; cbn; eauto. Qed.

Lemma at_ready s z m r : at_ s z m r -> ready z m r.
Proof. intros (_ & Hz & Hm & Hs). right. auto. Qed.

(** ** Geometries *)

Lemma runs_ParseGeometry fuel :
  forall w z m s r,
    well_written z m w = true ->
    List.length (render z m w) < fuel ->
    remaining r = render z m w ++ s ->
    ready z m r ->
    runs (ParseGeometry fuel) r (tree_of z m w) (at_ (drop_space s) z m).
Proof.
  induction fuel as [|fuel IH]; intros w z m s r Hw Hfuel E Hready; [lia|].
  cbn [ParseGeometry].
  destruct w as [[v|]|vs|rings|points|lines|polygons|items];
    cbn [render keyword well_written tree_of] in *;
    rewrite length_app, length_app in Hfuel; cbn [List.length] in Hfuel;
    rewrite <- !app_assoc in E; cbn [app] in E.
  - (* POINT (v) *)
    unfold parenthesized in E, Hfuel. cbn [app] in E.
    eapply runs_keyword_then; [exact E | exact Hready | reflexivity..|].
    intros r2 K2.
    eapply runs_bind; [apply (runs_point v s z m r2 Hw)|].
    + unfold parenthesized. cbn [app]. exact K2.
    + intros r3 K3. now apply runs_ret.
  - (* POINT EMPTY *)
    change (list_ascii_of_string "EMPTY" ++ s)
      with ("E"%char :: list_ascii_of_string "MPTY" ++ s) in E.
    eapply runs_keyword_then; [exact E | exact Hready | reflexivity..|].
    intros r2 K2.
    eapply runs_bind; [apply (runs_point_empty s z m r2 K2)|].
    intros r3 K3. now apply runs_ret.
  - (* LINESTRING *)
    apply (runs_keyword_skip "POINT" "LINESTRING" _ _ _ r _ _ 0 E eq_refl).
    destruct (list_text_first vertex_text vs) as (c & t & Eb & Hc & HZ & HM).
    pose proof E as E'. rewrite Eb in E'. cbn [app] in E'.
    eapply runs_keyword_then; [exact E' | exact Hready | assumption..|].
    intros r2 K2. change (c :: t ++ s) with ((c :: t) ++ s) in K2. rewrite <- Eb in K2.
    eapply runs_bind; [apply (runs_line vs fuel s z m r2 Hw)|].
    + pose proof (list_text_length vertex_text vs). lia.
    + exact K2.
    + intros r3 K3. now apply runs_ret.
  - (* POLYGON *)
    apply (runs_keyword_skip "POINT" "POLYGON" _ _ _ r _ _ 2 E eq_refl).
    apply (runs_keyword_skip "LINESTRING" "POLYGON" _ _ _ r _ _ 0 E eq_refl).
    destruct (list_text_first (list_text vertex_text) rings) as (c & t & Eb & Hc & HZ & HM).
    pose proof E as E'. rewrite Eb in E'. cbn [app] in E'.
    eapply runs_keyword_then; [exact E' | exact Hready | assumption..|].
    intros r2 K2. change (c :: t ++ s) with ((c :: t) ++ s) in K2. rewrite <- Eb in K2.
    eapply runs_bind; [apply (runs_polygon rings fuel s z m r2 Hw)|].
    + lia.
    + exact K2.
    + intros r3 K3. now apply runs_ret.
  - (* MULTIPOINT *)
    apply (runs_keyword_skip "POINT" "MULTIPOINT" _ _ _ r _ _ 0 E eq_refl).
    apply (runs_keyword_skip "LINESTRING" "MULTIPOINT" _ _ _ r _ _ 0 E eq_refl).
    apply (runs_keyword_skip "POLYGON" "MULTIPOINT" _ _ _ r _ _ 0 E eq_refl).
    destruct (list_text_first parenthesized points) as (c & t & Eb & Hc & HZ & HM).
    pose proof E as E'. rewrite Eb in E'. cbn [app] in E'.
    eapply runs_keyword_then; [exact E' | exact Hready | assumption..|].
    intros r2 K2. change (c :: t ++ s) with ((c :: t) ++ s) in K2. rewrite <- Eb in K2.
    eapply runs_bind; [apply (runs_multipoint points fuel s z m r2 Hw)|].
    + lia.
    + exact K2.
    + intros r3 K3. now apply runs_ret.
  - (* MULTILINESTRING *)
    apply (runs_keyword_skip "POINT" "MULTILINESTRING" _ _ _ r _ _ 0 E eq_refl).
    apply (runs_keyword_skip "LINESTRING" "MULTILINESTRING" _ _ _ r _ _ 0 E eq_refl).
    apply (runs_keyword_skip "POLYGON" "MULTILINESTRING" _ _ _ r _ _ 0 E eq_refl).
    apply (runs_keyword_skip "MULTIPOINT" "MULTILINESTRING" _ _ _ r _ _ 5 E eq_refl).
    destruct (list_text_first (list_text vertex_text) lines) as (c & t & Eb & Hc & HZ & HM).
    pose proof E as E'. rewrite Eb in E'. cbn [app] in E'.
    eapply runs_keyword_then; [exact E' | exact Hready | assumption..|].
    intros r2 K2. change (c :: t ++ s) with ((c :: t) ++ s) in K2. rewrite <- Eb in K2.
    eapply runs_bind; [apply (runs_multilinestring lines fuel s z m r2 Hw)|].
    + lia.
    + exact K2.
    + intros r3 K3. now apply runs_ret.
  - (* MULTIPOLYGON *)
    apply (runs_keyword_skip "POINT" "MULTIPOLYGON" _ _ _ r _ _ 0 E eq_refl).
    apply (runs_keyword_skip "LINESTRING" "MULTIPOLYGON" _ _ _ r _ _ 0 E eq_refl).
    apply (runs_keyword_skip "POLYGON" "MULTIPOLYGON" _ _ _ r _ _ 0 E eq_refl).
    apply (runs_keyword_skip "MULTIPOINT" "MULTIPOLYGON" _ _ _ r _ _ 7 E eq_refl).
    apply (runs_keyword_skip "MULTILINESTRING" "MULTIPOLYGON" _ _ _ r _ _ 5 E eq_refl).
    destruct (list_text_first (list_text (list_text vertex_text)) polygons)
      as (c & t & Eb & Hc & HZ & HM).
    pose proof E as E'. rewrite Eb in E'. cbn [app] in E'.
    eapply runs_keyword_then; [exact E' | exact Hready | assumption..|].
    intros r2 K2. change (c :: t ++ s) with ((c :: t) ++ s) in K2. rewrite <- Eb in K2.
    eapply runs_bind; [apply (runs_multipolygon polygons fuel s z m r2 Hw)|].
    + lia.
    + exact K2.
    + intros r3 K3. now apply runs_ret.
  - (* GEOMETRYCOLLECTION *)
    apply (runs_keyword_skip "POINT" "GEOMETRYCOLLECTION" _ _ _ r _ _ 0 E eq_refl).
    apply (runs_keyword_skip "LINESTRING" "GEOMETRYCOLLECTION" _ _ _ r _ _ 0 E eq_refl).
    apply (runs_keyword_skip "POLYGON" "GEOMETRYCOLLECTION" _ _ _ r _ _ 0 E eq_refl).
    apply (runs_keyword_skip "MULTIPOINT" "GEOMETRYCOLLECTION" _ _ _ r _ _ 0 E eq_refl).
    apply (runs_keyword_skip "MULTILINESTRING" "GEOMETRYCOLLECTION" _ _ _ r _ _ 0 E eq_refl).
    apply (runs_keyword_skip "MULTIPOLYGON" "GEOMETRYCOLLECTION" _ _ _ r _ _ 0 E eq_refl).
    destruct (list_text_first (render z m) items) as (c & t & Eb & Hc & HZ & HM).
    pose proof E as E'. rewrite Eb in E'. cbn [app] in E'.
    eapply runs_keyword_then; [exact E' | exact Hready | assumption..|].
    intros r2 K2. change (c :: t ++ s) with ((c :: t) ++ s) in K2. rewrite <- Eb in K2.
    eapply runs_same; [apply ParseGeometryCollection_shape|].
    eapply runs_result;
      [|apply (runs_item_list (render z m) (ParseGeometry fuel) (tree_of z m)
                 (fun z m => GeomCollection z m []) Ctor.FilledCollection
                 (fun x => well_written z m x = true
                           /\ List.length (render z m x) < fuel) z m)
          with (xs := items) (fuel := fuel) (s := s); try assumption].
    + destruct items as [|item items]; [reflexivity|]. apply FilledCollection_items.
    + intros x _. apply render_first.
    + intros x d s0 r0 [Hx Hl] Hd Hsp H0.
      eapply runs_weaken;
        [apply (IH x z m (d :: s0) r0 Hx Hl (proj1 H0) (at_ready _ _ _ _ H0))|].
      intros r1 K1. now rewrite drop_space_delimiter in K1.
    + apply Forall_forall. intros x Hin. split.
      * rewrite forallb_forall in Hw. now apply Hw.
      * pose proof (list_text_element (render z m) x items Hin). lia.
    + pose proof (list_text_length (render z m) items). lia.
Qed.

Lemma render_initial z m w :
  exists c t, render z m w = c :: t
              /\ Ascii.eqb (Ctype.tolower "S") (Ctype.tolower c) = false.
Proof. destruct w; cbn; eauto. Qed.

(** The text of a geometry, whatever follows it. *)
Lemma Parse_written_then z m w (t : string) :
  well_written z m w = true ->
  Parse (string_of_list_ascii (render z m w) ++ t) = Ok (tree_of z m w).
Proof.
  intros Hw. unfold Parse.
  rewrite list_ascii_of_string_app, list_ascii_of_string_of_list_ascii.
  set (bytes := render z m w ++ list_ascii_of_string t).
  set (r0 := mkReader bytes 0 false false false).
  assert (E0 : remaining r0 = render z m w ++ list_ascii_of_string t) by reflexivity.
  destruct (render_initial z m w) as (c & x & Ec & Hs).
  assert (E0' : remaining r0 = c :: x ++ list_ascii_of_string t)
    by (rewrite E0, Ec; reflexivity).
  unfold ParseWKT. unfold bind at 1.
  rewrite (MatchCI_first_mismatch "S" _ r0 c _ E0' Hs).
  unfold bind at 1, ret at 1.
  destruct (runs_ParseGeometry (S (List.length bytes)) w z m (list_ascii_of_string t) r0)
    as (r1 & EP & _); try assumption.
  - unfold bytes. rewrite length_app. lia.
  - left. reflexivity.
  - now rewrite EP.
Qed.

Lemma append_empty (s : string) : (s ++ "")%string = s.
Proof. induction s as [|c s IH]; cbn; [reflexivity | now rewrite IH]. Qed.

(** X7.  The reader returns what is written: for a geometry of any of
    the seven kinds, written with its keyword, its dimension suffix and
    its body (EMPTY, or the elements in parentheses separated by
    commas; collections nested to any depth), [Parse] returns the tree
    of the same shape that holds the value of each number token, in the
    order of the text, with the dimension flags of the suffix on every
    node. *)
Theorem Parse_returns_what_is_written (z m : bool) (w : written) :
  well_written z m w = true ->
  Parse (string_of_list_ascii (render z m w)) = Ok (tree_of z m w).
Proof.
  intros Hw. rewrite <- (Parse_written_then z m w "" Hw). now rewrite append_empty.
Qed.

Lemma Parse_returns_what_is_written_witness :
  Parse "GEOMETRYCOLLECTION Z (POINT Z (1 2 3), LINESTRING Z EMPTY, GEOMETRYCOLLECTION Z EMPTY)"
  = Ok (GeomCollection true false
          [GeomPoint (mkPoint (mkVertexArray true false 1
             [4607182418800017408; 4611686018427387904; 4613937818241073152]%Z));
           GeomLineString (mkLineString (VertexArray.Empty true false));
           GeomCollection true false []]).
Proof.
  apply (Parse_returns_what_is_written true false
           (WCollection [WPoint (Some [["1"%char]; ["2"%char]; ["3"%char]]);
                         WLineString []; WCollection []])).
  vm_compute. reflexivity.
Defined.

(** X8.  [Parse] does not require the input to end where the geometry
    ends: whatever text follows a written geometry is ignored, and the
    result is the one of the geometry alone. *)
Theorem Parse_ignores_trailing_text (z m : bool) (w : written) (t : string) :
  well_written z m w = true ->
  Parse (string_of_list_ascii (render z m w) ++ t)
  = Parse (string_of_list_ascii (render z m w))
  /\ Parse (string_of_list_ascii (render z m w) ++ t) = Ok (tree_of z m w).
Proof.
  intros Hw. rewrite (Parse_written_then z m w t Hw).
  rewrite <- (append_empty (string_of_list_ascii (render z m w))).
  now rewrite (Parse_written_then z m w "" Hw).
Qed.

Lemma Parse_ignores_trailing_text_witness :
  Parse "POINT (1 2)) and more" = Parse "POINT (1 2)".
Proof.
  apply (Parse_ignores_trailing_text false false
           (WPoint (Some [["1"%char]; ["2"%char]])) ") and more").
  vm_compute. reflexivity.
Defined.

(** ** Keywords in any letter case, and words that are no keyword *)

Lemma ci_prefix_case (k : list ascii) :
  forall text rest,
    map Ctype.tolower text = map Ctype.tolower k ->
    ci_prefix k (text ++ rest) = CiMatched rest.
Proof.
  induction k as [|c k IH]; intros text rest H.
  - destruct text; [reflexivity | discriminate H].
  - destruct text as [|x text]; [discriminate H|].
    cbn [map] in H. injection H as Hc Hk.
    cbn [app ci_prefix]. rewrite Hc, Ascii.eqb_refl. now rewrite IH.
Qed.

(** X9.  [MatchCI] compares without regard to letter case: when the
    bytes at the cursor are the keyword in any mix of upper and lower
    case, it returns true and leaves the cursor after the keyword and
    the white space that follows it.  When it returns false it has put
    the cursor back where it was, and it never raises an exception. *)
Theorem MatchCI_ignores_letter_case (str : string) (r : reader) :
  (forall text rest,
      map Ctype.tolower text = map Ctype.tolower (list_ascii_of_string str) ->
      remaining r = text ++ rest ->
      MatchCI str r
      = Ok (true, set_cursor (cursor r + (String.length str + space_run rest)) r))
  /\ (forall r', MatchCI str r = Ok (false, r') -> r' = r)
  /\ (forall msg, MatchCI str r <> InvalidInputException msg).
Proof.
  repeat split.
  - intros text rest Hcase E. rewrite MatchCI_view, E.
    now rewrite (ci_prefix_case _ text rest Hcase).
  - intros r'. rewrite MatchCI_view.
    destruct (ci_prefix _ _); intros H; try discriminate H. now injection H as <-.
  - intros msg. rewrite MatchCI_view. destruct (ci_prefix _ _); discriminate.
Qed.

Lemma MatchCI_ignores_letter_case_witness :
  MatchCI "POLYGON"
    (mkReader (list_ascii_of_string "PolyGon  ((0 0))") 0 false false false)
  = Ok (true, mkReader (list_ascii_of_string "PolyGon  ((0 0))") 9 false false false).
Proof.
  refine (proj1 (MatchCI_ignores_letter_case "POLYGON" _)
            (list_ascii_of_string "PolyGon") (list_ascii_of_string "  ((0 0))") _ _);
    reflexivity.
Defined.

(** X10.  An input that starts with none of the letters P, L, M, G
    and S (in either case) is rejected as an unknown geometry type: the
    message names the alphanumeric word the input starts with, and the
    position it reports is 0, the context being taken before the word is
    read. *)
Theorem Parse_unknown_geometry_type (c : ascii) (rest : string) :
  keyword_initial c = false ->
  Ascii.eqb (Ctype.tolower "S") (Ctype.tolower c) = false ->
  Parse (String c rest)
  = InvalidInputException
      ("WKT Parser: Unknown geometry type '"
       ++ string_of_list_ascii
            (firstn (word_run (c :: list_ascii_of_string rest))
                    (c :: list_ascii_of_string rest))
       ++ "' at position 0 near: '" ++ String c "" ++ "'|<---")%string.
Proof.
  intros Hk Hs. unfold Parse. cbn [list_ascii_of_string].
  set (bytes := c :: list_ascii_of_string rest).
  set (r0 := mkReader bytes 0 false false false).
  assert (E : remaining r0 = c :: list_ascii_of_string rest) by reflexivity.
  destruct (not_keyword_initial c Hk) as (Hp & Hl & Hm & Hg).
  unfold ParseWKT. unfold bind at 1.
  rewrite (MatchCI_first_mismatch "S" _ r0 c _ E Hs).
  unfold bind at 1, ret at 1. cbn [ParseGeometry]. unfold bind.
  rewrite (MatchCI_first_mismatch "P" _ r0 c _ E Hp).
  rewrite (MatchCI_first_mismatch "L" _ r0 c _ E Hl).
  rewrite (MatchCI_first_mismatch "P" _ r0 c _ E Hp).
  rewrite !(MatchCI_first_mismatch "M" _ r0 c _ E Hm).
  rewrite (MatchCI_first_mismatch "G" _ r0 c _ E Hg).
  unfold GetErrorContext, ParseWord, get, move_to, ret, throw, substring. unfold bind.
  change (remaining r0) with bytes. change (end_ r0) with (List.length bytes).
  change (cursor r0) with 0. change (input r0) with bytes.
  cbn [Nat.sub Nat.add Nat.eqb skipn].
  replace (Nat.min 1 (List.length bytes)) with 1 by (unfold bytes; cbn [List.length]; lia).
  rewrite Nat.sub_0_r. reflexivity.
Qed.

Lemma Parse_unknown_geometry_type_witness :
  Parse "CIRCULARSTRING(0 0, 1 1, 2 0)"
  = InvalidInputException
      "WKT Parser: Unknown geometry type 'CIRCULARSTRING' at position 0 near: 'C'|<---".
Proof.
  apply (Parse_unknown_geometry_type "C" "IRCULARSTRING(0 0, 1 1, 2 0)"); reflexivity.
Defined.

(* ================================================================== *)
(** * The GDAL copy function                                           *)
(* ================================================================== *)

Section CopyFunction.

Import Gdal.

Context {duckdb : DuckDB} {ogr : OGR}.

Local Open Scope string_scope.

(** X11.  A LIST column gets the list form of the field type of its
    element type, with the same subtype and the column's name; that is
    all the list types there are: a list of blobs, dates, times or
    timestamps, though each of them has a field type of its own, and a
    list of lists are not supported. *)
Theorem list_field_is_list_form_of_child (name : string) :
  (forall child_type alias field,
      OGRFieldTypeFromLogicalType name (ListType child_type alias) = Returned field ->
      exists child_field,
        OGRFieldTypeFromLogicalType name child_type = Returned child_field
        /\ list_form (field_type child_field) = Some (field_type field)
        /\ field_subtype field = field_subtype child_field
        /\ field_name field = name)
  /\ (forall id alias alias',
         In id scalar_only ->
         (exists field, OGRFieldTypeFromLogicalType name (Plain id alias) = Returned field)
         /\ OGRFieldTypeFromLogicalType name (ListType (Plain id alias) alias')
            = NotImplementedException
                ("Unsupported type for OGR: " ++ ToString (ListType (Plain id alias) alias')))
  /\ (forall child_type alias alias',
         OGRFieldTypeFromLogicalType name (ListType (ListType child_type alias) alias')
         = NotImplementedException
             ("Unsupported type for OGR: "
              ++ ToString (ListType (ListType child_type alias) alias'))).
Proof.
  repeat split.
  - intros child_type alias field H.
    destruct child_type as [[] a|c a]; cbn in H; try discriminate H;
      injection H as <-; eexists; repeat split.
  - unfold scalar_only in H. cbn in H.
    repeat (destruct H as [<-|H]; [cbn; eauto|]). destruct H.
  - unfold scalar_only in H. cbn in H.
    repeat (destruct H as [<-|H]; [reflexivity|]). destruct H.
Qed.

(** ** The fields of the layer and the fields of a feature *)

Lemma skipn_nth_error {A : Type} (l : list A) (i : nat) (x : A) :
  nth_error l i = Some x -> skipn i l = x :: skipn (S i) l.
Proof.
  revert i. induction l as [|y l IH]; intros i H; [destruct i; discriminate H|].
  destruct i as [|i]; [now injection H as ->|]. cbn in H |- *. now apply IH.
Qed.

Lemma create_fields_columns (sql_types : list LogicalType) (names : list string) :
  forall (row : list Value) i count layer defs layer' defs',
    List.length row = List.length names ->
    (count <= 1)%nat ->
    create_fields names i sql_types count layer defs = Returned (layer', defs') ->
    exists new,
      layer' = (layer ++ new)%list /\ defs' = (defs ++ new)%list
      /\ Forall2 (fun column field =>
                    OGRFieldTypeFromLogicalType (fst (fst column)) (snd (fst column))
                    = Returned field)
           (attribute_columns (combine (combine names (skipn i sql_types)) row)) new
      /\ (count
          + List.length (geometry_columns (combine (combine names (skipn i sql_types)) row))
          <= 1)%nat.
Proof.
  induction names as [|name names IH];
    intros row i count layer defs layer' defs' Hlen Hcount H.
  - cbn in H. injection H as <- <-. exists []. rewrite !app_nil_r. cbn.
    repeat split; [constructor | lia].
  - destruct row as [|value row]; [discriminate Hlen|]. cbn in Hlen.
    cbn [create_fields] in H.
    destruct (nth_error sql_types i) as [type|] eqn:Et; [|discriminate H].
    rewrite (skipn_nth_error _ _ _ Et). cbn [combine].
    unfold attribute_columns, geometry_columns. cbn [filter fst snd].
    destruct (IsGeometryType type) eqn:Eg; cbn [negb].
    + destruct (1 <? S count)%nat eqn:Ec; [discriminate H|].
      apply Nat.ltb_ge in Ec.
      destruct (IH row (S i) (S count) layer defs layer' defs') as (new & -> & -> & F & G);
        [lia | lia | exact H|].
      exists new. repeat split; [exact F|].
      unfold geometry_columns in G. cbn [List.length]. lia.
    + destruct (OGRFieldTypeFromLogicalType name type) as [field| | | | |] eqn:Ef;
        try discriminate H.
      cbn [and_then] in H.
      destruct (CreateField layer field); [|discriminate H].
      destruct (IH row (S i) count (layer ++ [field])%list (defs ++ [field])%list
                  layer' defs') as (new & -> & -> & F & G);
        [lia | lia | exact H|].
      exists (field :: new). rewrite <- !app_assoc. repeat split.
      * constructor; [exact Ef | exact F].
      * exact G.
Qed.

Lemma sink_columns_columns (bind_data : BindData) (values : list Value) :
  forall (names : list string) col_idx field_idx feature feature',
    List.length names = List.length values ->
    sink_columns bind_data values col_idx field_idx feature = Returned feature' ->
    exists new,
      feature_fields feature' = (feature_fields feature ++ new)%list
      /\ Forall2 (fun column field =>
                    SetOgrFieldFromValue (snd (fst column)) (snd column)
                    = Returned (snd field))
           (attribute_columns
              (combine (combine names (skipn col_idx (field_sql_types bind_data))) values))
           new
      /\ map fst new
         = map (fun k => to_int (field_idx + Z.of_nat k)) (seq 0 (List.length new)).
Proof.
  induction values as [|value values IH];
    intros names col_idx field_idx feature feature' Hlen H.
  - cbn in H. injection H as <-. exists []. rewrite app_nil_r.
    destruct names; [|discriminate Hlen]. cbn. repeat split. constructor.
  - destruct names as [|name names]; [discriminate Hlen|]. cbn in Hlen.
    cbn [sink_columns] in H.
    destruct (nth_error (field_sql_types bind_data) col_idx) as [type|] eqn:Et;
      [|discriminate H].
    rewrite (skipn_nth_error _ _ _ Et). cbn [combine].
    unfold attribute_columns. cbn [filter fst snd].
    destruct (IsGeometryType type) eqn:Eg; cbn [negb].
    + destruct (OGRGeometryFromValue type value) as [geom| | | | |]; try discriminate H.
      cbn [and_then] in H.
      destruct (_ && _); [discriminate H|].
      destruct (SetGeometry geom); [|discriminate H].
      assert (Hl : List.length names = List.length values) by lia.
      destruct (IH names _ _ _ _ Hl H) as (new & E & F & I).
      exists new. cbn [feature_fields] in E. auto.
    + destruct (SetOgrFieldFromValue type value) as [field| | | | |] eqn:Ef;
        try discriminate H.
      cbn [and_then] in H.
      assert (Hl : List.length names = List.length values) by lia.
      destruct (IH names _ _ _ _ Hl H) as (new & E & F & I).
      cbn [feature_fields] in E.
      exists ((to_int field_idx, field) :: new). rewrite E, <- app_assoc.
      repeat split.
      * constructor; [exact Ef | exact F].
      * cbn [map List.length seq fst]. rewrite Z.add_0_r. f_equal.
        rewrite I, <- seq_shift, map_map. apply map_ext. intros k. f_equal. lia.
Qed.

(** X12.  The fields of a feature follow the fields of the layer.
    When [InitGlobal] has created the fields of the layer from the
    columns, and [Sink] has filled a feature from a row of as many
    values, the attribute columns (those that are no geometry), taken in
    order, give both: the k-th field definition comes from the name and
    type of the k-th attribute column, and the k-th field set in the
    feature has index k and holds the value of that same column.  There
    is at most one geometry column, and the layer has the fields of
    [field_defs]. *)
Theorem Sink_fields_follow_field_defs
    (bind_data : BindData) (row : list Value)
    (layer defs : list OGRFieldDefn) (feature : OGRFeature OGRGeometry real32) :
  create_fields (field_names bind_data) 0 (field_sql_types bind_data) 0 [] []
  = Returned (layer, defs) ->
  sink_columns bind_data row 0 0 (mkFeature None []) = Returned feature ->
  List.length row = List.length (field_names bind_data) ->
  (Z.of_nat (List.length defs) <= 2 ^ 31)%Z ->
  let columns :=
    combine (combine (field_names bind_data) (field_sql_types bind_data)) row in
  layer = defs
  /\ (List.length (geometry_columns columns) <= 1)%nat
  /\ Forall2 (fun column field =>
                OGRFieldTypeFromLogicalType (fst (fst column)) (snd (fst column))
                = Returned field)
       (attribute_columns columns) defs
  /\ Forall2 (fun column field =>
                SetOgrFieldFromValue (snd (fst column)) (snd column)
                = Returned (snd field))
       (attribute_columns columns) (feature_fields feature)
  /\ map fst (feature_fields feature) = map Z.of_nat (seq 0 (List.length defs)).
Proof.
  intros Hc Hs Hlen Hsmall columns.
  destruct (create_fields_columns _ _ row 0 0 [] [] layer defs Hlen (Nat.le_0_l _) Hc)
    as (new & -> & -> & F & G).
  destruct (sink_columns_columns bind_data row (field_names bind_data) 0 0%Z _ feature
              (eq_sym Hlen) Hs) as (set & E & F' & I).
  cbn [skipn app feature_fields] in *. subst columns.
  repeat split; try assumption.
  - now rewrite E.
  - rewrite E, I.
    assert (Hsame : List.length set = List.length new).
    { rewrite <- (Forall2_length F'), <- (Forall2_length F). reflexivity. }
    rewrite Hsame. apply map_ext_in. intros k Hk. apply in_seq in Hk.
    unfold to_int. rewrite Z.add_0_l.
    rewrite Z.mod_small by lia. lia.
Qed.

(** ** Values that are written, and values that are not *)


Lemma MICROS_PER_MINUTE_value : MICROS_PER_MINUTE = 60000000%Z.
Proof. reflexivity. Qed.

Lemma MICROS_PER_HOUR_value : MICROS_PER_HOUR = 3600000000%Z.
Proof. reflexivity. Qed.

Lemma MICROS_PER_DAY_value : MICROS_PER_DAY = 86400000000%Z.
Proof. reflexivity. Qed.

Lemma to_int_small (n : Z) : (- 2 ^ 31 <= n < 2 ^ 31)%Z -> to_int n = n.
Proof. intros H. unfold to_int. rewrite Z.mod_small by lia. lia. Qed.

(** The hour, the minute and the microseconds of the second of a time
    of day. *)
Lemma time_of_day (micros : Z) :
  (0 <= micros <= MICROS_PER_DAY)%Z ->
  let hour := to_int (Z.quot micros MICROS_PER_HOUR) in
  let minute := to_int (Z.quot (Z.rem micros MICROS_PER_HOUR) MICROS_PER_MINUTE) in
  (0 <= hour <= 24)%Z /\ (0 <= minute < 60)%Z
  /\ (0 <= Z.rem micros MICROS_PER_MINUTE < MICROS_PER_MINUTE)%Z
  /\ (hour * MICROS_PER_HOUR + minute * MICROS_PER_MINUTE
      + Z.rem micros MICROS_PER_MINUTE = micros)%Z.
Proof.
  rewrite MICROS_PER_DAY_value, MICROS_PER_HOUR_value, MICROS_PER_MINUTE_value.
  intros H hour minute. subst hour minute.
  rewrite !Z.rem_mod_nonneg by lia.
  rewrite !Z.quot_div_nonneg by (try apply Z.mod_pos_bound; lia).
  assert (Hh : (0 <= micros / 3600000000 <= 24)%Z).
  { split; [apply Z.div_pos; lia | apply Z.div_le_upper_bound; lia]. }
  pose proof (Z.mod_pos_bound micros 3600000000 eq_refl) as Hr.
  assert (Hm : (0 <= micros mod 3600000000 / 60000000 < 60)%Z).
  { split; [apply Z.div_pos; lia | apply Z.div_lt_upper_bound; lia]. }
  rewrite !to_int_small by (change (2 ^ 31)%Z with 2147483648%Z; lia).
  pose proof (Z.mod_pos_bound micros 60000000 eq_refl) as Hs.
  repeat split; try lia.
  pose proof (Z.div_mod micros 3600000000) as D1.
  pose proof (Z.div_mod (micros mod 3600000000) 60000000) as D2.
  replace (micros mod 60000000)%Z with ((micros mod 3600000000) mod 60000000)%Z.
  - lia.
  - apply Z.mod_mod_divide. exists 60%Z. reflexivity.
Qed.

(** X14.  A TIME value from 00:00:00 to 24:00:00 is written as the
    date 0-0-0 with an hour from 0 to 24 and a minute from 0 to 59 that,
    with the microseconds the second is computed from, make up the
    value again; the second is the float of those microseconds divided
    by 1000000.  A timestamp is written with the fields of its date and,
    when the time of its day is below 24 hours, with the hour, minute
    and second that the TIME of that time of day gets. *)
Theorem time_fields_recompose (alias : string) (value : Value) :
  IsNull value = false ->
  (0 <= GetTime value <= MICROS_PER_DAY)%Z ->
  (exists hour minute,
      SetOgrFieldFromValue (Plain TIME alias) value
      = Returned (FieldDateTime 0 0 0 hour minute (seconds_of (GetTime value)) 0)
      /\ (0 <= hour <= 24)%Z /\ (0 <= minute < 60)%Z
      /\ (0 <= Z.rem (GetTime value) MICROS_PER_MINUTE < MICROS_PER_MINUTE)%Z
      /\ (hour * MICROS_PER_HOUR + minute * MICROS_PER_MINUTE
          + Z.rem (GetTime value) MICROS_PER_MINUTE = GetTime value)%Z)
  /\ (forall timestamp,
         Timestamp_GetTime timestamp = GetTime value ->
         (GetTime value < MICROS_PER_DAY)%Z ->
         exists hour minute,
           SetOgrFieldFromValue (Plain TIME alias) value
           = Returned (FieldDateTime 0 0 0 hour minute (seconds_of (GetTime value)) 0)
           /\ timestamp_field timestamp
              = FieldDateTime (ExtractYear (Timestamp_GetDate timestamp))
                  (ExtractMonth (Timestamp_GetDate timestamp))
                  (ExtractDay (Timestamp_GetDate timestamp))
                  hour minute (seconds_of (GetTime value)) 0).
Proof.
  intros Hnull Hrange. split.
  - unfold SetOgrFieldFromValue. rewrite Hnull.
    eexists. eexists. split; [reflexivity|]. now apply time_of_day.
  - intros timestamp Et Hday. unfold SetOgrFieldFromValue, timestamp_field.
    rewrite Hnull, Et. eexists. eexists. split; [reflexivity|].
    f_equal. f_equal. f_equal. rewrite MICROS_PER_DAY_value in *.
    rewrite (Z.rem_mod_nonneg (GetTime value) 86400000000) by lia.
    rewrite Z.mod_small by lia. reflexivity.
Qed.

(** ** Bind *)

Lemma front_string_returned msg (set : list Value) v :
  front_string msg set = Returned v -> exists x rest, set = x :: rest /\ v = GetString x.
Proof.
  unfold front_string. destruct set as [|x rest]; [discriminate|].
  destruct (is_varchar (value_type x)); [|discriminate].
  intros [= <-]. eauto.
Qed.

Lemma geometry_type_named_in type t :
  geometry_type_named type = Some t -> In t named_geometry_types.
Proof.
  unfold geometry_type_named, named_geometry_types.
  repeat match goal with
         | |- context [if ?c then _ else _] => destruct c
         end; intros [= <-]; cbn; tauto.
Qed.

Lemma bind_option_bound b0 option b :
  bind_option b0 option = Returned b ->
  bound_from b0 b /\ In (Upper (fst option)) option_names.
Proof.
  unfold bind_option, option_names, bound_from.
  destruct (String.eqb_spec (Upper (fst option)) "DRIVER") as [->|_].
  { destruct (front_string _ _); try discriminate. intros [= <-]. cbn. tauto. }
  destruct (String.eqb_spec (Upper (fst option)) "LAYER_NAME") as [->|_].
  { destruct (front_string _ _); try discriminate. intros [= <-]. cbn. tauto. }
  destruct (String.eqb_spec (Upper (fst option)) "LAYER_CREATION_OPTIONS") as [->|_].
  { destruct (add_strings _ _ _); try discriminate. intros [= <-]. cbn. tauto. }
  destruct (String.eqb_spec (Upper (fst option)) "DATASET_CREATION_OPTIONS") as [->|_].
  { destruct (add_strings _ _ _); try discriminate. intros [= <-]. cbn. tauto. }
  destruct (String.eqb_spec (Upper (fst option)) "GEOMETRY_TYPE") as [->|_].
  { destruct (front_string _ _) as [type| | | | |]; try discriminate. cbn [and_then].
    destruct (geometry_type_named type) as [t|] eqn:Et; [|discriminate].
    intros [= <-]. cbn [file_path field_sql_types field_names geometry_type set_geometry_type].
    pose proof (geometry_type_named_in _ _ Et). cbn. tauto. }
  destruct (String.eqb_spec (Upper (fst option)) "SRS") as [->|_].
  { destruct (front_string _ _); try discriminate. intros [= <-]. cbn. tauto. }
  discriminate.
Qed.

Lemma bind_options_bound (options : list (string * list Value)) :
  forall b0 b,
    bind_options options b0 = Returned b ->
    bound_from b0 b
    /\ Forall (fun option => In (Upper (fst option)) option_names) options.
Proof.
  induction options as [|option options IH]; intros b0 b H.
  - cbn in H. injection H as <-. unfold bound_from. repeat split; auto.
  - cbn [bind_options] in H.
    destruct (bind_option b0 option) as [b1| | | | |] eqn:E1; try discriminate H.
    cbn [and_then] in H.
    destruct (bind_option_bound _ _ _ E1) as [(P1 & T1 & N1 & G1) K1].
    destruct (IH _ _ H) as [(P2 & T2 & N2 & G2) K2].
    split; [|constructor; assumption].
    unfold bound_from. repeat split; try congruence.
    destruct G2 as [G2|G2]; [|tauto]. rewrite G2. exact G1.
Qed.

(** X15.  The bind data [Bind] returns were checked: the driver name
    is not empty and names a driver that GDAL knows, whose extension is
    the one left in the input; a driver named OpenFileGDB comes with a
    geometry type; the geometry type is the unknown one or one of the
    seven that GEOMETRY_TYPE can name; every option is one of the six
    the function knows, in any letter case; and the path, the names and
    the types of the columns are those of the call. *)
Theorem Bind_returns_checked_bind_data
    (path : string) (options : list (string * list Value)) (file_extension : string)
    (names : list string) (sql_types : list LogicalType)
    (bind_data : BindData) (extension : string) :
  Bind path options file_extension names sql_types = Returned (bind_data, extension) ->
  Gdal.empty (driver_name bind_data) = false
  /\ (exists driver,
         GetDriverByName (driver_name bind_data) = Some driver
         /\ extension = driver_extension driver file_extension)
  /\ (driver_name bind_data = "OpenFileGDB" -> geometry_type bind_data <> wkbUnknown)
  /\ (geometry_type bind_data = wkbUnknown
      \/ In (geometry_type bind_data) named_geometry_types)
  /\ Forall (fun option => In (Upper (fst option)) option_names) options
  /\ file_path bind_data = path
  /\ field_names bind_data = names
  /\ field_sql_types bind_data = sql_types.
Proof.
  unfold Bind.
  destruct (bind_options options (NewBindData path sql_types names))
    as [b| | | | |] eqn:Eo; try discriminate.
  cbn [and_then].
  destruct (bind_options_bound _ _ _ Eo) as [(P & T & N & G) K].
  cbn [NewBindData file_path field_sql_types field_names geometry_type] in P, T, N, G.
  destruct (Gdal.empty (driver_name b)) eqn:Ed; [discriminate|].
  set (b' := if Gdal.empty (layer_name b) then _ else b).
  assert (Hb : driver_name b' = driver_name b /\ geometry_type b' = geometry_type b
               /\ file_path b' = file_path b /\ field_names b' = field_names b
               /\ field_sql_types b' = field_sql_types b).
  { unfold b'. destruct (Gdal.empty (layer_name b)); cbn; auto. }
  destruct Hb as (Hd & Hg & Hp & Hn & Ht).
  destruct (GetDriverByName (driver_name b')) as [driver|] eqn:Eg; [|discriminate].
  destruct (String.eqb (driver_name b') "OpenFileGDB"
            && OGRwkbGeometryType_eqb (geometry_type b') wkbUnknown) eqn:Ec;
    [discriminate|].
  intros [= <- <-].
  split; [now rewrite Hd|].
  split; [eauto|].
  split; [intros Hname Hunknown; rewrite Hname, Hunknown in Ec; discriminate Ec|].
  split; [rewrite Hg; exact G|].
  split; [exact K|].
  repeat split; congruence.
Qed.

(** ** Sink *)





End CopyFunction.

Lemma list_field_is_list_form_of_child_witness :
  exists child_field,
    @Gdal.OGRFieldTypeFromLogicalType sample_duckdb "flags"
      (Gdal.Plain Gdal.BOOLEAN "")
    = Gdal.Returned child_field
    /\ list_form (Gdal.field_type child_field) = Some Gdal.OFTIntegerList
    /\ Gdal.OFSTBoolean = Gdal.field_subtype child_field
    /\ "flags"%string = "flags"%string.
Proof.
  refine (proj1 (@list_field_is_list_form_of_child sample_duckdb "flags")
            (Gdal.Plain Gdal.BOOLEAN "") ""
            (Gdal.SetSubType Gdal.OFSTBoolean
               (Gdal.NewFieldDefn "flags" Gdal.OFTIntegerList)) _).
  reflexivity.
Defined.

Lemma Sink_fields_follow_field_defs_witness :
  map fst
    [(0%Z, @Gdal.FieldInteger double 7); (1%Z, @Gdal.FieldBinary double 3 "abc")]
  = map Z.of_nat (seq 0 2).
Proof.
  refine (proj2 (proj2 (proj2 (proj2
    (@Sink_fields_follow_field_defs sample_duckdb sample_ogr
       (Gdal.mkBindData "out.json"
          [Gdal.Plain Gdal.INTEGER ""; Gdal.Plain Gdal.BLOB "GEOMETRY";
           Gdal.Plain Gdal.VARCHAR ""]
          ["id"; "geom"; "name"]%string
          "GeoJSON" "out" [] [] "" Gdal.wkbUnknown)
       [(Gdal.Plain Gdal.INTEGER "", Some (7%Z, ""%string));
        (Gdal.Plain Gdal.BLOB "GEOMETRY", Some (0%Z, "wkb"%string));
        (Gdal.Plain Gdal.VARCHAR "", Some (0%Z, "abc"%string))]
       [Gdal.NewFieldDefn "id" Gdal.OFTInteger; Gdal.NewFieldDefn "name" Gdal.OFTString]
       [Gdal.NewFieldDefn "id" Gdal.OFTInteger; Gdal.NewFieldDefn "name" Gdal.OFTString]
       (Gdal.mkFeature (Some "wkb"%string)
          [(0%Z, @Gdal.FieldInteger double 7); (1%Z, @Gdal.FieldBinary double 3 "abc")])
       _ _ _ _))))).
  - reflexivity.
  - reflexivity.
  - reflexivity.
  - cbn. lia.
Defined.


Lemma time_fields_recompose_witness :
  exists hour minute,
    @Gdal.SetOgrFieldFromValue sample_duckdb (Gdal.Plain Gdal.TIME "")
      (Gdal.Plain Gdal.TIME "", Some (45296000000%Z, ""%string))
    = Gdal.Returned
        (Gdal.FieldDateTime 0 0 0 hour minute
           (@Gdal.seconds_of sample_duckdb 45296000000) 0)
    /\ (0 <= hour <= 24)%Z /\ (0 <= minute < 60)%Z
    /\ (0 <= Z.rem 45296000000 Gdal.MICROS_PER_MINUTE < Gdal.MICROS_PER_MINUTE)%Z
    /\ (hour * Gdal.MICROS_PER_HOUR + minute * Gdal.MICROS_PER_MINUTE
        + Z.rem 45296000000 Gdal.MICROS_PER_MINUTE = 45296000000)%Z.
Proof.
  refine (proj1 (@time_fields_recompose sample_duckdb ""%string
                   (Gdal.Plain Gdal.TIME "", Some (45296000000%Z, ""%string)) _ _)).
  - reflexivity.
  - cbn. lia.
Defined.

Lemma Bind_returns_checked_bind_data_witness :
  Forall (fun option : string * list (@Gdal.Value sample_duckdb) =>
            In (Gdal.Upper (fst option)) option_names)
    [("driver"%string, [(Gdal.Plain Gdal.VARCHAR "", Some (0%Z, "GeoJSON"%string))]);
     ("Geometry_Type"%string, [(Gdal.Plain Gdal.VARCHAR "", Some (0%Z, "point"%string))])].
Proof.
  refine (proj1 (proj2 (proj2 (proj2 (proj2
    (@Bind_returns_checked_bind_data sample_duckdb sample_ogr
       "out.json"%string
       [("driver"%string, [(Gdal.Plain Gdal.VARCHAR "", Some (0%Z, "GeoJSON"%string))]);
        ("Geometry_Type"%string,
         [(Gdal.Plain Gdal.VARCHAR "", Some (0%Z, "point"%string))])]
       "gdal"%string ["id"%string] [Gdal.Plain Gdal.INTEGER ""]
       (Gdal.mkBindData "out.json" [Gdal.Plain Gdal.INTEGER ""] ["id"%string]
          "GeoJSON" "out.json" [] [] "" Gdal.wkbPoint)
       "json geojson"%string _)))))).
  reflexivity.
Defined.


(* ================================================================== *)
(** * The reader on a vertex with the wrong number of coordinates      *)
(* ================================================================== *)

Lemma throws_first {A B : Type} (p : M A) (k : A -> M B) r text :
  throws p r text -> throws (bind p k) r text.
Proof. intros (ctx & E). exists ctx. unfold bind. now rewrite E. Qed.

Lemma throws_bind {A B : Type} (p : M A) (k : A -> M B) r a (Q : reader -> Prop) text :
  runs p r a Q -> (forall r', Q r' -> throws (k a) r' text) -> throws (bind p k) r text.
Proof.
  intros (r1 & E & H1) Hk. destruct (Hk r1 H1) as (ctx & E2).
  exists ctx. unfold bind. now rewrite E.
Qed.

Lemma throws_keyword_skip {A : Type} kw text rest (K K' : M A) r msg n :
  remaining r = list_ascii_of_string text ++ rest ->
  ci_prefix (list_ascii_of_string kw) (list_ascii_of_string text ++ rest) = CiMismatch n ->
  throws K' r msg ->
  throws (b <- MatchCI kw ;; if b then K else K') r msg.
Proof.
  intros E H (ctx & EK). exists ctx. unfold bind.
  now rewrite (MatchCI_other kw text rest r n E H).
Qed.

Lemma throws_keyword_then {A : Type} kw (K K' : M A) z m c t r msg :
  remaining r = list_ascii_of_string kw ++ zm_text z m ++ " "%char :: c :: t ->
  ready z m r ->
  Ascii.eqb c "Z" = false -> Ascii.eqb c "M" = false -> Ctype.isspace c = false ->
  (forall r2, at_ (c :: t) z m r2 -> throws K r2 msg) ->
  throws (b <- MatchCI kw ;; if b then CheckZM ;;; K else K') r msg.
Proof.
  intros E Hready HZ HM Hsp HK.
  destruct (MatchCI_keyword kw _ r E (ci_prefix_self _ _)) as (r1 & EM & E1 & Fz & Fm & Fs).
  assert (Hready1 : ready z m r1).
  { destruct Hready as [Hs|(Hz & Hm & Hs)]; [left | right]; repeat split; congruence. }
  destruct (runs_CheckZM_ready z m c t r1 HZ HM Hsp E1 Hready1) as (r2 & EC & K2).
  destruct (HK r2 K2) as (ctx & EK).
  exists ctx. unfold bind. rewrite EM. unfold bind in EC |- *. now rewrite EC.
Qed.

(** A closing parenthesis where a number is expected. *)
Lemma ParseDouble_throws s z m r :
  at_ (")"%char :: s) z m r -> throws ParseDouble r "WKT Parser: Expected double ".
Proof.
  intros (E & _). unfold throws, ParseDouble, bind.
  rewrite TryParseDouble_view, E.
  change (fast_float.from_chars (")"%char :: s)) with (@None (double * list ascii)).
  unfold GetErrorContext, throw. eexists. reflexivity.
Qed.

(** Another byte where a character is expected. *)
Lemma Expect_throws c x s z m r :
  at_ (x :: s) z m r -> Ascii.eqb x c = false ->
  throws (Expect c) r ("WKT Parser: Expected character '" ++ String c "" ++ "' ").
Proof.
  intros (E & _) Hx. unfold throws, Expect, bind.
  rewrite (Match_miss_eq c x s r E Hx).
  unfold GetErrorContext, throw. eexists. reflexivity.
Qed.

(** A coordinate followed by a space and another coordinate. *)
Lemma runs_ParseDouble_next t t2 y z m r :
  is_number_token t = true -> is_number_token t2 = true ->
  at_ (t ++ " "%char :: t2 ++ y) z m r ->
  runs ParseDouble r (token_value t) (at_ (t2 ++ y) z m).
Proof.
  intros Ht Ht2 H.
  eapply runs_weaken; [apply (runs_ParseDouble t " " _ z m r Ht delimiter_space H)|].
  intros r' H'. now rewrite drop_space_token in H'.
Qed.

(** The last coordinate before the closing parenthesis. *)
Lemma runs_ParseDouble_last t s z m r :
  is_number_token t = true ->
  at_ (t ++ ")"%char :: s) z m r ->
  runs ParseDouble r (token_value t) (at_ (")"%char :: s) z m).
Proof.
  intros Ht H.
  eapply runs_weaken; [apply (runs_ParseDouble t ")" s z m r Ht eq_refl H)|].
  intros r' H'. now rewrite drop_space_nonspace in H' by reflexivity.
Qed.


(** A vertex with fewer coordinates than the dimension asks for. *)
Lemma ParseVertex_too_few v s z m r :
  forallb is_number_token v = true ->
  List.length v < VertexArray.dimension z m ->
  at_ (vertex_text v ++ ")"%char :: s) z m r ->
  throws (ParseVertex []) r "WKT Parser: Expected double ".
Proof.
  intros Htok Hlen H. pose proof H as (_ & Hz & Hm & _).
  unfold ParseVertex, throws. unfold bind at 1, get. rewrite Hz, Hm.
  fold (throws (x <- ParseDouble ;;
                y <- ParseDouble ;;
                z0 <- (if z then ParseDouble else ret Double.zero) ;;
                m0 <- (if m then ParseDouble else ret Double.zero) ;;
                ret ([] ++ [x; y] ++ (if z then [z0] else []) ++ (if m then [m0] else [])))
               r "WKT Parser: Expected double ").
  destruct z, m; cbn in Hlen.
  - destruct v as [|t1 [|t2 [|t3 [|t4 v]]]]; cbn [List.length] in Hlen; try lia;
      cbn [forallb] in Htok;
      repeat (apply andb_prop in Htok; destruct Htok as [? Htok]);
      unfold vertex_text in H; cbn [join] in H;
      repeat (rewrite <- app_assoc in H; cbn [app] in H).
    + apply throws_first. exact (ParseDouble_throws _ _ _ _ H).
    + eapply throws_bind; [refine (runs_ParseDouble_last t1 _ _ _ r _ H); assumption|]; intros r1 K1.
      apply throws_first. exact (ParseDouble_throws _ _ _ _ K1).
    + eapply throws_bind; [refine (runs_ParseDouble_next t1 t2 _ _ _ r _ _ H); assumption|]; intros r1 K1.
      eapply throws_bind; [refine (runs_ParseDouble_last t2 _ _ _ r1 _ K1); assumption|]; intros r2 K2.
      apply throws_first. exact (ParseDouble_throws _ _ _ _ K2).
    + eapply throws_bind; [refine (runs_ParseDouble_next t1 t2 _ _ _ r _ _ H); assumption|]; intros r1 K1.
      eapply throws_bind; [refine (runs_ParseDouble_next t2 t3 _ _ _ r1 _ _ K1); assumption|]; intros r2 K2.
      eapply throws_bind; [refine (runs_ParseDouble_last t3 _ _ _ r2 _ K2); assumption|]; intros r3 K3.
      apply throws_first. exact (ParseDouble_throws _ _ _ _ K3).
  - destruct v as [|t1 [|t2 [|t3 v]]]; cbn [List.length] in Hlen; try lia;
      cbn [forallb] in Htok;
      repeat (apply andb_prop in Htok; destruct Htok as [? Htok]);
      unfold vertex_text in H; cbn [join] in H;
      repeat (rewrite <- app_assoc in H; cbn [app] in H).
    + apply throws_first. exact (ParseDouble_throws _ _ _ _ H).
    + eapply throws_bind; [refine (runs_ParseDouble_last t1 _ _ _ r _ H); assumption|]; intros r1 K1.
      apply throws_first. exact (ParseDouble_throws _ _ _ _ K1).
    + eapply throws_bind; [refine (runs_ParseDouble_next t1 t2 _ _ _ r _ _ H); assumption|]; intros r1 K1.
      eapply throws_bind; [refine (runs_ParseDouble_last t2 _ _ _ r1 _ K1); assumption|]; intros r2 K2.
      apply throws_first. exact (ParseDouble_throws _ _ _ _ K2).
  - destruct v as [|t1 [|t2 [|t3 v]]]; cbn [List.length] in Hlen; try lia;
      cbn [forallb] in Htok;
      repeat (apply andb_prop in Htok; destruct Htok as [? Htok]);
      unfold vertex_text in H; cbn [join] in H;
      repeat (rewrite <- app_assoc in H; cbn [app] in H).
    + apply throws_first. exact (ParseDouble_throws _ _ _ _ H).
    + eapply throws_bind; [refine (runs_ParseDouble_last t1 _ _ _ r _ H); assumption|]; intros r1 K1.
      apply throws_first. exact (ParseDouble_throws _ _ _ _ K1).
    + eapply throws_bind; [refine (runs_ParseDouble_next t1 t2 _ _ _ r _ _ H); assumption|]; intros r1 K1.
      eapply throws_bind; [refine (runs_ParseDouble_last t2 _ _ _ r1 _ K1); assumption|]; intros r2 K2.
      eapply throws_bind; [apply runs_ret; exact K2|]; intros r3 K3.
      apply throws_first. exact (ParseDouble_throws _ _ _ _ K3).
  - destruct v as [|t1 [|t2 v]]; cbn [List.length] in Hlen; try lia;
      cbn [forallb] in Htok;
      repeat (apply andb_prop in Htok; destruct Htok as [? Htok]);
      unfold vertex_text in H; cbn [join] in H;
      repeat (rewrite <- app_assoc in H; cbn [app] in H).
    + apply throws_first. exact (ParseDouble_throws _ _ _ _ H).
    + eapply throws_bind; [refine (runs_ParseDouble_last t1 _ _ _ r _ H); assumption|]; intros r1 K1.
      apply throws_first. exact (ParseDouble_throws _ _ _ _ K1).
Qed.

(** A vertex followed by a space and one more coordinate. *)
Lemma runs_ParseVertex_then_token v t y z m r :
  is_vertex z m v = true ->
  is_number_token t = true ->
  at_ (vertex_text v ++ " "%char :: t ++ y) z m r ->
  runs (ParseVertex []) r (map token_value v) (at_ (t ++ y) z m).
Proof.
  intros Hv Ht H. pose proof H as (_ & Hz & Hm & _).
  unfold is_vertex in Hv. apply andb_prop in Hv. destruct Hv as [Hlen Htok].
  apply Nat.eqb_eq in Hlen.
  unfold ParseVertex. apply runs_get. rewrite Hz, Hm.
  destruct z, m; cbn in Hlen.
  - destruct v as [|t1 [|t2 [|t3 [|t4 [|]]]]]; try discriminate Hlen.
    cbn in Htok. repeat (apply andb_prop in Htok; destruct Htok as [? Htok]).
    unfold vertex_text in H. cbn [join] in H.
    repeat (rewrite <- app_assoc in H; cbn [app] in H).
    eapply runs_bind; [refine (runs_ParseDouble_next t1 t2 _ _ _ r _ _ H); assumption|].
    intros r1 K1.
    eapply runs_bind; [refine (runs_ParseDouble_next t2 t3 _ _ _ r1 _ _ K1); assumption|].
    intros r2 K2.
    eapply runs_bind; [refine (runs_ParseDouble_next t3 t4 _ _ _ r2 _ _ K2); assumption|].
    intros r3 K3.
    eapply runs_bind; [refine (runs_ParseDouble_next t4 t _ _ _ r3 _ _ K3); assumption|].
    intros r4 K4.
    now apply runs_ret.
  - destruct v as [|t1 [|t2 [|t3 [|]]]]; try discriminate Hlen.
    cbn in Htok. repeat (apply andb_prop in Htok; destruct Htok as [? Htok]).
    unfold vertex_text in H. cbn [join] in H.
    repeat (rewrite <- app_assoc in H; cbn [app] in H).
    eapply runs_bind; [refine (runs_ParseDouble_next t1 t2 _ _ _ r _ _ H); assumption|].
    intros r1 K1.
    eapply runs_bind; [refine (runs_ParseDouble_next t2 t3 _ _ _ r1 _ _ K1); assumption|].
    intros r2 K2.
    eapply runs_bind; [refine (runs_ParseDouble_next t3 t _ _ _ r2 _ _ K2); assumption|].
    intros r3 K3.
    eapply runs_bind; [apply runs_ret; exact K3|].
    intros r4 K4.
    now apply runs_ret.
  - destruct v as [|t1 [|t2 [|t3 [|]]]]; try discriminate Hlen.
    cbn in Htok. repeat (apply andb_prop in Htok; destruct Htok as [? Htok]).
    unfold vertex_text in H. cbn [join] in H.
    repeat (rewrite <- app_assoc in H; cbn [app] in H).
    eapply runs_bind; [refine (runs_ParseDouble_next t1 t2 _ _ _ r _ _ H); assumption|].
    intros r1 K1.
    eapply runs_bind; [refine (runs_ParseDouble_next t2 t3 _ _ _ r1 _ _ K1); assumption|].
    intros r2 K2.
    eapply runs_bind; [apply runs_ret; exact K2|].
    intros r3 K3.
    eapply runs_bind; [refine (runs_ParseDouble_next t3 t _ _ _ r3 _ _ K3); assumption|].
    intros r4 K4.
    now apply runs_ret.
  - destruct v as [|t1 [|t2 [|]]]; try discriminate Hlen.
    cbn in Htok. repeat (apply andb_prop in Htok; destruct Htok as [? Htok]).
    unfold vertex_text in H. cbn [join] in H.
    repeat (rewrite <- app_assoc in H; cbn [app] in H).
    eapply runs_bind; [refine (runs_ParseDouble_next t1 t2 _ _ _ r _ _ H); assumption|].
    intros r1 K1.
    eapply runs_bind; [refine (runs_ParseDouble_next t2 t _ _ _ r1 _ _ K1); assumption|].
    intros r2 K2.
    eapply runs_bind; [apply runs_ret; exact K2|].
    intros r3 K3.
    eapply runs_bind; [apply runs_ret; exact K3|].
    intros r4 K4.
    now apply runs_ret.
Qed.

Lemma firstn_skipn_tokens (n : nat) (v : vertex_tokens) :
  n < List.length v ->
  exists v1 t rest, v = (v1 ++ t :: rest)%list /\ List.length v1 = n.
Proof.
  intros H. exists (firstn n v).
  destruct (skipn n v) as [|t rest] eqn:E.
  - apply (f_equal (@List.length _)) in E. rewrite length_skipn in E. cbn in E. lia.
  - exists t, rest. split.
    + now rewrite <- E, firstn_skipn.
    + rewrite length_firstn. lia.
Qed.

Lemma join_space_app (v1 : vertex_tokens) t rest :
  v1 <> [] ->
  vertex_text (v1 ++ t :: rest) = (vertex_text v1 ++ " "%char :: vertex_text (t :: rest))%list.
Proof.
  unfold vertex_text. induction v1 as [|a v1 IH]; intros Hne; [contradiction|].
  destruct v1 as [|b v1].
  - cbn [app join]. reflexivity.
  - change ((a :: b :: v1) ++ t :: rest)%list with (a :: (b :: v1) ++ t :: rest)%list.
    change (join [" "%char] (a :: (b :: v1) ++ t :: rest))
      with (a ++ [" "%char] ++ join [" "%char] ((b :: v1) ++ t :: rest))%list.
    rewrite IH by discriminate. cbn [join]. now rewrite <- !app_assoc.
Qed.

Lemma vertex_text_cons t rest :
  exists y, vertex_text (t :: rest) = (t ++ y)%list.
Proof.
  unfold vertex_text. destruct rest as [|t2 rest].
  - exists []. cbn. now rewrite app_nil_r.
  - eexists. cbn [join]. reflexivity.
Qed.

(** The body of a point with more coordinates than the dimension asks
    for. *)
Lemma ParsePoint_too_many v s z m r :
  forallb is_number_token v = true ->
  VertexArray.dimension z m < List.length v ->
  at_ (parenthesized v ++ s) z m r ->
  throws ParsePoint r "WKT Parser: Expected character ')' ".
Proof.
  intros Htok Hlen H.
  destruct (firstn_skipn_tokens (VertexArray.dimension z m) v Hlen)
    as (v1 & t & rest & -> & Hl1).
  rewrite forallb_app in Htok. apply andb_prop in Htok. destruct Htok as [Hv1 Ht].
  cbn [forallb] in Ht. apply andb_prop in Ht. destruct Ht as [Ht _].
  assert (Hv : is_vertex z m v1 = true).
  { unfold is_vertex. rewrite Hl1, Nat.eqb_refl. exact Hv1. }
  assert (Hne : v1 <> []) by (intros ->; destruct z, m; discriminate Hl1).
  unfold parenthesized in H. rewrite join_space_app in H by exact Hne.
  destruct (vertex_text_cons t rest) as (y & Ey). rewrite Ey in H.
  cbn [app] in H. rewrite <- !app_assoc in H. cbn [app] in H.
  rewrite <- !app_assoc in H.
  unfold ParsePoint.
  eapply throws_bind; [apply (runs_MatchCI_not_empty _ _ _ _ H)|]. intros r0 K0.
  eapply throws_bind; [apply (runs_Expect _ _ _ _ _ K0)|]. intros r1 K1.
  destruct (vertex_first z m v1 Hv) as (c & x & Ev & Hc & _).
  rewrite Ev in K1. cbn [app] in K1. rewrite drop_space_nonspace in K1 by exact Hc.
  change (c :: x ++ " "%char :: t ++ y ++ ")"%char :: s)%list
    with ((c :: x) ++ " "%char :: t ++ y ++ ")"%char :: s)%list in K1.
  rewrite <- Ev in K1.
  eapply throws_bind; [apply (runs_ParseVertex_then_token v1 t _ z m r1 Hv Ht K1)|].
  intros r2 K2.
  destruct (token_first t Ht) as (c' & t' & -> & _ & _ & _ & Hp).
  apply throws_first.
  apply (Expect_throws ")" c' _ z m r2 K2 Hp).
Qed.

(** The body of a point with fewer coordinates than the dimension asks
    for. *)
Lemma ParsePoint_too_few v s z m r :
  forallb is_number_token v = true ->
  List.length v < VertexArray.dimension z m ->
  at_ (parenthesized v ++ s) z m r ->
  throws ParsePoint r "WKT Parser: Expected double ".
Proof.
  intros Htok Hlen H. unfold parenthesized in H.
  cbn [app] in H. rewrite <- app_assoc in H. cbn [app] in H.
  unfold ParsePoint.
  eapply throws_bind; [apply (runs_MatchCI_not_empty _ _ _ _ H)|]. intros r0 K0.
  eapply throws_bind; [apply (runs_Expect _ _ _ _ _ K0)|]. intros r1 K1.
  assert (K1' : at_ (vertex_text v ++ ")"%char :: s) z m r1).
  { destruct v as [|t v]; [exact K1|].
    cbn [forallb] in Htok. apply andb_prop in Htok. destruct Htok as [Ht _].
    destruct (vertex_text_cons t v) as (y & Ey). rewrite Ey in K1 |- *.
    destruct (token_first t Ht) as (c & t' & -> & Hc & _).
    cbn [app] in K1 |- *. now rewrite drop_space_nonspace in K1 by exact Hc. }
  apply throws_first.
  apply (ParseVertex_too_few v s z m r1 Htok Hlen K1').
Qed.

Lemma Parse_point_with z m v text :
  (forall r, at_ (parenthesized v ++ []) z m r -> throws ParsePoint r text) ->
  exists context, Parse (point_with z m v) = InvalidInputException (text ++ context)%string.
Proof.
  intros Hbody. unfold Parse, point_with.
  rewrite list_ascii_of_string_of_list_ascii.
  set (bytes := list_ascii_of_string "POINT" ++ zm_text z m ++ " "%char :: parenthesized v).
  set (r0 := mkReader bytes 0 false false false).
  assert (E0 : remaining r0
               = list_ascii_of_string "POINT" ++ zm_text z m
                 ++ " "%char :: "("%char :: (vertex_text v ++ [")"%char]) ++ [])
    by (unfold r0, bytes, parenthesized; cbn [remaining skipn cursor input];
        now rewrite app_nil_r).
  assert (E0' : remaining r0
                = "P"%char :: list_ascii_of_string "OINT" ++ zm_text z m
                  ++ " "%char :: "("%char :: (vertex_text v ++ [")"%char]) ++ [])
    by exact E0.
  assert (T : throws (ParseGeometry (S (List.length bytes))) r0 text).
  { cbn [ParseGeometry].
    eapply throws_keyword_then; [exact E0 | left; reflexivity | reflexivity..|].
    intros r2 K2. apply throws_first. apply Hbody. exact K2. }
  destruct T as (ctx & ET). exists ctx.
  unfold ParseWKT. unfold bind at 1.
  rewrite (MatchCI_first_mismatch "S" _ r0 _ _ E0' eq_refl).
  unfold bind at 1, ret at 1. now rewrite ET.
Qed.

(** X17.  A point must have as many coordinates as its dimension
    suffix says (two, and one more for each of Z and M): with fewer, the
    reader finds the closing parenthesis where it expects a number and
    raises "Expected double"; with more, it finds a number where it
    expects the closing parenthesis and raises "Expected character
    ')'". *)
Theorem Parse_point_needs_its_dimension (z m : bool) (v : vertex_tokens) :
  forallb is_number_token v = true ->
  (List.length v < VertexArray.dimension z m ->
   exists context,
     Parse (point_with z m v)
     = InvalidInputException ("WKT Parser: Expected double " ++ context)%string)
  /\ (VertexArray.dimension z m < List.length v ->
      exists context,
        Parse (point_with z m v)
        = InvalidInputException
            ("WKT Parser: Expected character ')' " ++ context)%string).
Proof.
  intros Htok. split; intros Hlen; apply Parse_point_with; intros r H.
  - now apply (ParsePoint_too_few v [] z m r).
  - now apply (ParsePoint_too_many v [] z m r).
Qed.

Lemma Parse_point_needs_its_dimension_witness :
  exists context,
    Parse "POINT Z (1 2)"
    = InvalidInputException ("WKT Parser: Expected double " ++ context)%string.
Proof.
  refine (proj1 (Parse_point_needs_its_dimension true false
                   [["1"%char]; ["2"%char]] _) _).
  - reflexivity.
  - cbn. lia.
Defined.

Example Parse_point_with_three_coordinates :
  Parse "POINT (1 2 3)"
  = InvalidInputException
      "WKT Parser: Expected character ')' at position 11 near: 'POINT (1 2 3'|<---".
Proof. vm_compute. reflexivity. Qed.
